(** * nphusl: RGB <-> HUSL conversion over NumPy arrays

    A shallow embedding of [nphusl/nphusl.py].  NumPy's [float64] is the
    kernel's binary64 ([PrimFloat]); one-dimensional arrays are lists, a
    flattened [(N, 3)] array is a list of rows, a boolean mask is a list of
    booleans.  The functions of the C library that NumPy calls ([sin], [cos],
    [arctan2], [pow]) and the values of [constants.py] are parameters of the
    development. *)

From Stdlib Require Import Floats ZArith Lia List Bool.
From stdpp Require Import gmap strings list.
Set Warnings "-inexact-float".
Open Scope float_scope.

(** * Part I: the embedding *)

(** ** Comparison results of the specification of binary64 *)

Module FloatOrder.

Definition sf_opp (c : option comparison) : option comparison :=
  match c with Some c => Some (CompOpp c) | None => None end.

Definition sf_le (c : option comparison) : bool :=
  match c with Some Lt | Some Eq => true | _ => false end.

End FloatOrder.

(** ** NumPy primitives *)

(** A pixel is one row of a flattened [(N, 3)] array. *)
Definition pixel : Type := float * float * float.

(** [data[..., n]] on one row; the code only uses [n] in [0..2]. *)
Definition chan (p : pixel) (n : nat) : float :=
  match p, n with
  | (a, _, _), O => a
  | (_, b, _), S O => b
  | (_, _, c), _ => c
  end.

(** [np.zeros(n)] *)
Definition zeros (n : nat) : list float := repeat 0 n.

(** [a[mask]]: the elements of [a] where [mask] holds, in order. *)
Fixpoint mask_get {A} (mask : list bool) (a : list A) : list A :=
  match mask, a with
  | m :: mask, x :: a => if m then x :: mask_get mask a else mask_get mask a
  | _, _ => []
  end.

(** [a[mask] = vals]: the elements of [vals] are written, in order, to the
    positions of [a] where [mask] holds. *)
Fixpoint mask_put {A} (mask : list bool) (a : list A) (vals : list A) : list A :=
  match mask, a with
  | m :: mask, x :: a =>
      if m then
        match vals with
        | v :: vals => v :: mask_put mask a vals
        | [] => x :: mask_put mask a []
        end
      else x :: mask_put mask a vals
  | _, _ => a
  end.

(** [a[mask] = v] for a scalar [v]. *)
Fixpoint mask_fill {A} (mask : list bool) (a : list A) (v : A) : list A :=
  match mask, a with
  | m :: mask, x :: a => (if m then v else x) :: mask_fill mask a v
  | _, _ => a
  end.

(** [np.minimum(a, b)] on one element: [a] when [a] is NaN or [a < b], and
    [b] otherwise, so that a NaN in either place is handed on and of two
    values that compare equal, two zeros of different sign among them, the
    second is returned, as the vectorized loop of NumPy does. *)
Definition np_minimum (a b : float) : float :=
  if is_nan a then a else if a <? b then a else b.

(** The largest finite binary64, [np.finfo(float).max]. *)
Definition float_max : float := 0x1.fffffffffffffp+1023.

(** [np.nan_to_num] on one element. *)
Definition nan_to_num (x : float) : float :=
  if is_nan x then 0
  else if x =? infinity then float_max
  else if x =? neg_infinity then - float_max
  else x.

(** [math.pi] *)
Definition math_pi : float := 0x1.921fb54442d18p+1.

(** [np.degrees] and [np.radians] on one element. *)
Definition degrees (x : float) : float := x * (180 / math_pi).
Definition radians (x : float) : float := x * (math_pi / 180).

(** The numeric routines below NumPy's element-wise arithmetic: the functions
    it takes from the C library, [power] being its [pow], and [np.sum] over
    one row, whose order of accumulation is NumPy's choice. *)
Record Libm : Type := {
  sin : float -> float;
  cos : float -> float;
  arctan2 : float -> float -> float;
  power : float -> float -> float;
  add_reduce : list float -> float
}.

(** [x ** 2] on an array of any number of dimensions, zero among them:
    NumPy takes [np.square]. *)
Definition square (x : float) : float := x * x.

(** [s ** 0.5].  On an array NumPy takes [np.sqrt], the correctly rounded
    square root.  Where the operands of the sum [s] are zero-dimensional
    arrays, [s] is a NumPy scalar, and on a scalar [**] calls [pow] of the C
    library. *)
Definition pow_half (lm : Libm) (scalar : bool) (s : float) : float :=
  if scalar then power lm s 0.5 else sqrt s.

(** The values of [constants.py]: the two colour matrices by rows and the
    reference scalars. *)
Record Constants : Type := {
  M : pixel * pixel * pixel;
  M_INV : pixel * pixel * pixel;
  REF_Y : float;
  REF_U : float;
  REF_V : float;
  KAPPA : float;
  EPSILON : float
}.

Definition matrix_rows (m : pixel * pixel * pixel) : list pixel :=
  let '(r0, r1, r2) := m in [r0; r1; r2].

(** [_channel(data, n)] on a flattened array: a column. *)
Definition _channel (data : list pixel) (last_dim_idx : nat) : list float :=
  map (fun p => chan p last_dim_idx) data.

(** The rows whose columns are [a], [b] and [c]. *)
Definition stack3 (a b c : list float) : list pixel :=
  zip_with (fun x yz => (x, fst yz, snd yz)) a (zip b c).

Definition L_MAX : float := 99.99.
Definition L_MIN : float := 0.01.

Definition _2pi : float := math_pi * 2.

Definition TOP2_L_SCALAR : float := 769860.0.
Definition BOTTOM_CONST : float := 126452.0.

(** ** The chroma bounds solver *)

Section Solver.
Context (lm : Libm) (k : Constants).

Definition M1 : list float := _channel (matrix_rows (M k)) 0.
Definition M2 : list float := _channel (matrix_rows (M k)) 1.
Definition M3 : list float := _channel (matrix_rows (M k)) 2.

Definition TOP1_SCALAR : list float :=
  zip_with (fun m1 m3 => 284517.0 * m1 - 94839.0 * m3) M1 M3.
Definition TOP2_SCALAR : list float :=
  zip_with (fun m32 m1 => m32 + 731718.0 * m1)
    (zip_with (fun m3 m2 => 838422.0 * m3 + 769860.0 * m2) M3 M2) M1.
Definition BOTTOM_SCALAR : list float :=
  zip_with (fun m3 m2 => 632260.0 * m3 - 126452.0 * m2) M3 M2.

(** Lines 190-197 of [_bounds]: the term [sub2]. *)
Definition _bounds_sub (l_nd : list float) : list float :=
  let sub1 := map (fun l => l + 16.0) l_nd in
  let sub1 := map (fun s => power lm s 3) sub1 in
  let sub1 := map (fun s => s / 1560896.0) sub1 in
  let sub2 := sub1 in
  let lt_epsilon := map (fun s => s <? EPSILON k) sub2 in
  mask_put lt_epsilon sub2 (map (fun l => l / KAPPA k) (mask_get lt_epsilon l_nd)).

(** [_bounds]: the generator's six yields, in order, each a pair of arrays. *)
Definition _bounds (l_nd : list float) : list (list float * list float) :=
  let sub2 := _bounds_sub l_nd in
  flat_map (fun '(t1, t2, b) =>
    map (fun t : bool =>
      let top1 := map (fun s => s * t1) sub2 in
      let top2 := map (fun x => x * t2) (zip_with PrimFloat.mul l_nd sub2) in
      let top2 :=
        if t then zip_with PrimFloat.sub top2 (map (fun l => l * TOP2_L_SCALAR) l_nd)
        else top2 in
      let bottom := map (fun s => s * b) sub2 in
      let bottom := if t then map (fun x => x + BOTTOM_CONST) bottom else bottom in
      (zip_with PrimFloat.div top1 bottom, zip_with PrimFloat.div top2 bottom))
      [false; true])
    (stack3 TOP1_SCALAR TOP2_SCALAR BOTTOM_SCALAR).

(** [_ray_length] *)
Definition _ray_length (theta : list float) (line : list float * list float) : list float :=
  let '(m1, b1) := line in
  zip_with PrimFloat.div b1
    (zip_with PrimFloat.sub (map (sin lm) theta)
       (zip_with PrimFloat.mul m1 (map (cos lm) theta))).

(** [_max_lh_chroma] *)
Definition _max_lh_chroma (lch : list pixel) : list float :=
  let L := _channel lch 0 in
  let H := _channel lch 2 in
  let hrad := map (fun h => (h / 360.0) * _2pi) H in
  let lengths := repeat infinity (length lch) in
  fold_left (fun lengths line =>
    let lens := _ray_length hrad line in
    let lens := mask_fill (map is_nan lens) lens infinity in
    let lens := mask_fill (map (fun x => x <? 0) lens) lens infinity in
    zip_with np_minimum lens lengths) (_bounds L) lengths.

End Solver.

(** ** The solver on one pixel *)

Section SolverPx.
Context (lm : Libm) (k : Constants).

(** The term [sub2] of [_bounds] for one lightness. *)
Definition sub_px (L : float) : float :=
  let s := power lm (L + 16.0) 3 / 1560896.0 in
  if s <? EPSILON k then L / KAPPA k else s.

(** One yield of [_bounds] for one lightness: slope and intercept. *)
Definition line_px (c : pixel) (t : bool) (L : float) : float * float :=
  let '(t1, t2, b) := c in
  let sub2 := sub_px L in
  let top1 := sub2 * t1 in
  let top2 := L * sub2 * t2 in
  let top2 := if t then top2 - L * TOP2_L_SCALAR else top2 in
  let bottom := sub2 * b in
  let bottom := if t then bottom + BOTTOM_CONST else bottom in
  (top1 / bottom, top2 / bottom).

(** The coefficient triple and polarity of each yield, in order. *)
Definition line_variants : list (pixel * bool) :=
  flat_map (fun c => map (fun t => (c, t)) [false; true])
    (stack3 (TOP1_SCALAR k) (TOP2_SCALAR k) (BOTTOM_SCALAR k)).

Definition bounds_px (L : float) : list (float * float) :=
  map (fun v => line_px v.1 v.2 L) line_variants.

(** The claim's wording of the solver: the ray length of a line, a length
    that is NaN or negative counted as infinite, and the minimum over the
    lines. *)
Definition ray_length_px (theta : float) (line : float * float) : float :=
  let '(slope, intercept) := line in
  intercept / (sin lm theta - slope * cos lm theta).

Definition exclude (len : float) : float :=
  if is_nan len then infinity else if len <? 0 then infinity else len.

Definition candidates (L H : float) : list float :=
  map (fun line => exclude (ray_length_px ((H / 360.0) * _2pi) line)) (bounds_px L).

Definition max_chroma_px (L H : float) : float :=
  fold_left (fun acc len => np_minimum len acc) (candidates L H) infinity.

(** The claim's wording of [sub]: the cubic term, replaced below the
    threshold on the lightness. *)
Definition spec_sub (L : float) : float :=
  if L <? EPSILON k then L / KAPPA k else power lm (L + 16.0) 3 / 1560896.0.

End SolverPx.

(** [r] is a least element of [cands]. *)
Definition is_minimum (r : float) (cands : list float) : Prop :=
  In r cands /\ forall x, In x cands -> (r <=? x) = true.

(** ** Arrays with a shape *)

(** An [ndarray] of floats: its shape and its elements in row-major order. *)
Record ndarray : Type := { shape : list nat; data : list float }.

(** [a.reshape((a.size // 3, 3))] as rows.  NumPy raises when the size is not
    a multiple of three; the kernels are only given arrays whose last
    dimension is 3, and the model drops a trailing partial row. *)
Fixpoint rows_of (d : list float) : list pixel :=
  match d with
  | a :: b :: c :: d => (a, b, c) :: rows_of d
  | _ => []
  end.

Definition flat_of (rows : list pixel) : list float :=
  flat_map (fun p => [chan p 0; chan p 1; chan p 2]) rows.

(** [flat.reshape(sh)] *)
Definition reshape (rows : list pixel) (sh : list nat) : ndarray :=
  {| shape := sh; data := flat_of rows |}.

(** [a.squeeze()]: the dimensions of length one are dropped. *)
Definition squeeze (a : ndarray) : ndarray :=
  {| shape := List.filter (fun n => negb (n =? 1)%nat) (shape a); data := data a |}.

(** [np.atleast_3d]: [()] becomes [(1, 1, 1)], [(N,)] becomes [(1, N, 1)],
    [(M, N)] becomes [(M, N, 1)]. *)
Definition atleast_3d (a : ndarray) : ndarray :=
  {| shape := match shape a with
              | [] => [1; 1; 1]
              | [n] => [1; n; 1]
              | [m; n] => [m; n; 1]
              | sh => sh
              end%nat;
     data := data a |}.

(** The consecutive blocks of [n] elements of [l]. *)
Fixpoint blocks_fuel {A} (fuel n : nat) (l : list A) : list (list A) :=
  match fuel, l with
  | S fuel, _ :: _ => take n l :: blocks_fuel fuel n (drop n l)
  | _, _ => []
  end.

Definition blocks {A} (n : nat) (l : list A) : list (list A) :=
  blocks_fuel (length l) n l.

(** [np.dstack((x, y, z))] for three arrays of one shape: they are made
    three-dimensional and concatenated along the third axis. *)
Definition dstack3 (x y z : ndarray) : ndarray :=
  let x := atleast_3d x in
  let y := atleast_3d y in
  let z := atleast_3d z in
  match shape x with
  | a :: b :: c :: rest =>
      let blk := (c * fold_right Nat.mul 1 rest)%nat in
      {| shape := a :: b :: (3 * c)%nat :: rest;
         data := concat (zip_with (fun bx byz => bx ++ byz.1 ++ byz.2)
                           (blocks blk (data x))
                           (zip (blocks blk (data y)) (blocks blk (data z)))) |}
  | _ => x
  end.

(** [np.zeros((n, 3))] *)
Definition zero_rows (n : nat) : list pixel := repeat (0, 0, 0) n.

Definition set_chan (p : pixel) (n : nat) (v : float) : pixel :=
  match p, n with
  | (_, b, c), O => (v, b, c)
  | (a, _, c), S O => (a, v, c)
  | (a, b, _), _ => (a, b, v)
  end.

(** [_channel(data, n)[:] = col]: a write through the column view. *)
Definition chan_set (data : list pixel) (n : nat) (col : list float) : list pixel :=
  zip_with (fun p v => set_chan p n v) data col.

(** [_channel(data, n)[mask] = v] *)
Definition chan_fill (data : list pixel) (n : nat) (mask : list bool) (v : float) : list pixel :=
  chan_set data n (mask_fill mask (_channel data n) v).

(** [_channel(data, n)[mask] = vals] *)
Definition chan_put (data : list pixel) (n : nat) (mask : list bool) (vals : list float)
  : list pixel :=
  chan_set data n (mask_put mask (_channel data n) vals).

(** ** Conversions in the direction of RGB -> HUSL *)

Section Kernels.
Context (lm : Libm) (k : Constants).

(** [_lch_to_husl] *)
Definition _lch_to_husl (lch_nd : ndarray) : ndarray :=
  let lch_flat := rows_of (data lch_nd) in
  let _L := _channel lch_flat 0 in
  let C := _channel lch_flat 1 in
  let _H := _channel lch_flat 2 in
  let hsl_flat := zero_rows (length lch_flat) in
  let hsl_flat := chan_set hsl_flat 0 _H in
  let hsl_flat := chan_set hsl_flat 2 _L in
  let light := map (fun l => L_MAX <? l) _L in
  let dark := map (fun l => l <? L_MIN) _L in
  let hsl_flat := chan_fill hsl_flat 1 light 0.0 in
  let hsl_flat := chan_fill hsl_flat 2 light 100.0 in
  let hsl_flat := chan_fill hsl_flat 1 dark 0.0 in
  let hsl_flat := chan_fill hsl_flat 2 dark 0.0 in
  let remaining := map negb (zip_with orb light dark) in
  let mx := _max_lh_chroma lm k (mask_get remaining lch_flat) in
  let hsl_flat :=
    chan_put hsl_flat 1 remaining
      (map (fun x => x * 100.0) (zip_with PrimFloat.div (mask_get remaining C) mx)) in
  reshape hsl_flat (shape lch_nd).

(** The first two statements of [_luv_to_lch] on the rows of its argument:
    [uv_nd] is a view of channel 1, and every element of it that equals
    zero is overwritten with the positive zero. *)
Definition luv_neg_zero (luv_flat : list pixel) : list pixel :=
  let uv_nd := _channel luv_flat 1 in
  chan_fill luv_flat 1 (map (fun u => u =? -0.0) uv_nd) 0.0.

(** [_luv_to_lch] on the rows of an array of [rank] dimensions.  For an
    array of one dimension, a single pixel, the channels are zero-dimensional
    and [C] is computed on a scalar. *)
Definition _luv_to_lch_rows (rank : nat) (luv_flat : list pixel) : list pixel :=
  let luv_flat := luv_neg_zero luv_flat in
  let lch_flat := luv_flat in
  let L := _channel luv_flat 0 in
  let U := _channel luv_flat 1 in
  let V := _channel luv_flat 2 in
  let C := map (pow_half lm (rank =? 1)%nat)
             (zip_with PrimFloat.add (map square U) (map square V)) in
  let hrad := zip_with (arctan2 lm) V U in
  let H := map degrees hrad in
  match rank with
  | 1%nat =>
      (* [C.ndim == 0]: one pixel, the channels are scalars *)
      let H := map (fun h => if h <? 0.0 then h + 360 else h) H in
      stack3 L C H
  | _ =>
      let neg := map (fun h => h <? 0.0) H in
      let H := mask_put neg H (map (fun h => h + 360.0) (mask_get neg H)) in
      let lch_flat := chan_set lch_flat 0 L in
      let lch_flat := chan_set lch_flat 1 C in
      let lch_flat := chan_set lch_flat 2 H in
      lch_flat
  end.

Definition _luv_to_lch (luv_nd : ndarray) : ndarray :=
  reshape (_luv_to_lch_rows (length (shape luv_nd)) (rows_of (data luv_nd)))
    (shape luv_nd).

(** [_to_light] *)
Definition _to_light (y_nd : list float) : list float :=
  let y_flat := y_nd in
  let f_flat := zeros (length y_flat) in
  let gt := map (fun y => EPSILON k <? y) y_flat in
  let f_flat :=
    mask_put gt f_flat
      (map (fun y => power lm (y / REF_Y k) (1.0 / 3.0) * 116 - 16) (mask_get gt y_flat)) in
  let ngt := map negb gt in
  mask_put ngt f_flat (map (fun y => (y / REF_Y k) * KAPPA k) (mask_get ngt y_flat)).

(** The chromaticity ratios of [_xyz_to_luv] after the [isinf] mask. *)
Definition xyz_uv_var (xyz_flat : list pixel) : list float * list float :=
  let X := _channel xyz_flat 0 in
  let Y := _channel xyz_flat 1 in
  let Z := _channel xyz_flat 2 in
  let denom :=
    zip_with PrimFloat.add
      (zip_with PrimFloat.add X (map (fun y => 15 * y) Y)) (map (fun z => 3 * z) Z) in
  let U_var := zip_with PrimFloat.div (map (fun x => 4 * x) X) denom in
  let V_var := zip_with PrimFloat.div (map (fun y => 9 * y) Y) denom in
  let U_var := mask_fill (map is_infinity U_var) U_var 0 in
  let V_var := mask_fill (map is_infinity V_var) V_var 0 in
  (U_var, V_var).

(** [_xyz_to_luv] *)
Definition _xyz_to_luv (xyz_nd : ndarray) : ndarray :=
  let xyz_flat := rows_of (data xyz_nd) in
  let luv_flat := zero_rows (length xyz_flat) in
  let Y := _channel xyz_flat 1 in
  let '(U_var, V_var) := xyz_uv_var xyz_flat in
  let luv_flat := chan_set luv_flat 0 (_to_light Y) in
  let luv_flat :=
    mask_fill (map (fun l => l =? 0) (_channel luv_flat 0)) luv_flat (0, 0, 0) in
  let L := _channel luv_flat 0 in
  let luv_flat :=
    chan_set luv_flat 1
      (zip_with PrimFloat.mul (map (fun l => l * 13) L) (map (fun u => u - REF_U k) U_var)) in
  let L := _channel luv_flat 0 in
  let luv_flat :=
    chan_set luv_flat 2
      (zip_with PrimFloat.mul (map (fun l => l * 13) L) (map (fun v => v - REF_V k) V_var)) in
  let luv_flat := map (fun p => (nan_to_num (chan p 0), nan_to_num (chan p 1),
                                 nan_to_num (chan p 2))) luv_flat in
  reshape luv_flat (shape xyz_nd).

(** [_to_linear]; integer images are scaled to [0, 1] before the body runs. *)
Definition _to_linear (rgb_nd : ndarray) : ndarray :=
  let a := 0.055 in
  let rgb := data rgb_nd in
  let xyz_nd := zeros (length rgb) in
  let gt := map (fun x => 0.04045 <? x) rgb in
  let xyz_nd :=
    mask_put gt xyz_nd (map (fun x => power lm ((x + a) / (1 + a)) 2.4) (mask_get gt rgb)) in
  let ngt := map negb gt in
  let xyz_nd := mask_put ngt xyz_nd (map (fun x => x / 12.92) (mask_get ngt rgb)) in
  {| shape := shape rgb_nd; data := xyz_nd |}.

(** [np.sum(s * a, len(a.shape) - 1)] for a row [s] of scalars: the product
    is broadcast over the rows of [a], the sum runs over the last axis. *)
Definition sum_scaled (s : pixel) (a : ndarray) : ndarray :=
  {| shape := removelast (shape a);
     data := map (fun p => add_reduce lm [chan s 0 * chan p 0; chan s 1 * chan p 1;
                                          chan s 2 * chan p 2])
               (rows_of (data a)) |}.

(** [_dot_product] *)
Definition _dot_product (scalars : pixel * pixel * pixel) (rgb_nd : ndarray) : ndarray :=
  let '(s0, s1, s2) := scalars in
  let x := sum_scaled s0 rgb_nd in
  let y := sum_scaled s1 rgb_nd in
  let z := sum_scaled s2 rgb_nd in
  squeeze (dstack3 x y z).

(** [_rgb_to_xyz] *)
Definition _rgb_to_xyz (rgb_nd : ndarray) : ndarray :=
  let rgbl := _to_linear rgb_nd in
  _dot_product (M_INV k) rgbl.

(** [_rgb_to_lch] *)
Definition _rgb_to_lch (rgb : ndarray) : ndarray :=
  _luv_to_lch (_xyz_to_luv (_rgb_to_xyz rgb)).

(** [_rgb_to_husl] *)
Definition _rgb_to_husl (rgb_nd : ndarray) : ndarray :=
  _lch_to_husl (_rgb_to_lch rgb_nd).

(** [_channel(data, n)] on an array with a shape. *)
Definition channel_nd (a : ndarray) (n : nat) : ndarray :=
  {| shape := removelast (shape a); data := _channel (rows_of (data a)) n |}.

(** [_rgb_to_hue] *)
Definition _rgb_to_hue (rgb : ndarray) : ndarray :=
  let hsl := _rgb_to_husl rgb in
  channel_nd hsl 0.

(** ** Conversions in the direction of HUSL -> RGB *)

(** [_husl_to_lch] *)
Definition _husl_to_lch (husl_nd : ndarray) : ndarray :=
  let husl_flat := rows_of (data husl_nd) in
  let lch_flat := zero_rows (length husl_flat) in
  let _H := _channel husl_flat 0 in
  let S := _channel husl_flat 1 in
  let _L := _channel husl_flat 2 in
  let lch_flat := chan_set lch_flat 0 _L in
  let lch_flat := chan_set lch_flat 2 _H in
  let mx := _max_lh_chroma lm k lch_flat in
  let lch_flat :=
    chan_set lch_flat 1 (zip_with PrimFloat.mul (map (fun m => m / 100.0) mx) S) in
  let L := _channel lch_flat 0 in
  let light := map (fun l => L_MAX <? l) L in
  let dark := map (fun l => l <? L_MIN) L in
  let lch_flat := chan_fill lch_flat 0 light 100 in
  let lch_flat := chan_fill lch_flat 1 light 0 in
  let lch_flat := chan_fill lch_flat 0 dark 0 in
  let lch_flat := chan_fill lch_flat 1 dark 0 in
  reshape lch_flat (shape husl_nd).

(** [_lch_to_luv] *)
Definition _lch_to_luv (lch_nd : ndarray) : ndarray :=
  let lch := rows_of (data lch_nd) in
  let luv_nd := zero_rows (length lch) in
  let _L := _channel lch 0 in
  let C := _channel lch 1 in
  let H := _channel lch 2 in
  let hrad := map radians H in
  let luv_nd := chan_set luv_nd 1 (zip_with PrimFloat.mul (map (cos lm) hrad) C) in
  let luv_nd := chan_set luv_nd 2 (zip_with PrimFloat.mul (map (sin lm) hrad) C) in
  let luv_nd := chan_set luv_nd 0 _L in
  reshape luv_nd (shape lch_nd).

(** [_from_light] *)
Definition _from_light (l_nd : list float) : list float :=
  let large := map (fun l => 8 <? l) l_nd in
  let small := map negb large in
  let out := zeros (length l_nd) in
  let out :=
    mask_put large out
      (map (fun l => REF_Y k * power lm ((l + 16) / 116) 3.0) (mask_get large l_nd)) in
  mask_put small out (map (fun l => REF_Y k * l / KAPPA k) (mask_get small l_nd)).

(** The chromaticity ratios of [_luv_to_xyz] after the [isinf] mask. *)
Definition luv_uv_var (luv_flat : list pixel) : list float * list float :=
  let L := _channel luv_flat 0 in
  let U := _channel luv_flat 1 in
  let V := _channel luv_flat 2 in
  let L13 := map (fun l => 13.0 * l) L in
  let U_var := map (fun u => u + REF_U k) (zip_with PrimFloat.div U L13) in
  let V_var := map (fun v => v + REF_V k) (zip_with PrimFloat.div V L13) in
  let U_var := mask_fill (map is_infinity U_var) U_var 0 in
  let V_var := mask_fill (map is_infinity V_var) V_var 0 in
  (U_var, V_var).

(** [_luv_to_xyz] *)
Definition _luv_to_xyz (luv_nd : ndarray) : ndarray :=
  let luv_flat := rows_of (data luv_nd) in
  let xyz_flat := zero_rows (length luv_flat) in
  let L := _channel luv_flat 0 in
  let Y_var := _from_light L in
  let '(U_var, V_var) := luv_uv_var luv_flat in
  let xyz_flat := chan_set xyz_flat 1 (map (fun y => y * REF_Y k) Y_var) in
  let Y := _channel xyz_flat 1 in
  let xyz_flat :=
    chan_set xyz_flat 0
      (zip_with PrimFloat.div
         (map PrimFloat.opp (zip_with PrimFloat.mul (map (fun y => 9 * y) Y) U_var))
         (zip_with PrimFloat.sub
            (zip_with PrimFloat.mul (map (fun u => u - 4.0) U_var) V_var)
            (zip_with PrimFloat.mul U_var V_var))) in
  let X := _channel xyz_flat 0 in
  let xyz_flat :=
    chan_set xyz_flat 2
      (zip_with PrimFloat.div
         (zip_with PrimFloat.sub
            (zip_with PrimFloat.sub (map (fun y => 9.0 * y) Y)
               (zip_with PrimFloat.mul (map (fun v => 15.0 * v) V_var) Y))
            (zip_with PrimFloat.mul V_var X))
         (map (fun v => 3.0 * v) V_var)) in
  let xyz_flat := mask_fill (map (fun l => l =? 0) L) xyz_flat (0, 0, 0) in
  let xyz_flat := map (fun p => (nan_to_num (chan p 0), nan_to_num (chan p 1),
                                 nan_to_num (chan p 2))) xyz_flat in
  reshape xyz_flat (shape luv_nd).

(** [_from_linear] *)
Definition _from_linear (xyz_nd : ndarray) : ndarray :=
  let xyz := data xyz_nd in
  let rgb_nd := zeros (length xyz) in
  let lt := map (fun x => x <=? 0.0031308) xyz in
  let rgb_nd := mask_put lt rgb_nd (map (fun x => 12.92 * x) (mask_get lt xyz)) in
  let nlt := map negb lt in
  let rgb_nd :=
    mask_put nlt rgb_nd
      (map (fun x => 1.055 * power lm x (1 / 2.4) - 0.055) (mask_get nlt xyz)) in
  {| shape := shape xyz_nd; data := rgb_nd |}.

(** [_xyz_to_rgb] *)
Definition _xyz_to_rgb (xyz_nd : ndarray) : ndarray :=
  let xyz_dot := _dot_product (M k) xyz_nd in
  _from_linear xyz_dot.

(** [_lch_to_rgb] *)
Definition _lch_to_rgb (lch_nd : ndarray) : ndarray :=
  _xyz_to_rgb (_luv_to_xyz (_lch_to_luv lch_nd)).

(** [_husl_to_rgb] *)
Definition _husl_to_rgb (husl_nd : ndarray) : ndarray :=
  _lch_to_rgb (_husl_to_lch husl_nd).

End Kernels.

(** ** The kernels on one pixel *)

Section KernelsPx.
Context (lm : Libm) (k : Constants).

Definition lch_to_husl_px (p : pixel) : pixel :=
  let '(_L, C, _H) := p in
  let light := L_MAX <? _L in
  let dark := _L <? L_MIN in
  let S := if negb (light || dark) then C / max_chroma_px lm k _L _H * 100.0 else 0.0 in
  let L := if dark then 0.0 else if light then 100.0 else _L in
  (_H, S, L).

Definition husl_to_lch_px (p : pixel) : pixel :=
  let '(_H, Sat, _L) := p in
  let C := max_chroma_px lm k _L _H / 100.0 * Sat in
  let light := L_MAX <? _L in
  let dark := _L <? L_MIN in
  let L := if dark then 0 else if light then 100 else _L in
  let C := if dark then 0 else if light then 0 else C in
  (L, C, _H).

Definition luv_to_lch_px (scalar : bool) (p : pixel) : pixel :=
  let '(L, U, V) := p in
  let U := if U =? -0.0 then 0.0 else U in
  let C := pow_half lm scalar (square U + square V) in
  let H := degrees (arctan2 lm V U) in
  let H := if H <? 0.0 then H + 360.0 else H in
  (L, C, H).

Definition to_light_px (y : float) : float :=
  if EPSILON k <? y then power lm (y / REF_Y k) (1.0 / 3.0) * 116 - 16
  else (y / REF_Y k) * KAPPA k.

(** The masked chromaticity ratios of [_xyz_to_luv] for one pixel. *)
Definition mask_inf (q : float) : float := if is_infinity q then 0 else q.

Definition xyz_uv_var_px (p : pixel) : float * float :=
  let '(X, Y, Z) := p in
  let denom := X + 15 * Y + 3 * Z in
  (mask_inf (4 * X / denom), mask_inf (9 * Y / denom)).

Definition xyz_to_luv_px (p : pixel) : pixel :=
  let '(U_var, V_var) := xyz_uv_var_px p in
  let L := to_light_px (chan p 1) in
  let L := if L =? 0 then 0 else L in
  let U := L * 13 * (U_var - REF_U k) in
  let V := L * 13 * (V_var - REF_V k) in
  (nan_to_num L, nan_to_num U, nan_to_num V).

Definition to_linear_px (x : float) : float :=
  if 0.04045 <? x then power lm ((x + 0.055) / (1 + 0.055)) 2.4 else x / 12.92.

Definition from_linear_px (x : float) : float :=
  if x <=? 0.0031308 then 12.92 * x else 1.055 * power lm x (1 / 2.4) - 0.055.

Definition from_light_px (l : float) : float :=
  if 8 <? l then REF_Y k * power lm ((l + 16) / 116) 3.0 else REF_Y k * l / KAPPA k.

Definition lch_to_luv_px (p : pixel) : pixel :=
  let '(L, C, H) := p in
  let hrad := radians H in
  (L, cos lm hrad * C, sin lm hrad * C).

(** The masked chromaticity ratios of [_luv_to_xyz] for one pixel. *)
Definition luv_uv_var_px (p : pixel) : float * float :=
  let '(L, U, V) := p in
  let L13 := 13.0 * L in
  (mask_inf (U / L13 + REF_U k), mask_inf (V / L13 + REF_V k)).

Definition luv_to_xyz_px (p : pixel) : pixel :=
  let '(U_var, V_var) := luv_uv_var_px p in
  let L := chan p 0 in
  let Y := from_light_px L * REF_Y k in
  let X := - (9 * Y * U_var) / ((U_var - 4.0) * V_var - U_var * V_var) in
  let Z := (9.0 * Y - 15.0 * V_var * Y - V_var * X) / (3.0 * V_var) in
  if L =? 0 then (0, 0, 0) else (nan_to_num X, nan_to_num Y, nan_to_num Z).

End KernelsPx.

(** ** The matrix product and the pipelines on one pixel *)

Section PipelinePx.
Context (lm : Libm) (k : Constants).

Definition row_dot (s p : pixel) : float :=
  add_reduce lm [chan s 0 * chan p 0; chan s 1 * chan p 1; chan s 2 * chan p 2].

Definition dot_px (scalars : pixel * pixel * pixel) (p : pixel) : pixel :=
  let '(s0, s1, s2) := scalars in (row_dot s0 p, row_dot s1 p, row_dot s2 p).

Definition rgb_to_xyz_px (p : pixel) : pixel :=
  dot_px (M_INV k)
    (to_linear_px lm (chan p 0), to_linear_px lm (chan p 1), to_linear_px lm (chan p 2)).

Definition rgb_to_husl_px (scalar : bool) (p : pixel) : pixel :=
  lch_to_husl_px lm k (luv_to_lch_px lm scalar (xyz_to_luv_px lm k (rgb_to_xyz_px p))).

Definition xyz_to_rgb_px (p : pixel) : pixel :=
  let q := dot_px (M k) p in
  (from_linear_px lm (chan q 0), from_linear_px lm (chan q 1), from_linear_px lm (chan q 2)).

Definition husl_to_rgb_px (p : pixel) : pixel :=
  xyz_to_rgb_px (luv_to_xyz_px lm k (lch_to_luv_px lm (husl_to_lch_px lm k p))).

End PipelinePx.

(** ** The shape adapter and the chunked executor

    [transform.py] is not part of the sources at hand; its functions are
    modelled from the specification. *)

Inductive error : Type := ShapeError | InvalidChunkSizeError.

Inductive result (A : Type) : Type :=
  | Ok (a : A)
  | Err (e : error).
Arguments Ok {A} a.
Arguments Err {A} e.

(** An input image: its elements and whether its dtype is an integer one. *)
Record image : Type := { is_int : bool; pixels : ndarray }.

(** An array of integers, the result of [to_rgb]. *)
Record int_ndarray : Type := { ishape : list nat; idata : list Z }.

(** Modelled from the spec: [transform.rgb_float_input], which brings an
    integer RGB array to the float working range 0.0-1.0 before the kernel
    runs and leaves a float array as it is. *)
Definition rgb_float_input (int_dtype : bool) (fn : ndarray -> ndarray) (a : ndarray)
  : ndarray :=
  fn (if int_dtype then {| shape := shape a; data := map (fun x => x / 255) (data a) |}
      else a).

(** [rgb_float_input] on one row of the array. *)
Definition float_px (int_dtype : bool) (p : pixel) : pixel :=
  if int_dtype then (chan p 0 / 255, chan p 1 / 255, chan p 2 / 255) else p.

(** Modelled from the spec: [transform.in_chunks] without an output buffer.
    The rows of a canonical [(N, 3)] array are cut into consecutive slices of
    at most [chunksize] rows, the whole array being one chunk by default; the
    kernel runs once per slice and the results are assembled in order.  A
    chunk size of zero or less is an error. *)
Definition in_chunks (img : ndarray) (fn : ndarray -> ndarray) (chunksize : option Z)
  : result (list float) :=
  match chunksize with
  | None => Ok (data (fn img))
  | Some c =>
      if (c <=? 0)%Z then Err InvalidChunkSizeError
      else
        Ok (concat (map (fun chunk =>
                           data (fn {| shape := [length chunk; 3%nat];
                                       data := flat_of chunk |}))
                      (blocks (Z.to_nat c) (rows_of (data img)))))
  end.

(** Modelled from the spec: the part of the shape adapter that drops an alpha
    channel.  The last dimension of an RGB input is 3 or 4. *)
Fixpoint drop_alpha (d : list float) : list float :=
  match d with
  | r :: g :: b :: _ :: d => r :: g :: b :: drop_alpha d
  | _ => []
  end.

Definition reshape_rgba_input (a : ndarray) : result ndarray :=
  match last (shape a) with
  | Some 3%nat => Ok a
  | Some 4%nat => Ok {| shape := removelast (shape a) ++ [3%nat]; data := drop_alpha (data a) |}
  | _ => Err ShapeError
  end.

(** Modelled from the spec: the canonical [(N, 3)] layout of an array whose
    last dimension is 3. *)
Definition canonical (a : ndarray) : ndarray :=
  {| shape := [fold_right Nat.mul 1%nat (removelast (shape a)); 3%nat]; data := data a |}.

Section Api.
Context (lm : Libm) (k : Constants).
(** The conversion of one channel to an integer in 0..255 by
    [transform.rgb_int_output]; the specification leaves its rounding open. *)
Context (to_uint8 : float -> Z).

(** Modelled from the spec: [to_husl] under its three decorators: the alpha
    channel is dropped, the image is processed in chunks in the canonical
    layout, the leading dimensions are restored and the result is squeezed. *)
Definition to_husl (rgb_img : image) (chunksize : option Z) : result ndarray :=
  match reshape_rgba_input (pixels rgb_img) with
  | Err e => Err e
  | Ok a =>
      match in_chunks (canonical a)
              (rgb_float_input (is_int rgb_img) (_rgb_to_husl lm k)) chunksize with
      | Err e => Err e
      | Ok d => Ok (squeeze {| shape := shape a; data := d |})
      end
  end.

(** Modelled from the spec: [to_hue]; one hue per pixel. *)
Definition to_hue (rgb_img : image) (chunksize : option Z) : result ndarray :=
  match reshape_rgba_input (pixels rgb_img) with
  | Err e => Err e
  | Ok a =>
      match in_chunks (canonical a)
              (rgb_float_input (is_int rgb_img) (_rgb_to_hue lm k)) chunksize with
      | Err e => Err e
      | Ok d => Ok (squeeze {| shape := removelast (shape a); data := d |})
      end
  end.

(** Modelled from the spec: [to_rgb]; the last dimension of a HUSL input is
    exactly 3 and the result is an array of integers. *)
Definition to_rgb (husl_img : ndarray) (chunksize : option Z) : result int_ndarray :=
  match last (shape husl_img) with
  | Some 3%nat =>
      match in_chunks (canonical husl_img) (_husl_to_rgb lm k) chunksize with
      | Err e => Err e
      | Ok d =>
          Ok {| ishape := List.filter (fun n => negb (n =? 1)%nat) (shape husl_img);
                idata := map to_uint8 d |}
      end
  | _ => Err ShapeError
  end.

End Api.

(** A kernel that works row by row on arrays of at most three dimensions. *)
Definition rowwise (fn : ndarray -> ndarray) : Prop :=
  exists F : list pixel -> list float,
    F [] = [] /\ (forall r1 r2, F (r1 ++ r2) = F r1 ++ F r2) /\
    forall a, (length (shape a) <= 3)%nat -> data (fn a) = F (rows_of (data a)).

(** ** Concrete parameters for the examples *)

(** The constants of the reference HUSL implementation. *)
Definition husl_constants : Constants :=
  {| M := ((3.240969941904521, -1.537383177570093, -0.498610760293),
           (-0.96924363628087, 1.87596750150772, 0.041555057407175),
           (0.055630079696993, -0.20397695888897, 1.056971514242878));
     M_INV := ((0.41239079926595, 0.35758433938387, 0.18048078840183),
               (0.21263900587151, 0.71516867876775, 0.072192315360733),
               (0.019330818715591, 0.11919477979462, 0.95053215224966));
     REF_Y := 1.0;
     REF_U := 0.19783000664283;
     REF_V := 0.46831999493879;
     KAPPA := 903.2962962;
     EPSILON := 0.0088564516 |}.

(** The values of the numeric routines at the arguments the examples use,
    each the correctly rounded one: [sin] and [cos] at zero, [arctan2 y 1]
    for [y] so small that the angle rounds to [y], [arctan2] of a zero and
    the positive zero, squares and square roots,
    [pow 1 y] and [pow 17 3]; NaN stands for every other value.  [np.sum]
    adds from left to right. *)
Definition libm_table : Libm :=
  {| sin := fun x => if x =? 0 then x else nan;
     cos := fun x => if x =? 0 then 1 else nan;
     arctan2 := fun y x =>
       if (x =? 1) && (abs y <? 0x1p-60) then y
       else if (y =? 0) && (1 / x =? infinity) then y
       else nan;
     power := fun x y =>
       if y =? 2 then x * x
       else if y =? 0.5 then sqrt x
       else if x =? 1 then 1
       else if (x =? 17) && (y =? 3) then 4913
       else nan;
     add_reduce := fun l => fold_left PrimFloat.add l 0 |}.

(** The values of the GNU C library at the arguments that the integer pixel
    (10, 9, 6) brings up: [pow s 0.5] for its sum of squares [s], which is
    one unit in the last place below the correctly rounded square root of
    [s]; [arctan2], [sin], [cos] and the cube, each correctly rounded; and
    the values at zero that the black pixel brings up.  NaN stands for every
    other value; [np.sum] adds from left to right. *)
Definition libm_glibc : Libm :=
  {| sin := fun x =>
       if x =? 0x1.47f4ad1573e76p+0 then 0x1.eaa976c461095p-1
       else if x =? 0 then x else nan;
     cos := fun x =>
       if x =? 0x1.47f4ad1573e76p+0 then 0x1.248a197ed67eap-2
       else if x =? 0 then 1 else nan;
     arctan2 := fun y x =>
       if (y =? 0x1.92eeccb7ce17dp-1) && (x =? 0x1.e077dde0fc48ap-3)
       then 0x1.47f4ad1573e76p+0
       else if (y =? 0) && (1 / x =? infinity) then y
       else nan;
     power := fun x y =>
       if (x =? 0x1.59477a9aa42a1p-1) && (y =? 0.5) then 0x1.a474a5cecfb31p-1
       else if (x =? 0x1.2776c1e7c8db4p+4) && (y =? 3) then 0x1.89948d44a4505p+12
       else if (x =? 0) && (y =? 0.5) then 0
       else nan;
     add_reduce := fun l => fold_left PrimFloat.add l 0 |}.

(** The example conversion of a channel to an integer: 0..255 by truncation
    of [255 * x], zero for what is not a positive finite number. *)
Definition to_uint8_trunc (x : float) : Z :=
  match Prim2SF (255 * x) with
  | S754_finite false m e =>
      Z.min 255 (if (0 <=? e)%Z then Z.pos m * 2 ^ e else Z.pos m / 2 ^ (- e))
  | _ => 0
  end%Z.

(** ** Optimization selection *)

Module Dispatch.

(** The four tiers of implementations. *)
Inductive tier : Type := Reference | Expr | Cython | Simd.

(** A function object: the tier that provides it and its [__name__]. *)
Record fn_obj : Type := { provider : tier; fn_name : string }.

(** An optional extension module after the [try: import] block: [None] when
    the import failed, otherwise the names the module defines. *)
Definition ext_module : Type := option (gset string).

(** The module-level state of [nphusl.py]: the three extension modules, the
    three flags, the four registries and the module's own names that are
    bound to kernels. *)
Record module_state : Type := {
  expr : ext_module;
  cyth : ext_module;
  simd : ext_module;
  _NUMEXPR_ENABLED : bool;
  _CYTHON_ENABLED : bool;
  _SIMD_ENABLED : bool;
  NUMPY : gmap string fn_obj;
  NUMEXPR : gmap string fn_obj;
  CYTHON : gmap string fn_obj;
  SIMD : gmap string fn_obj;
  globals : gmap string fn_obj
}.

(** The state after the imports and lines 75-81. *)
Definition initial_state (e c s : ext_module) : module_state :=
  {| expr := e; cyth := c; simd := s;
     _NUMEXPR_ENABLED := true; _CYTHON_ENABLED := true; _SIMD_ENABLED := true;
     NUMPY := ∅; NUMEXPR := ∅; CYTHON := ∅; SIMD := ∅; globals := ∅ |}.

(** [getattr(module, name, None)] *)
Definition getattr (m : ext_module) (t : tier) (name : string) : option fn_obj :=
  match m with
  | Some names =>
      if decide (name ∈ names) then Some {| provider := t; fn_name := name |} else None
  | None => None
  end.

(** [a or b] on values that are a function or [None]. *)
Definition py_or (a b : option fn_obj) : option fn_obj :=
  match a with Some _ => a | None => b end.

(** [if f: registry[name] = f] *)
Definition register (f : option fn_obj) (name : string) (registry : gmap string fn_obj)
  : gmap string fn_obj :=
  match f with Some f => <[name := f]> registry | None => registry end.

(** [optimized]: the state after the call and the function it returns. *)
Definition optimized (st : module_state) (fn : fn_obj) : module_state * fn_obj :=
  let name := fn_name fn in
  let numpy := <[name := fn]> (NUMPY st) in
  let expr_fn := if _NUMEXPR_ENABLED st then getattr (expr st) Expr name else None in
  let cython_fn := if _CYTHON_ENABLED st then getattr (cyth st) Cython name else None in
  let simd_fn := if _SIMD_ENABLED st then getattr (simd st) Simd name else None in
  let opt_fn := py_or (py_or simd_fn cython_fn) expr_fn in
  let result_fn := match opt_fn with Some f => f | None => fn end in
  ({| expr := expr st; cyth := cyth st; simd := simd st;
      _NUMEXPR_ENABLED := _NUMEXPR_ENABLED st;
      _CYTHON_ENABLED := _CYTHON_ENABLED st;
      _SIMD_ENABLED := _SIMD_ENABLED st;
      NUMPY := numpy;
      NUMEXPR := register expr_fn name (NUMEXPR st);
      CYTHON := register cython_fn name (CYTHON st);
      SIMD := register simd_fn name (SIMD st);
      globals := globals st |},
   result_fn).

(** [@optimized def name(...)]: the decorator runs when the definition is
    executed and the module's name is bound to what it returns. *)
Definition define (st : module_state) (name : string) : module_state :=
  let '(st, result_fn) := optimized st {| provider := Reference; fn_name := name |} in
  {| expr := expr st; cyth := cyth st; simd := simd st;
     _NUMEXPR_ENABLED := _NUMEXPR_ENABLED st;
     _CYTHON_ENABLED := _CYTHON_ENABLED st;
     _SIMD_ENABLED := _SIMD_ENABLED st;
     NUMPY := NUMPY st; NUMEXPR := NUMEXPR st; CYTHON := CYTHON st; SIMD := SIMD st;
     globals := <[name := result_fn]> (globals st) |}.

(** Assignments to the three flags. *)
Definition set_enabled (numexpr cython simd_ : bool) (st : module_state) : module_state :=
  {| expr := expr st; cyth := cyth st; simd := simd st;
     _NUMEXPR_ENABLED := numexpr; _CYTHON_ENABLED := cython; _SIMD_ENABLED := simd_;
     NUMPY := NUMPY st; NUMEXPR := NUMEXPR st; CYTHON := CYTHON st; SIMD := SIMD st;
     globals := globals st |}.

(** A call [name(...)] from the module's code: the function the name is bound
    to when the call is made. *)
Definition called (st : module_state) (name : string) : option fn_obj :=
  globals st !! name.

(** The claim's wording of the choice: the first tier, in the order SIMD,
    compiled, expression-vectorized, reference, that is available for the
    name and enabled in the given state. *)
Definition enabled (st : module_state) (t : tier) : bool :=
  match t with
  | Reference => true
  | Expr => _NUMEXPR_ENABLED st
  | Cython => _CYTHON_ENABLED st
  | Simd => _SIMD_ENABLED st
  end.

Definition available (st : module_state) (t : tier) (name : string) : bool :=
  match t with
  | Reference => true
  | Expr => bool_decide (is_Some (getattr (expr st) Expr name))
  | Cython => bool_decide (is_Some (getattr (cyth st) Cython name))
  | Simd => bool_decide (is_Some (getattr (simd st) Simd name))
  end.

Definition preferred (st : module_state) (name : string) : fn_obj :=
  {| provider :=
       List.hd Reference
         (List.filter (fun t => enabled st t && available st t name)
            [Simd; Cython; Expr; Reference]);
     fn_name := name |}.

End Dispatch.

(** ** Arrays in memory: the write of [_luv_to_lch] into its argument *)

Module Memory.

(** The buffers of the arrays that are alive, by address. *)
Abbreviation store := (gmap positive (list float)).

(** An [ndarray] object: the buffer it views and its shape.  A view made by
    basic indexing or by [reshape] has the base of the array it was made
    from. *)
Record array_ref : Type := { base : positive; ashape : list nat }.

(** [_luv_to_lch] as it acts on memory.  [uv_nd] is a view of channel 1 of
    [luv_nd], so the masked assignment to it writes into the buffer of the
    argument; [luv_nd.copy()] then allocates the buffer of the result, which
    the remaining statements fill. *)
Definition _luv_to_lch (lm : Libm) (luv_nd : array_ref) (m : store)
  : option (array_ref * store) :=
  match m !! base luv_nd with
  | None => None
  | Some buf =>
      let m := <[base luv_nd := flat_of (luv_neg_zero (rows_of buf))]> m in
      let lch := fresh (dom m) in
      let rows := _luv_to_lch_rows lm (length (ashape luv_nd)) (rows_of buf) in
      Some ({| base := lch; ashape := ashape luv_nd |}, <[lch := flat_of rows]> m)
  end.

End Memory.

(** ** Binary64 values between zero and 360 *)

Module Add360.
Local Open Scope Z_scope.

(** The mantissa of 360 at the exponent -44. *)
Definition m360 : Z := 6333186975989760.

(** A float that is the positive zero or a positive float of at most 360. *)
Definition below_360 (R : spec_float) : Prop :=
  R = S754_zero false \/
  exists m e, R = S754_finite false m e /\ (e < -44 \/ (e = -44 /\ Z.pos m <= m360)).

End Add360.

(** ** Notions used to state further properties *)

(** The two masked assignments to the lightness channel in [_lch_to_husl]
    and [_husl_to_lch], on one value: zero below [L_MIN], 100 above
    [L_MAX]. *)
Definition lightness_extremes (l : float) : float :=
  if l <? L_MIN then 0 else if L_MAX <? l then 100 else l.

(** A binary64 that is not below zero: a zero of either sign, a positive
    number, the positive infinity or NaN. *)
Definition sf_not_negative (X : spec_float) : bool :=
  match X with
  | S754_finite true _ _ | S754_infinity true => false
  | _ => true
  end.

(** A value that is a zero of either sign or NaN. *)
Definition zero_or_nan (x : float) : Prop := (x =? 0) = true \/ is_nan x = true.

(** ** The module body: the decorated definitions in sequence *)

Module DispatchRun.
Import Dispatch.

(** The decorated definitions of the module body, executed in order. *)
Definition define_all (st : module_state) (names : list string) : module_state :=
  fold_left define names st.

(** The registry of a tier. *)
Definition registry (st : module_state) (t : tier) : gmap string fn_obj :=
  match t with
  | Reference => NUMPY st
  | Expr => NUMEXPR st
  | Cython => CYTHON st
  | Simd => SIMD st
  end.

End DispatchRun.

(** ** The build script [setup.py] *)

Module Setup.
Local Open Scope string_scope.
Local Open Scope list_scope.

(** [l.remove(x)]: the first occurrence of [x] is taken out.  Python raises
    [ValueError] when there is none; the script only calls it after
    [x in l]. *)
Fixpoint list_remove (x : string) (l : list string) : list string :=
  match l with
  | [] => []
  | y :: l => if decide (x = y) then l else y :: list_remove x l
  end.

(** A [setuptools.Extension] as the script builds it. *)
Record Extension : Type := {
  ext_name : string;
  sources : list string;
  extra_compile_args : list string;
  include_dirs : list string;
  extra_link_args : list string
}.

Definition cython_compile_args : list string := ["-fopenmp"; "-O3"; "-ffast-math"].

Definition simd_compile_args : list string :=
  ["-DUSE_SEGMENTED_LIGHT_LUT"; "-ftree-vectorize"; "-ftree-vectorizer-verbose=8"]
  ++ cython_compile_args.

(** The state of the script before the call of [setup]: the command line
    that is left for setuptools, the extensions to build and whether they
    are passed through [cythonize]. *)
Record script_state : Type := {
  argv_left : list string;
  extensions : list Extension;
  cythonized : bool
}.

(** Lines 6-15 and 76-111 of [setup.py]. *)
Definition script (argv : list string) : script_state :=
  let CYTHONIZE := bool_decide ("--cythonize" ∈ argv) in
  let NO_CYTHON_EXT := bool_decide ("--no-cython-ext" ∈ argv) in
  let NO_SIMD_EXT := bool_decide ("--no-simd-ext" ∈ argv) in
  let argv := if CYTHONIZE then list_remove "--cythonize" argv else argv in
  let argv := if NO_SIMD_EXT then list_remove "--no-simd-ext" argv else argv in
  let argv := if NO_CYTHON_EXT then list_remove "--no-cython-ext" argv else argv in
  let ext := if CYTHONIZE then ".pyx" else ".c" in
  let extensions := [] in
  let cython_ext :=
    {| ext_name := "nphusl._cython_opt";
       sources := ["nphusl/_cython_opt" +:+ ext];
       extra_compile_args := cython_compile_args;
       include_dirs := [];
       extra_link_args := ["-fopenmp"] |} in
  let simd_ext :=
    {| ext_name := "nphusl._simd_opt";
       sources := ["nphusl/_simd_opt" +:+ ext; "nphusl/_simd.c"; "nphusl/_linear_lookup.c";
                   "nphusl/_scale_const.c"; "nphusl/_light_lookup.c";
                   "nphusl/_chroma_lookup.c"];
       extra_compile_args := simd_compile_args;
       include_dirs := ["nphusl/"];
       extra_link_args := ["-fopenmp"] |} in
  let extensions := if negb NO_CYTHON_EXT then extensions ++ [cython_ext] else extensions in
  let extensions := if negb NO_SIMD_EXT then extensions ++ [simd_ext] else extensions in
  {| argv_left := argv; extensions := extensions; cythonized := CYTHONIZE |}.

(** The three options of the script. *)
Definition options : list string := ["--cythonize"; "--no-simd-ext"; "--no-cython-ext"].

(** How often [x] occurs in [l]. *)
Definition occurrences (x : string) (l : list string) : nat :=
  length (List.filter (fun a => bool_decide (a = x)) l).

End Setup.

(** * Part II: the properties *)

(** ** Order facts on binary64 *)

Module FloatOrderFacts.
Import FloatOrder.

Lemma SFcompare_swap a b : SFcompare b a = sf_opp (SFcompare a b).
Proof.
  destruct a as [sa| sa | |sa ma ea], b as [sb|sb| |sb mb eb]; simpl;
    try reflexivity; try (destruct sa; reflexivity); try (destruct sb; reflexivity);
    try (destruct sa, sb; reflexivity).
  change (Pos.compare_cont Eq ?x ?y) with (Pos.compare x y).
  rewrite (Z.compare_antisym ea eb), (Pos.compare_antisym ma mb).
  destruct sa, sb; simpl; try reflexivity;
   destruct (ea ?= eb)%Z; simpl; try reflexivity;
   destruct (ma ?= mb)%positive; reflexivity.
Qed.

Lemma SFcompare_trans a b c :
  sf_le (SFcompare a b) = true -> sf_le (SFcompare b c) = true ->
  sf_le (SFcompare a c) = true.
Proof.
  destruct a as [sa| sa | |sa ma ea], b as [sb|sb| |sb mb eb], c as [sc|sc| |sc mc ec];
    simpl; try discriminate; try reflexivity;
    try (destruct sa; simpl; try discriminate; try reflexivity);
    try (destruct sb; simpl; try discriminate; try reflexivity);
    try (destruct sc; simpl; try discriminate; try reflexivity).
  all: change (Pos.compare_cont Eq ?x ?y) with (Pos.compare x y).
  all: destruct (Z.compare_spec ea eb), (Z.compare_spec eb ec), (Z.compare_spec ea ec);
    simpl; try discriminate; try reflexivity; try lia; subst.
  all: destruct (Pos.compare_spec ma mb), (Pos.compare_spec mb mc), (Pos.compare_spec ma mc);
    simpl; try discriminate; try reflexivity; try lia.
Qed.

Lemma SFcompare_refl a : SFcompare a a = None \/ SFcompare a a = Some Eq.
Proof.
  destruct a as [s|s| |s m e]; simpl; auto; try (destruct s; auto).
  all: change (Pos.compare_cont Eq ?x ?y) with (Pos.compare x y).
  all: rewrite Z.compare_refl, Pos.compare_refl; auto.
Qed.

Lemma SFcompare_None a b :
  SFcompare a b = None -> SFcompare a a = None \/ SFcompare b b = None.
Proof.
  destruct a as [s|s| |s m e], b as [s'|s'| |s' m' e']; simpl; auto; discriminate.
Qed.

Lemma leb_cmp x y : (x <=? y) = sf_le (SFcompare (Prim2SF x) (Prim2SF y)).
Proof. rewrite leb_spec. reflexivity. Qed.

Lemma is_nan_cmp x :
  is_nan x = false <-> SFcompare (Prim2SF x) (Prim2SF x) = Some Eq.
Proof.
  unfold is_nan. rewrite FloatAxioms.eqb_spec. unfold SFeqb.
  destruct (SFcompare_refl (Prim2SF x)) as [H|H]; rewrite H; simpl;
    split; congruence.
Qed.

Lemma leb_trans x y z : (x <=? y) = true -> (y <=? z) = true -> (x <=? z) = true.
Proof. rewrite !leb_cmp. apply SFcompare_trans. Qed.

Lemma leb_refl x : is_nan x = false -> (x <=? x) = true.
Proof. rewrite leb_cmp. intros H%is_nan_cmp. rewrite H. reflexivity. Qed.

Lemma ltb_leb x y : (x <? y) = true -> (x <=? y) = true.
Proof.
  rewrite ltb_spec, leb_spec. unfold SFltb, SFleb.
  destruct (SFcompare _ _) as [[]|]; congruence.
Qed.

Lemma leb_total x y :
  is_nan x = false -> is_nan y = false -> (x <=? y) = false -> (y <=? x) = true.
Proof.
  rewrite !leb_cmp. intros Hx%is_nan_cmp Hy%is_nan_cmp.
  rewrite (SFcompare_swap (Prim2SF x) (Prim2SF y)).
  destruct (SFcompare (Prim2SF x) (Prim2SF y)) as [[]|] eqn:E; simpl; try congruence.
  apply SFcompare_None in E. destruct E; congruence.
Qed.

Lemma not_ltb_leb x y :
  is_nan x = false -> is_nan y = false -> (x <? y) = false -> (y <=? x) = true.
Proof.
  rewrite ltb_spec, leb_cmp. unfold SFltb. intros Hx%is_nan_cmp Hy%is_nan_cmp.
  rewrite (SFcompare_swap (Prim2SF x) (Prim2SF y)).
  destruct (SFcompare (Prim2SF x) (Prim2SF y)) as [[]|] eqn:E; simpl; try congruence.
  apply SFcompare_None in E. destruct E; congruence.
Qed.

Lemma leb_not_nan x y : (x <=? y) = true -> is_nan x = false /\ is_nan y = false.
Proof.
  rewrite leb_cmp. rewrite !is_nan_cmp.
  destruct (SFcompare (Prim2SF x) (Prim2SF y)) as [c|] eqn:E; simpl; try discriminate.
  intros _.
  destruct (SFcompare_refl (Prim2SF x)) as [Hx|Hx], (SFcompare_refl (Prim2SF y)) as [Hy|Hy];
    auto; exfalso;
    destruct (Prim2SF x) as [s|s| |s m e], (Prim2SF y) as [s'|s'| |s' m' e'];
    simpl in *; try discriminate;
    try (destruct s; discriminate); try (destruct s'; discriminate).
Qed.

Lemma ltb_not_nan x y : (x <? y) = true -> is_nan x = false /\ is_nan y = false.
Proof. intros H. apply leb_not_nan, ltb_leb, H. Qed.

End FloatOrderFacts.

(** ** Arrays computed from a common index list

    Every array of a kernel is computed element by element from the rows of
    its input; these lemmas bring the masked reads and writes back to one
    [map] over the rows. *)

Section ArrayLemmas.
Context {X A : Type}.
Implicit Types (l : list X) (p : X -> bool) (f g : X -> A).

Lemma mask_get_map l p f :
  mask_get (map p l) (map f l) = map f (List.filter p l).
Proof.
  induction l as [|x l IH]; simpl; [reflexivity|].
  destruct (p x); simpl; rewrite IH; reflexivity.
Qed.

Lemma mask_put_map l p f g :
  mask_put (map p l) (map f l) (map g (List.filter p l))
  = map (fun x => if p x then g x else f x) l.
Proof.
  induction l as [|x l IH]; simpl; [reflexivity|].
  destruct (p x); simpl; rewrite IH; reflexivity.
Qed.

Lemma mask_fill_map l p f v :
  mask_fill (map p l) (map f l) v = map (fun x => if p x then v else f x) l.
Proof.
  induction l as [|x l IH]; simpl; [reflexivity|].
  rewrite IH. reflexivity.
Qed.

Lemma repeat_map l (v : A) : repeat v (length l) = map (fun _ => v) l.
Proof. induction l; simpl; congruence. Qed.

End ArrayLemmas.

Lemma zip_with_map {X A B C} (h : A -> B -> C) (f : X -> A) (g : X -> B) l :
  zip_with h (map f l) (map g l) = map (fun x => h (f x) (g x)) l.
Proof. induction l; simpl; congruence. Qed.

Lemma zip_with_base {X B C} (h : X -> B -> C) (g : X -> B) l :
  zip_with h l (map g l) = map (fun x => h x (g x)) l.
Proof. induction l; simpl; congruence. Qed.

Lemma stack3_map {X} (f g h : X -> float) l :
  stack3 (map f l) (map g l) (map h l) = map (fun x => (f x, g x, h x)) l.
Proof. induction l; simpl; unfold stack3 in *; simpl; congruence. Qed.

Lemma mask_get_base {X} (l : list X) p : mask_get (map p l) l = List.filter p l.
Proof.
  induction l as [|x l IH]; simpl; [reflexivity|].
  destruct (p x); simpl; rewrite IH; reflexivity.
Qed.

Lemma map_chan_id (l : list pixel) :
  map (fun p => (chan p 0, chan p 1, chan p 2)) l = l.
Proof.
  induction l as [|[[a b] c] l IH]; simpl; [reflexivity|]. rewrite IH. reflexivity.
Qed.

(** Rewriting a kernel body to one [map]. *)
Ltac pointwise :=
  repeat first
    [ rewrite map_map
    | rewrite mask_get_map
    | rewrite mask_get_base
    | rewrite mask_put_map
    | rewrite mask_fill_map
    | rewrite zip_with_map
    | rewrite zip_with_base
    | rewrite stack3_map
    | rewrite repeat_map
    | rewrite length_map ].

(** ** The boundary lines on one lightness *)

Section SolverFacts.
Context (lm : Libm) (k : Constants).

Lemma _bounds_sub_px l_nd : _bounds_sub lm k l_nd = map (sub_px lm k) l_nd.
Proof.
  unfold _bounds_sub.
  pointwise. reflexivity.
Qed.

Lemma _bounds_px {X} (f : X -> float) (rows : list X) :
  _bounds lm k (map f rows)
  = map (fun v => (map (fun x => (line_px lm k v.1 v.2 (f x)).1) rows,
                   map (fun x => (line_px lm k v.1 v.2 (f x)).2) rows))
      (line_variants k).
Proof.
  unfold _bounds, line_variants.
  rewrite _bounds_sub_px.
  induction (stack3 (TOP1_SCALAR k) (TOP2_SCALAR k) (BOTTOM_SCALAR k))
    as [|[[t1 t2] b] cs IH]; [reflexivity|].
  cbn [flat_map map app fst snd] in IH |- *. rewrite IH. clear IH.
  f_equal; [|f_equal]; pointwise; reflexivity.
Qed.

Lemma line_variants_length : length (line_variants k) = 6%nat.
Proof.
  unfold line_variants, TOP1_SCALAR, TOP2_SCALAR, BOTTOM_SCALAR, M1, M2, M3.
  destruct (M k) as [[r0 r1] r2]. reflexivity.
Qed.

End SolverFacts.

(** ** The running minimum *)

Lemma fold_left_map' {A B C} (f : A -> C -> A) (h : B -> C) l a :
  fold_left f (map h l) a = fold_left (fun a x => f a (h x)) l a.
Proof. revert a. induction l; simpl; auto. Qed.

Lemma Prim2SF_nan_is_nan x : Prim2SF x = S754_nan -> is_nan x = true.
Proof.
  intros E. destruct (is_nan x) eqn:N; [reflexivity|].
  apply FloatOrderFacts.is_nan_cmp in N. rewrite E in N. discriminate.
Qed.

Lemma leb_infinity x : is_nan x = false -> (x <=? infinity) = true.
Proof.
  intros N. rewrite FloatOrderFacts.leb_cmp.
  change (Prim2SF infinity) with (S754_infinity false).
  destruct (Prim2SF x) as [s|s| |s m e] eqn:E; simpl; try (destruct s; reflexivity).
  apply Prim2SF_nan_is_nan in E. congruence.
Qed.

Lemma exclude_not_nan x : is_nan (exclude x) = false.
Proof.
  unfold exclude. destruct (is_nan x) eqn:N; [reflexivity|].
  destruct (x <? 0); [reflexivity|exact N].
Qed.

Lemma exclude_nonneg x : (0 <=? exclude x) = true.
Proof.
  unfold exclude. destruct (is_nan x) eqn:N; [reflexivity|].
  destruct (x <? 0) eqn:E; [reflexivity|].
  apply FloatOrderFacts.not_ltb_leb; auto.
Qed.

Lemma np_minimum_spec a b :
  is_nan a = false -> is_nan b = false ->
  let r := np_minimum a b in
  (r = a \/ r = b) /\ (r <=? a) = true /\ (r <=? b) = true /\ is_nan r = false.
Proof.
  intros Na Nb. unfold np_minimum. rewrite Na.
  destruct (a <? b) eqn:E; cbn zeta.
  - split; [left; reflexivity|]. split; [apply FloatOrderFacts.leb_refl, Na|].
    split; [apply FloatOrderFacts.ltb_leb, E|exact Na].
  - split; [right; reflexivity|].
    split; [apply FloatOrderFacts.not_ltb_leb; assumption|].
    split; [apply FloatOrderFacts.leb_refl, Nb|exact Nb].
Qed.

Lemma leb_infinity_eq x : (infinity <=? x) = true -> x = infinity.
Proof.
  rewrite leb_spec. change (Prim2SF infinity) with (S754_infinity false).
  intros H. apply Prim2SF_inj. change (Prim2SF infinity) with (S754_infinity false).
  destruct (Prim2SF x) as [s|[|]| |s m e]; try discriminate H; reflexivity.
Qed.

Lemma running_minimum cands :
  Forall (fun x => is_nan x = false) cands ->
  forall init, is_nan init = false ->
  let r := fold_left (fun acc len => np_minimum len acc) cands init in
  is_nan r = false /\ (r <=? init) = true /\
  (r = init \/ In r cands) /\ forall x, In x cands -> (r <=? x) = true.
Proof.
  induction 1 as [|c cands Nc Hc IH]; intros init Ni; simpl.
  - split; [exact Ni|]. split; [apply FloatOrderFacts.leb_refl, Ni|].
    split; [left; reflexivity|]. intros x [].
  - destruct (np_minimum_spec c init Nc Ni) as (Hr & Hle_c & Hle_i & Nr).
    destruct (IH _ Nr) as (N & Hle & Hin & Hall). clear IH.
    split; [exact N|]. split; [|split].
    + eapply FloatOrderFacts.leb_trans; eauto.
    + destruct Hin as [->|Hin]; auto. destruct Hr as [->| ->]; auto.
    + intros x [<-|Hx]; auto. eapply FloatOrderFacts.leb_trans; eauto.
Qed.

Section SolverMinimum.
Context (lm : Libm) (k : Constants).

Lemma candidates_length L H : length (candidates lm k L H) = 6%nat.
Proof.
  unfold candidates, bounds_px. rewrite !length_map. apply line_variants_length.
Qed.

Lemma candidates_not_nan L H :
  Forall (fun x => is_nan x = false) (candidates lm k L H).
Proof.
  unfold candidates. apply List.Forall_forall. intros x Hx.
  apply in_map_iff in Hx as (ln & <- & _). apply exclude_not_nan.
Qed.

Lemma max_chroma_px_minimum L H :
  is_minimum (max_chroma_px lm k L H) (candidates lm k L H).
Proof.
  unfold max_chroma_px.
  pose proof (candidates_length L H) as Hlen.
  pose proof (candidates_not_nan L H) as Hnn.
  destruct (candidates lm k L H) as [|c cands]; [discriminate|].
  destruct (running_minimum (c :: cands) Hnn infinity eq_refl) as (_ & _ & Hin & Hall).
  split; [|exact Hall].
  destruct Hin as [E|Hin]; [|exact Hin].
  pose proof (Hall c (or_introl eq_refl)) as Hc. rewrite E in Hc |- *.
  left. apply leb_infinity_eq, Hc.
Qed.

Lemma max_chroma_px_nonneg L H : (0 <=? max_chroma_px lm k L H) = true.
Proof.
  destruct (max_chroma_px_minimum L H) as [Hin _].
  unfold candidates in Hin. apply in_map_iff in Hin as (ln & <- & _).
  apply exclude_nonneg.
Qed.

Lemma fold_lines {X V} (rows : list X) (th : X -> float) (ln : V -> X -> float * float)
    (vs : list V) (g : X -> float) :
  fold_left (fun lengths line =>
      let lens := _ray_length lm (map th rows) line in
      let lens := mask_fill (map is_nan lens) lens infinity in
      let lens := mask_fill (map (fun x => x <? 0) lens) lens infinity in
      zip_with np_minimum lens lengths)
    (map (fun v => (map (fun x => (ln v x).1) rows, map (fun x => (ln v x).2) rows)) vs)
    (map g rows)
  = map (fun x =>
      fold_left (fun acc v => np_minimum (exclude (ray_length_px lm (th x) (ln v x))) acc)
        vs (g x)) rows.
Proof.
  set (F := fun (lengths : list float) (line : list float * list float) => _).
  revert g. induction vs as [|v vs IH]; intros g; [reflexivity|].
  cbn [map fold_left].
  replace (F (map g rows) _)
    with (map (fun x => np_minimum (exclude (ray_length_px lm (th x) (ln v x))) (g x)) rows).
  { rewrite IH. reflexivity. }
  unfold F, _ray_length. pointwise. apply map_ext. intros x.
  unfold exclude, ray_length_px. destruct (ln v x) as [m b]. cbn [fst snd].
  destruct (is_nan _); reflexivity.
Qed.

Lemma _max_lh_chroma_px lch :
  _max_lh_chroma lm k lch
  = map (fun p => max_chroma_px lm k (chan p 0) (chan p 2)) lch.
Proof.
  unfold _max_lh_chroma, _channel. rewrite _bounds_px. pointwise.
  rewrite (fold_lines lch (fun p => chan p 2 / 360.0 * _2pi)
             (fun v p => line_px lm k v.1 v.2 (chan p 0))).
  apply map_ext. intros p. unfold max_chroma_px, candidates, bounds_px.
  rewrite !fold_left_map'. reflexivity.
Qed.

End SolverMinimum.

(** ** The kernels on one pixel *)

Lemma rows_of_flat_of rows : rows_of (flat_of rows) = rows.
Proof.
  induction rows as [|[[a b] c] rows IH]; [reflexivity|].
  cbn [flat_of flat_map app chan rows_of]. fold (flat_of rows). rewrite IH. reflexivity.
Qed.

Lemma flat_of_app r1 r2 : flat_of (r1 ++ r2) = flat_of r1 ++ flat_of r2.
Proof. unfold flat_of. apply flat_map_app. Qed.

Lemma flat_of_length rows : length (flat_of rows) = (3 * length rows)%nat.
Proof. induction rows as [|p rows IH]; simpl; [reflexivity|]. rewrite IH. lia. Qed.

Section KernelsPxFacts.
Context (lm : Libm) (k : Constants).

Lemma _lch_to_husl_px lch_nd :
  _lch_to_husl lm k lch_nd
  = reshape (map (lch_to_husl_px lm k) (rows_of (data lch_nd))) (shape lch_nd).
Proof.
  unfold _lch_to_husl. f_equal.
  generalize (rows_of (data lch_nd)) as rows. intros rows.
  unfold chan_put, chan_fill, chan_set, _channel, zero_rows.
  pointwise. rewrite _max_lh_chroma_px. pointwise.
  apply map_ext. intros [[L C] H]. cbn.
  destruct (_ <? L), (L <? _); reflexivity.
Qed.

Lemma _husl_to_lch_px husl_nd :
  _husl_to_lch lm k husl_nd
  = reshape (map (husl_to_lch_px lm k) (rows_of (data husl_nd))) (shape husl_nd).
Proof.
  unfold _husl_to_lch. f_equal.
  generalize (rows_of (data husl_nd)) as rows. intros rows.
  unfold chan_put, chan_fill, chan_set, _channel, zero_rows.
  pointwise. rewrite _max_lh_chroma_px. pointwise.
  apply map_ext. intros [[H Sat] L]. cbn.
  destruct (_ <? L), (L <? _); reflexivity.
Qed.

Lemma _luv_to_lch_rows_px rank rows :
  _luv_to_lch_rows lm rank rows = map (luv_to_lch_px lm (rank =? 1)%nat) rows.
Proof.
  unfold _luv_to_lch_rows, luv_neg_zero, chan_fill, chan_set, _channel.
  destruct rank as [|[|rank]]; pointwise; apply map_ext; intros [[L U] V]; reflexivity.
Qed.

Lemma _luv_to_lch_px luv_nd :
  _luv_to_lch lm luv_nd
  = reshape (map (luv_to_lch_px lm (length (shape luv_nd) =? 1)%nat) (rows_of (data luv_nd)))
      (shape luv_nd).
Proof. unfold _luv_to_lch. rewrite _luv_to_lch_rows_px. reflexivity. Qed.

Lemma _to_light_px y_nd : _to_light lm k y_nd = map (to_light_px lm k) y_nd.
Proof.
  unfold _to_light, zeros. pointwise. apply map_ext. intros y.
  unfold to_light_px. destruct (EPSILON k <? y); reflexivity.
Qed.

Lemma xyz_uv_var_rows rows :
  xyz_uv_var rows = (map (fun p => (xyz_uv_var_px p).1) rows,
                     map (fun p => (xyz_uv_var_px p).2) rows).
Proof.
  unfold xyz_uv_var, _channel. pointwise.
  f_equal; apply map_ext; intros [[X Y] Z]; reflexivity.
Qed.

Lemma _xyz_to_luv_px xyz_nd :
  _xyz_to_luv lm k xyz_nd
  = reshape (map (xyz_to_luv_px lm k) (rows_of (data xyz_nd))) (shape xyz_nd).
Proof.
  unfold _xyz_to_luv. rewrite xyz_uv_var_rows. f_equal.
  generalize (rows_of (data xyz_nd)) as rows. intros rows.
  rewrite _to_light_px.
  unfold chan_set, _channel, zero_rows. pointwise.
  apply map_ext. intros [[X Y] Z]. unfold xyz_to_luv_px.
  cbn [chan set_chan fst snd]. destruct (xyz_uv_var_px (X, Y, Z)) as [u v].
  cbn [fst snd]. destruct (to_light_px lm k Y =? 0); reflexivity.
Qed.

Lemma _to_linear_px rgb_nd :
  _to_linear lm rgb_nd
  = {| shape := shape rgb_nd; data := map (to_linear_px lm) (data rgb_nd) |}.
Proof.
  unfold _to_linear, zeros. f_equal. pointwise. apply map_ext. intros x.
  unfold to_linear_px. destruct (0.04045 <? x); reflexivity.
Qed.

Lemma _from_linear_px xyz_nd :
  _from_linear lm xyz_nd
  = {| shape := shape xyz_nd; data := map (from_linear_px lm) (data xyz_nd) |}.
Proof.
  unfold _from_linear, zeros. f_equal. pointwise. apply map_ext. intros x.
  unfold from_linear_px. destruct (x <=? 0.0031308); reflexivity.
Qed.

Lemma _from_light_px l_nd : _from_light lm k l_nd = map (from_light_px lm k) l_nd.
Proof.
  unfold _from_light, zeros. pointwise. apply map_ext. intros l.
  unfold from_light_px. destruct (8 <? l); reflexivity.
Qed.

Lemma _lch_to_luv_px lch_nd :
  _lch_to_luv lm lch_nd
  = reshape (map (lch_to_luv_px lm) (rows_of (data lch_nd))) (shape lch_nd).
Proof.
  unfold _lch_to_luv. f_equal.
  generalize (rows_of (data lch_nd)) as rows. intros rows.
  unfold chan_set, _channel, zero_rows. pointwise.
  apply map_ext. intros [[L C] H]. reflexivity.
Qed.

Lemma luv_uv_var_rows rows :
  luv_uv_var k rows = (map (fun p => (luv_uv_var_px k p).1) rows,
                       map (fun p => (luv_uv_var_px k p).2) rows).
Proof.
  unfold luv_uv_var, _channel. pointwise.
  f_equal; apply map_ext; intros [[L U] V]; reflexivity.
Qed.

Lemma _luv_to_xyz_px luv_nd :
  _luv_to_xyz lm k luv_nd
  = reshape (map (luv_to_xyz_px lm k) (rows_of (data luv_nd))) (shape luv_nd).
Proof.
  unfold _luv_to_xyz. rewrite luv_uv_var_rows. f_equal.
  generalize (rows_of (data luv_nd)) as rows. intros rows.
  rewrite _from_light_px.
  unfold chan_set, _channel, zero_rows. pointwise.
  apply map_ext. intros [[L U] V]. unfold luv_to_xyz_px.
  cbn [chan set_chan fst snd]. destruct (luv_uv_var_px k (L, U, V)) as [u v].
  cbn [fst snd]. destruct (L =? 0); reflexivity.
Qed.

End KernelsPxFacts.

(** ** The matrix product and the pipelines on one pixel *)

Lemma blocks_fuel_1 {A} (l : list A) fuel :
  (length l <= fuel)%nat -> blocks_fuel fuel 1 l = map (fun x => [x]) l.
Proof.
  revert l. induction fuel as [|fuel IH]; intros [|x l] Hl; simpl in *;
    try reflexivity; try lia.
  rewrite take_0, drop_0. rewrite IH by lia. reflexivity.
Qed.

Lemma blocks_1 {A} (l : list A) : blocks 1 l = map (fun x => [x]) l.
Proof. apply blocks_fuel_1. lia. Qed.

Lemma blocks_fuel_concat {A} (n : nat) (l : list A) fuel :
  (1 <= n)%nat -> (length l <= fuel)%nat -> concat (blocks_fuel fuel n l) = l.
Proof.
  intros Hn. revert l. induction fuel as [|fuel IH]; intros [|x l] Hl; simpl in *;
    try reflexivity; try lia.
  destruct n as [|n]; [lia|]. cbn [take drop concat].
  rewrite IH.
  - cbn [app]. rewrite take_drop. reflexivity.
  - rewrite length_drop. lia.
Qed.

Lemma blocks_concat {A} (n : nat) (l : list A) :
  (1 <= n)%nat -> concat (blocks n l) = l.
Proof. intros Hn. apply blocks_fuel_concat; [exact Hn|lia]. Qed.

Lemma rows_of_map (f : float -> float) d :
  rows_of (map f d) = map (fun p => (f (chan p 0), f (chan p 1), f (chan p 2))) (rows_of d).
Proof.
  assert (H : forall n d, (length d <= n)%nat ->
    rows_of (map f d)
    = map (fun p => (f (chan p 0), f (chan p 1), f (chan p 2))) (rows_of d)).
  { clear d. induction n as [|n IH]; intros d Hd.
    - destruct d; [reflexivity|simpl in Hd; lia].
    - destruct d as [|a [|b [|c d]]]; try reflexivity.
      cbn [map rows_of chan]. rewrite IH; [reflexivity|]. simpl in Hd. lia. }
  apply (H (length d)). lia.
Qed.

Section PipelinePxFacts.
Context (lm : Libm) (k : Constants).

Lemma _dot_product_data scalars a :
  (length (shape a) <= 3)%nat ->
  data (_dot_product lm scalars a) = flat_of (map (dot_px lm scalars) (rows_of (data a))).
Proof.
  intros Hrank. destruct scalars as [[s0 s1] s2].
  unfold _dot_product, dstack3, squeeze, sum_scaled, atleast_3d. cbn [shape data].
  destruct (shape a) as [|n1 [|n2 [|n3 [|n4 sh]]]]; simpl in Hrank; try lia;
    cbn [removelast fold_right Nat.mul data shape]; rewrite !blocks_1;
    generalize (rows_of (data a)) as rows; intros rows;
    (induction rows as [|p rows IH]; [reflexivity|]);
    cbn [map zip zip_with concat flat_of flat_map fst snd app chan dot_px];
    f_equal; f_equal; f_equal; exact IH.
Qed.

Lemma _dot_product_shape scalars a n :
  shape a = [n; 3]%nat ->
  shape (_dot_product lm scalars a) = if (n =? 1)%nat then [3]%nat else [n; 3]%nat.
Proof.
  intros Hs. destruct scalars as [[s0 s1] s2].
  unfold _dot_product, dstack3, squeeze, sum_scaled, atleast_3d. cbn [shape data].
  rewrite Hs. cbn. destruct (n =? 1)%nat; reflexivity.
Qed.

Lemma _rgb_to_xyz_data a :
  (length (shape a) <= 3)%nat ->
  data (_rgb_to_xyz lm k a) = flat_of (map (rgb_to_xyz_px lm k) (rows_of (data a))).
Proof.
  intros Hrank. unfold _rgb_to_xyz. rewrite _dot_product_data.
  - rewrite _to_linear_px. cbn [data]. rewrite rows_of_map, map_map. reflexivity.
  - rewrite _to_linear_px. exact Hrank.
Qed.

Lemma _rgb_to_husl_data a :
  (length (shape a) <= 3)%nat ->
  data (_rgb_to_husl lm k a)
  = flat_of (map (rgb_to_husl_px lm k (length (shape (_rgb_to_xyz lm k a)) =? 1)%nat)
               (rows_of (data a))).
Proof.
  intros Hrank. unfold _rgb_to_husl, _rgb_to_lch.
  rewrite _lch_to_husl_px, _luv_to_lch_px, _xyz_to_luv_px. cbn [data reshape shape].
  rewrite _rgb_to_xyz_data by exact Hrank.
  rewrite !rows_of_flat_of, !map_map. reflexivity.
Qed.

Lemma rgb_to_husl_px_hue_lightness scalar p :
  chan (rgb_to_husl_px lm k scalar p) 0 = chan (rgb_to_husl_px lm k false p) 0 /\
  chan (rgb_to_husl_px lm k scalar p) 2 = chan (rgb_to_husl_px lm k false p) 2.
Proof.
  unfold rgb_to_husl_px.
  destruct (xyz_to_luv_px lm k (rgb_to_xyz_px lm k p)) as [[L U] V].
  split; reflexivity.
Qed.

Lemma _rgb_to_husl_batch n d :
  data (_rgb_to_husl lm k {| shape := [n; 3%nat]; data := d |})
  = flat_of (map (rgb_to_husl_px lm k (n =? 1)%nat) (rows_of d)).
Proof.
  rewrite _rgb_to_husl_data by (simpl; lia). cbn [data]. unfold _rgb_to_xyz.
  rewrite (_dot_product_shape (M_INV k) _ n) by (rewrite _to_linear_px; reflexivity).
  destruct (n =? 1)%nat; reflexivity.
Qed.

Lemma _rgb_to_hue_data a :
  (length (shape a) <= 3)%nat ->
  data (_rgb_to_hue lm k a)
  = map (fun p => chan (rgb_to_husl_px lm k false p) 0) (rows_of (data a)).
Proof.
  intros Hrank. unfold _rgb_to_hue, channel_nd. cbn [data].
  rewrite _rgb_to_husl_data by exact Hrank.
  rewrite rows_of_flat_of. unfold _channel. rewrite map_map.
  apply map_ext. intros p. apply rgb_to_husl_px_hue_lightness.
Qed.

Lemma _husl_to_rgb_data a :
  (length (shape a) <= 3)%nat ->
  data (_husl_to_rgb lm k a) = flat_of (map (husl_to_rgb_px lm k) (rows_of (data a))).
Proof.
  intros Hrank. unfold _husl_to_rgb, _lch_to_rgb, _xyz_to_rgb.
  rewrite _from_linear_px. cbn [data].
  rewrite _dot_product_data.
  - rewrite _luv_to_xyz_px, _lch_to_luv_px, _husl_to_lch_px. cbn [data reshape].
    rewrite !rows_of_flat_of, !map_map.
    generalize (rows_of (data a)) as rows. intros rows.
    induction rows as [|p rows IH]; [reflexivity|].
    cbn [map flat_of flat_map app]. f_equal. f_equal. f_equal. exact IH.
  - rewrite _luv_to_xyz_px, _lch_to_luv_px, _husl_to_lch_px. exact Hrank.
Qed.

End PipelinePxFacts.

Lemma concat_map_hom {A B} (F : list A -> list B) ls :
  F [] = [] -> (forall r1 r2, F (r1 ++ r2) = F r1 ++ F r2) ->
  concat (map F ls) = F (concat ls).
Proof.
  intros H0 Happ. induction ls as [|l ls IH]; simpl; [symmetry; exact H0|].
  rewrite Happ, IH. reflexivity.
Qed.

Lemma in_chunks_whole fn n d (c : Z) :
  rowwise fn -> (1 <= c)%Z ->
  in_chunks {| shape := [n; 3%nat]; data := d |} fn (Some c)
  = in_chunks {| shape := [n; 3%nat]; data := d |} fn None.
Proof.
  intros (F & H0 & Happ & HF) Hc. unfold in_chunks.
  destruct (c <=? 0)%Z eqn:E; [apply Z.leb_le in E; lia|]. f_equal.
  cbn [data]. rewrite HF by (simpl; lia). cbn [data].
  rewrite <- (blocks_concat (Z.to_nat c) (rows_of d)) at 2 by lia.
  rewrite <- (concat_map_hom F) by assumption.
  f_equal. apply map_ext. intros chunk.
  rewrite HF by (simpl; lia). cbn [data]. rewrite rows_of_flat_of. reflexivity.
Qed.

Lemma rowwise_rgb_float_input b fn : rowwise fn -> rowwise (rgb_float_input b fn).
Proof.
  intros (F & H0 & Happ & HF). destruct b.
  - exists (fun rows =>
      F (map (fun p => (chan p 0 / 255, chan p 1 / 255, chan p 2 / 255)) rows)).
    split; [exact H0|]. split.
    + intros r1 r2. rewrite map_app. apply Happ.
    + intros a Ha. unfold rgb_float_input. rewrite HF by exact Ha.
      cbn [data]. rewrite rows_of_map. reflexivity.
  - exists F. split; [exact H0|]. split; [exact Happ|]. intros a Ha. apply HF, Ha.
Qed.

(** ** The kernels act row by row *)

Section Rowwise.
Context (lm : Libm) (k : Constants).

Lemma rowwise_rgb_to_hue : rowwise (_rgb_to_hue lm k).
Proof.
  exists (map (fun p => chan (rgb_to_husl_px lm k false p) 0)).
  split; [reflexivity|]. split.
  - intros r1 r2. apply map_app.
  - apply _rgb_to_hue_data.
Qed.

Lemma rowwise_husl_to_rgb : rowwise (_husl_to_rgb lm k).
Proof.
  exists (fun rows => flat_of (map (husl_to_rgb_px lm k) rows)).
  split; [reflexivity|]. split.
  - intros r1 r2. rewrite map_app. apply flat_of_app.
  - apply _husl_to_rgb_data.
Qed.

End Rowwise.

(** ** Chunking *)

Lemma rows_of_length d m : length d = (3 * m)%nat -> length (rows_of d) = m.
Proof.
  revert d. induction m as [|m IH]; intros d H.
  - destruct d; [reflexivity|discriminate].
  - destruct d as [|a [|b [|c d]]]; simpl in H; try lia.
    cbn [rows_of length]. f_equal. apply IH. lia.
Qed.

Lemma rows_of_flat_of_app rows d : rows_of (flat_of rows ++ d) = rows ++ rows_of d.
Proof.
  induction rows as [|[[a b] c] rows IH]; [reflexivity|].
  cbn [flat_of flat_map app chan rows_of] in IH |- *. f_equal. exact IH.
Qed.

Lemma rows_of_concat_flat {A} (g : A -> list pixel) (ls : list A) :
  rows_of (concat (map (fun x => flat_of (g x)) ls)) = concat (map g ls).
Proof.
  induction ls as [|x ls IH]; [reflexivity|]. cbn [map concat].
  rewrite rows_of_flat_of_app, IH. reflexivity.
Qed.

Lemma blocks_fuel_lengths {A} (c fuel : nat) (l : list A) :
  (2 <= c)%nat -> (length l mod c <> 1)%nat ->
  Forall (fun ch => length ch <> 1%nat) (blocks_fuel fuel c l).
Proof.
  intros Hc. revert l. induction fuel as [|fuel IH]; intros l Hm; [constructor|].
  destruct l as [|x l]; [constructor|]. cbn [blocks_fuel].
  set (l' := x :: l) in *. constructor.
  - rewrite length_take. destruct (Nat.le_gt_cases c (length l')) as [Hle|Hlt].
    + lia.
    + rewrite Nat.mod_small in Hm by exact Hlt. lia.
  - apply IH. rewrite length_drop.
    destruct (Nat.le_gt_cases c (length l')) as [Hle|Hlt].
    + intros E. apply Hm. rewrite <- E.
      replace (length l') with ((length l' - c) + 1 * c)%nat at 1 by lia.
      apply Nat.Div0.mod_add.
    + replace (length l' - c)%nat with 0%nat by lia. rewrite Nat.Div0.mod_0_l. lia.
Qed.

Lemma blocks_single {A} (c : nat) (x : A) : (1 <= c)%nat -> blocks c [x] = [[x]].
Proof. destruct c as [|[|c]]; [lia|reflexivity|reflexivity]. Qed.

Lemma chunks_agree (g : bool -> pixel -> pixel) (s : bool) (chunks : list (list pixel)) :
  Forall (fun ch => map (g (length ch =? 1)%nat) ch = map (g s) ch) chunks ->
  concat (map (fun ch => flat_of (map (g (length ch =? 1)%nat) ch)) chunks)
  = flat_of (map (g s) (concat chunks)).
Proof.
  induction 1 as [|ch chunks Hch _ IH]; [reflexivity|]. cbn [map concat].
  rewrite map_app, flat_of_app, Hch, IH. reflexivity.
Qed.

Lemma chunks_channels (g : bool -> pixel -> pixel) (s : bool)
    (chunks : list (list pixel)) :
  (forall b p, chan (g b p) 0 = chan (g false p) 0 /\ chan (g b p) 2 = chan (g false p) 2) ->
  Forall2 (fun p q => chan p 0 = chan q 0 /\ chan p 2 = chan q 2)
    (concat (map (fun ch => map (g (length ch =? 1)%nat) ch) chunks))
    (map (g s) (concat chunks)).
Proof.
  intros Hg. induction chunks as [|ch chunks IH]; [constructor|]. cbn [map concat].
  rewrite map_app. apply Forall2_app; [|exact IH].
  generalize (length ch =? 1)%nat as b. intros b.
  induction ch as [|p ch IHch]; [constructor|]. cbn [map]. constructor; [|exact IHch].
  destruct (Hg b p) as [H0 H2], (Hg s p) as [H0' H2']. split; congruence.
Qed.

Section ChunkedHusl.
Context (lm : Libm) (k : Constants).

Lemma rgb_float_input_batch b n d :
  data (rgb_float_input b (_rgb_to_husl lm k) {| shape := [n; 3%nat]; data := d |})
  = flat_of (map (fun p => rgb_to_husl_px lm k (n =? 1)%nat (float_px b p)) (rows_of d)).
Proof.
  unfold rgb_float_input. destruct b; cbn [shape data].
  - rewrite _rgb_to_husl_batch, rows_of_map, map_map. reflexivity.
  - rewrite _rgb_to_husl_batch. reflexivity.
Qed.

Lemma in_chunks_rgb_to_husl b n d (c : Z) :
  (1 <= c)%Z ->
  in_chunks {| shape := [n; 3%nat]; data := d |}
    (rgb_float_input b (_rgb_to_husl lm k)) (Some c)
  = Ok (concat (map (fun ch =>
                       flat_of (map (fun p => rgb_to_husl_px lm k (length ch =? 1)%nat
                                                (float_px b p)) ch))
                  (blocks (Z.to_nat c) (rows_of d)))).
Proof.
  intros Hc. unfold in_chunks.
  destruct (c <=? 0)%Z eqn:E; [apply Z.leb_le in E; lia|]. f_equal. cbn [data].
  f_equal. apply map_ext. intros ch.
  rewrite rgb_float_input_batch, rows_of_flat_of. reflexivity.
Qed.

Lemma pow_half_sqrt scalar s :
  (forall x, power lm x 0.5 = sqrt x) -> pow_half lm scalar s = pow_half lm false s.
Proof. intros H. destruct scalar; [apply H|reflexivity]. Qed.

Lemma rgb_to_husl_px_sqrt scalar p :
  (forall x, power lm x 0.5 = sqrt x) ->
  rgb_to_husl_px lm k scalar p = rgb_to_husl_px lm k false p.
Proof.
  intros H. unfold rgb_to_husl_px.
  destruct (xyz_to_luv_px lm k (rgb_to_xyz_px lm k p)) as [[L U] V].
  unfold luv_to_lch_px. rewrite (pow_half_sqrt scalar _ H). reflexivity.
Qed.

End ChunkedHusl.




(** ** The chroma bounds solver: claims *)

(** C5: for every lightness and hue the solver returns the minimum, over the
    six boundary lines, of the ray length
    [intercept / (sin hue_rad - slope * cos hue_rad)], a length that is
    negative or NaN being counted as infinite; the six lines are the six
    yields of [_bounds] for that lightness, and the array form of the solver
    computes this minimum for every row. *)
Theorem max_lh_chroma_minimum (lm : Libm) (k : Constants) (lch : list pixel) :
  _max_lh_chroma lm k lch = map (fun p => max_chroma_px lm k (chan p 0) (chan p 2)) lch /\
  forall L H : float,
    _bounds lm k [L] = map (fun line => ([line.1], [line.2])) (bounds_px lm k L) /\
    length (candidates lm k L H) = 6%nat /\
    candidates lm k L H
    = map (fun line => exclude (ray_length_px lm ((H / 360.0) * _2pi) line))
        (bounds_px lm k L) /\
    is_minimum (max_chroma_px lm k L H) (candidates lm k L H).
Proof.
  split; [apply _max_lh_chroma_px|]. intros L H.
  split.
  { change [L] with (map (fun x : float => x) [L]). rewrite _bounds_px.
    unfold bounds_px. rewrite map_map. reflexivity. }
  split; [apply candidates_length|]. split; [reflexivity|].
  apply max_chroma_px_minimum.
Qed.

(** C6 fails as stated: for the lightness 1.0, which is not below epsilon,
    the code replaces the cubic term [17^3 / 1560896] by [1.0 / kappa],
    because the cubic term, not the lightness, is below epsilon. *)
Lemma bounds_sub_lightness_threshold_fails :
  (1.0 <? EPSILON husl_constants) = false /\
  map (spec_sub libm_table husl_constants) [1.0] = [4913 / 1560896.0] /\
  _bounds_sub libm_table husl_constants [1.0] = [1.0 / KAPPA husl_constants] /\
  (1.0 / KAPPA husl_constants =? 4913 / 1560896.0) = false.
Proof. vm_compute. repeat split; reflexivity. Qed.

(** C6, amended: for every lightness [L] the term [sub] is
    [((L + 16)^3) / 1560896], replaced by [L / kappa] where that cubic term
    itself is below epsilon. *)
Theorem bounds_sub_cubic_threshold (lm : Libm) (k : Constants) (l_nd : list float) :
  _bounds_sub lm k l_nd
  = map (fun L =>
           let cubic := power lm (L + 16.0) 3 / 1560896.0 in
           if cubic <? EPSILON k then L / KAPPA k else cubic) l_nd.
Proof.
  unfold _bounds_sub. pointwise.
  apply map_ext. intros L. reflexivity.
Qed.

(** ** Lightness extremes *)

Lemma map_lookup {A B} (f : A -> B) (l : list A) (i : nat) (x : A) :
  l !! i = Some x -> map f l !! i = Some (f x).
Proof.
  revert i. induction l as [|y l IH]; intros [|i] H; simpl in *; try discriminate.
  - congruence.
  - apply IH, H.
Qed.

Lemma light_not_dark (x : float) : (L_MAX <? x) = true -> (x <? L_MIN) = false.
Proof.
  intros Hl. destruct (x <? L_MIN) eqn:Hd; [|reflexivity].
  apply FloatOrderFacts.ltb_leb in Hl, Hd.
  pose proof (FloatOrderFacts.leb_trans _ _ _ Hl Hd) as H. vm_compute in H. discriminate.
Qed.

(** C4 fails as stated at the thresholds themselves: a pixel whose lightness
    is exactly 99.99, or exactly 0.01, keeps its lightness in both
    directions, since the code compares strictly. *)
Lemma lightness_threshold_not_clamped :
  (L_MAX <=? 99.99) = true /\ (0.01 <=? L_MIN) = true /\
  _channel (rows_of (data (_lch_to_husl libm_table husl_constants
      {| shape := [2; 3]%nat; data := [99.99; 10; 0; 0.01; 10; 0] |}))) 2
    = [99.99; 0.01] /\
  _channel (rows_of (data (_husl_to_lch libm_table husl_constants
      {| shape := [2; 3]%nat; data := [0; 50; 99.99; 0; 50; 0.01] |}))) 0
    = [99.99; 0.01] /\
  (99.99 =? 100) = false /\ (0.01 =? 0) = false.
Proof. vm_compute. repeat split; reflexivity. Qed.

(** C4, amended: a pixel whose lightness is above 99.99 gets saturation 0
    and lightness exactly 100, a pixel whose lightness is below 0.01 gets
    saturation 0 and lightness exactly 0, whatever its chroma; in the
    HUSL-to-LCH direction the chroma is forced to 0 and the lightness to 100
    or 0 in the same two cases.  In both directions the hue is kept, and a
    pixel whose lightness is neither above 99.99 nor below 0.01 keeps its
    lightness and gets the computed saturation or chroma. *)
Theorem lightness_extremes_override (lm : Libm) (k : Constants) (a : ndarray)
    (i : nat) (x y z : float) :
  rows_of (data a) !! i = Some (x, y, z) ->
  ((L_MAX <? x) = true ->
     rows_of (data (_lch_to_husl lm k a)) !! i = Some (z, 0, 100)) /\
  ((x <? L_MIN) = true ->
     rows_of (data (_lch_to_husl lm k a)) !! i = Some (z, 0, 0)) /\
  ((L_MAX <? z) = true ->
     rows_of (data (_husl_to_lch lm k a)) !! i = Some (100, 0, x)) /\
  ((z <? L_MIN) = true ->
     rows_of (data (_husl_to_lch lm k a)) !! i = Some (0, 0, x)) /\
  ((L_MAX <? x) = false -> (x <? L_MIN) = false ->
     rows_of (data (_lch_to_husl lm k a)) !! i
     = Some (z, y / max_chroma_px lm k x z * 100.0, x)) /\
  ((L_MAX <? z) = false -> (z <? L_MIN) = false ->
     rows_of (data (_husl_to_lch lm k a)) !! i
     = Some (z, max_chroma_px lm k z x / 100.0 * y, x)).
Proof.
  intros Hi.
  rewrite _lch_to_husl_px, _husl_to_lch_px. cbn [data reshape].
  rewrite !rows_of_flat_of.
  rewrite (map_lookup _ _ _ _ Hi), (map_lookup _ _ _ _ Hi).
  unfold lch_to_husl_px, husl_to_lch_px.
  split; [|split; [|split; [|split; [|split]]]].
  - intros H. rewrite H, (light_not_dark _ H). reflexivity.
  - intros H. rewrite H. destruct (L_MAX <? x); reflexivity.
  - intros H. rewrite H, (light_not_dark _ H). reflexivity.
  - intros H. rewrite H. reflexivity.
  - intros H1 H2. rewrite H1, H2. reflexivity.
  - intros H1 H2. rewrite H1, H2. reflexivity.
Qed.

(** A white pixel and a black pixel, in both directions. *)
Lemma lightness_extremes_override_witness :
  let a := {| shape := [2; 3]%nat; data := [100; 7; 30; 0.001; 7; 30] |} in
  let b := {| shape := [2; 3]%nat; data := [30; 7; 100; 30; 7; 0.001] |} in
  rows_of (data (_lch_to_husl libm_table husl_constants a)) !! 0%nat = Some (30, 0, 100) /\
  rows_of (data (_lch_to_husl libm_table husl_constants a)) !! 1%nat = Some (30, 0, 0) /\
  rows_of (data (_husl_to_lch libm_table husl_constants b)) !! 0%nat = Some (100, 0, 30) /\
  rows_of (data (_husl_to_lch libm_table husl_constants b)) !! 1%nat = Some (0, 0, 30).
Proof.
  intros a b.
  pose proof (lightness_extremes_override libm_table husl_constants a 0 100 7 30 eq_refl)
    as (Ha0 & _).
  pose proof (lightness_extremes_override libm_table husl_constants a 1 0.001 7 30 eq_refl)
    as (_ & Ha1 & _).
  pose proof (lightness_extremes_override libm_table husl_constants b 0 30 7 100 eq_refl)
    as (_ & _ & Hb0 & _).
  pose proof (lightness_extremes_override libm_table husl_constants b 1 30 7 0.001 eq_refl)
    as (_ & _ & _ & Hb1 & _).
  split; [apply Ha0; reflexivity|].
  split; [apply Ha1; reflexivity|].
  split; [apply Hb0; reflexivity|apply Hb1; reflexivity].
Defined.

(** ** The matrix product on a single row *)

(** C10: on an input of shape [(1, 3)] the matrix product returns an array of
    shape [(3,)]: the singleton dimensions are squeezed away, the three
    products are kept, and the RGB-to-XYZ stage hands on an array without
    its batch dimension. *)
Theorem dot_product_single_row_squeezed (lm : Libm) (k : Constants)
    (scalars : pixel * pixel * pixel) (a : ndarray) :
  shape a = [1; 3]%nat ->
  shape (_dot_product lm scalars a) = [3]%nat /\
  data (_dot_product lm scalars a) = flat_of (map (dot_px lm scalars) (rows_of (data a))) /\
  shape (_rgb_to_xyz lm k a) = [3]%nat.
Proof.
  intros Hs. split; [|split].
  - rewrite (_dot_product_shape lm scalars a 1 Hs). reflexivity.
  - apply _dot_product_data. rewrite Hs. simpl. lia.
  - unfold _rgb_to_xyz.
    rewrite (_dot_product_shape lm (M_INV k) (_to_linear lm a) 1); [reflexivity|].
    rewrite _to_linear_px. exact Hs.
Qed.

(** One pixel in a batch of one. *)
Lemma dot_product_single_row_squeezed_witness :
  let a := {| shape := [1; 3]%nat; data := [0.5; 0.25; 1] |} in
  shape (_dot_product libm_table (M husl_constants) a) = [3]%nat /\
  data (_dot_product libm_table (M husl_constants) a)
  = flat_of (map (dot_px libm_table (M husl_constants)) (rows_of (data a))) /\
  shape (_rgb_to_xyz libm_table husl_constants a) = [3]%nat.
Proof.
  intros a.
  exact (dot_product_single_row_squeezed libm_table husl_constants (M husl_constants) a
           eq_refl).
Defined.

(** ** Classes of binary64 values *)

Lemma is_nan_Prim2SF x : is_nan x = true <-> Prim2SF x = S754_nan.
Proof.
  split; [|apply Prim2SF_nan_is_nan].
  intros N. destruct (Prim2SF x) as [s|s| |s m e] eqn:E; try reflexivity; exfalso.
  all: assert (F : is_nan x = false)
    by (apply FloatOrderFacts.is_nan_cmp; rewrite E;
        destruct (FloatOrderFacts.SFcompare_refl (Prim2SF x)) as [H|H]; rewrite E in H;
        [destruct s; discriminate H|exact H]).
  all: congruence.
Qed.

Lemma eqb_zero_Prim2SF x : (x =? 0) = true <-> exists s, Prim2SF x = S754_zero s.
Proof.
  rewrite FloatAxioms.eqb_spec. change (Prim2SF 0) with (S754_zero false).
  unfold SFeqb. destruct (Prim2SF x) as [s|s| |s m e]; simpl; split;
    try (intros (s' & H); discriminate H); try discriminate; eauto;
    destruct s; discriminate.
Qed.

Lemma is_infinity_Prim2SF x :
  is_infinity x = true <-> exists s, Prim2SF x = S754_infinity s.
Proof.
  unfold is_infinity. rewrite FloatAxioms.eqb_spec, abs_spec.
  change (Prim2SF infinity) with (S754_infinity false).
  unfold SFeqb. destruct (Prim2SF x) as [s|s| |s m e]; simpl; split;
    try (intros (s' & H); discriminate H); try discriminate; eauto.
Qed.

Lemma div_by_zero n d :
  (d =? 0) = true -> is_infinity (n / d) = true \/ is_nan (n / d) = true.
Proof.
  intros (s & Hd)%eqb_zero_Prim2SF.
  rewrite is_infinity_Prim2SF, is_nan_Prim2SF, div_spec, Hd.
  destruct (Prim2SF n) as [sn|sn| |sn mn en]; simpl; eauto.
Qed.

Lemma nan_sub x c : is_nan x = true -> is_nan (x - c) = true.
Proof.
  rewrite !is_nan_Prim2SF, sub_spec. intros ->. reflexivity.
Qed.

Lemma nan_mul a y : is_nan y = true -> is_nan (a * y) = true.
Proof.
  rewrite !is_nan_Prim2SF, mul_spec. intros ->.
  destruct (Prim2SF a); reflexivity.
Qed.

Lemma inf_or_nan_add q c :
  is_infinity q = true \/ is_nan q = true ->
  is_infinity (q + c) = true \/ is_nan (q + c) = true.
Proof.
  rewrite !is_infinity_Prim2SF, !is_nan_Prim2SF, add_spec.
  intros [(s & ->)| ->]; [|right; reflexivity].
  destruct (Prim2SF c) as [sc|sc| |sc mc ec]; simpl; eauto.
  destruct s, sc; simpl; eauto.
Qed.

Lemma mul_zero_r a z :
  is_nan a = false -> is_infinity a = false -> (z =? 0) = true -> (a * z =? 0) = true.
Proof.
  intros Na Ia (s & Hz)%eqb_zero_Prim2SF. apply eqb_zero_Prim2SF.
  rewrite mul_spec, Hz.
  destruct (Prim2SF a) as [sa|sa| |sa ma ea] eqn:E; simpl; eauto.
  - assert (is_infinity a = true) by (apply is_infinity_Prim2SF; eauto). congruence.
  - apply Prim2SF_nan_is_nan in E. congruence.
Qed.

Lemma nan_to_num_not_nan x : is_nan (nan_to_num x) = false.
Proof.
  unfold nan_to_num. destruct (is_nan x) eqn:N; [reflexivity|].
  destruct (x =? infinity); [reflexivity|].
  destruct (x =? neg_infinity); [reflexivity|exact N].
Qed.

Lemma nan_to_num_finite x : is_infinity (nan_to_num x) = false.
Proof.
  unfold nan_to_num. destruct (is_nan x) eqn:N; [reflexivity|].
  destruct (x =? infinity) eqn:P; [reflexivity|].
  destruct (x =? neg_infinity) eqn:Q; [reflexivity|].
  destruct (is_infinity x) eqn:I; [|reflexivity]. exfalso.
  apply is_infinity_Prim2SF in I as (s & Hs).
  rewrite FloatAxioms.eqb_spec in P, Q. rewrite Hs in P, Q.
  change (Prim2SF infinity) with (S754_infinity false) in P.
  change (Prim2SF neg_infinity) with (S754_infinity true) in Q.
  destruct s; discriminate.
Qed.

Lemma nan_to_num_nan x : is_nan x = true -> nan_to_num x = 0.
Proof. intros N. unfold nan_to_num. rewrite N. reflexivity. Qed.

Lemma mask_inf_finite q : is_infinity (mask_inf q) = false.
Proof. unfold mask_inf. destruct (is_infinity q) eqn:I; [reflexivity|exact I]. Qed.

Lemma mask_inf_cases q :
  is_infinity q = true \/ is_nan q = true ->
  mask_inf q = 0 \/ is_nan (mask_inf q) = true.
Proof.
  unfold mask_inf. intros [I|N].
  - rewrite I. left. reflexivity.
  - destruct (is_infinity q); [left; reflexivity|right; exact N].
Qed.

(** ** Division by zero in the LUV stages *)

(** C7 fails as stated.  For the black pixel the chromaticity denominator is
    zero and the ratio [0 / 0] is NaN, which the [isinf] mask leaves in
    place: the division does not yield 0.  For an out-of-gamut pixel with a
    zero denominator and non-zero numerators the ratios are replaced by 0 and
    the channels of the final array computed from them are not 0. *)
Lemma zero_denominator_not_zeroed :
  (0 + 15 * 0 + 3 * 0 =? 0) = true /\
  is_nan (xyz_uv_var_px (0, 0, 0)).1 = true /\
  is_nan (xyz_uv_var_px (0, 0, 0)).2 = true /\
  (-15 * 0x1p-10 + 15 * 0x1p-10 + 3 * 0 =? 0) = true /\
  xyz_uv_var_px (-15 * 0x1p-10, 0x1p-10, 0) = (0, 0) /\
  (chan (xyz_to_luv_px libm_table husl_constants (-15 * 0x1p-10, 0x1p-10, 0)) 1 <? -2)
  = true /\
  (chan (xyz_to_luv_px libm_table husl_constants (-15 * 0x1p-10, 0x1p-10, 0)) 2 <? -5)
  = true.
Proof. vm_compute. repeat split; reflexivity. Qed.

Section ZeroDenominators.
Context (lm : Libm) (k : Constants).

Lemma xyz_zero_denominator X Y Z :
  (X + 15 * Y + 3 * Z =? 0) = true ->
  let uv := xyz_uv_var_px (X, Y, Z) in
  let out := xyz_to_luv_px lm k (X, Y, Z) in
  is_infinity uv.1 = false /\ is_infinity uv.2 = false /\
  (uv.1 = 0 \/ is_nan uv.1 = true /\ chan out 1 = 0) /\
  (uv.2 = 0 \/ is_nan uv.2 = true /\ chan out 2 = 0).
Proof.
  intros Hd. unfold xyz_to_luv_px. cbn [xyz_uv_var_px fst snd chan].
  split; [apply mask_inf_finite|]. split; [apply mask_inf_finite|].
  split.
  - destruct (mask_inf_cases _ (div_by_zero (4 * X) _ Hd)) as [E|N]; [left; exact E|].
    right. split; [exact N|]. apply nan_to_num_nan, nan_mul, nan_sub, N.
  - destruct (mask_inf_cases _ (div_by_zero (9 * Y) _ Hd)) as [E|N]; [left; exact E|].
    right. split; [exact N|]. apply nan_to_num_nan, nan_mul, nan_sub, N.
Qed.

Lemma luv_zero_denominator L U V :
  (13.0 * L =? 0) = true ->
  let uv := luv_uv_var_px k (L, U, V) in
  is_infinity uv.1 = false /\ is_infinity uv.2 = false /\
  (uv.1 = 0 \/ is_nan uv.1 = true) /\ (uv.2 = 0 \/ is_nan uv.2 = true).
Proof.
  intros Hd. cbn [luv_uv_var_px fst snd].
  split; [apply mask_inf_finite|]. split; [apply mask_inf_finite|].
  split; apply mask_inf_cases, inf_or_nan_add, div_by_zero, Hd.
Qed.

Lemma luv_zero_lightness L U V :
  (L =? 0) = true ->
  (13.0 * L =? 0) = true /\ luv_to_xyz_px lm k (L, U, V) = (0, 0, 0).
Proof.
  intros HL. split.
  - apply mul_zero_r; [reflexivity|reflexivity|exact HL].
  - unfold luv_to_xyz_px. destruct (luv_uv_var_px k (L, U, V)) as [u v].
    cbn [chan]. rewrite HL. reflexivity.
Qed.

Lemma in_flat_of e rows :
  In e (flat_of rows) -> exists p n, In p rows /\ e = chan p n.
Proof.
  induction rows as [|p rows IH]; [intros []|].
  cbn [flat_of flat_map]. rewrite in_app_iff. intros [H|H].
  - destruct H as [<-|[<-|[<-|[]]]]; eexists p, _; split; try (left; reflexivity);
      reflexivity.
  - destruct (IH H) as (q & n & Hq & ->). exists q, n. split; [right; exact Hq|reflexivity].
Qed.

Lemma _xyz_to_luv_finite a e :
  In e (data (_xyz_to_luv lm k a)) -> is_nan e = false /\ is_infinity e = false.
Proof.
  rewrite _xyz_to_luv_px. cbn [data reshape].
  intros (p & n & Hp & ->)%in_flat_of.
  apply in_map_iff in Hp as (q & <- & _). unfold xyz_to_luv_px.
  destruct (xyz_uv_var_px q) as [u v].
  destruct n as [|[|n]]; cbn [chan]; split;
    auto using nan_to_num_not_nan, nan_to_num_finite.
Qed.

Lemma _luv_to_xyz_finite a e :
  In e (data (_luv_to_xyz lm k a)) -> is_nan e = false /\ is_infinity e = false.
Proof.
  rewrite _luv_to_xyz_px. cbn [data reshape].
  intros (p & n & Hp & ->)%in_flat_of.
  apply in_map_iff in Hp as (q & <- & _). unfold luv_to_xyz_px.
  destruct (luv_uv_var_px k q) as [u v].
  destruct (chan q 0 =? 0).
  - destruct n as [|[|n]]; cbn [chan]; split; reflexivity.
  - destruct n as [|[|n]]; cbn [chan]; split;
      auto using nan_to_num_not_nan, nan_to_num_finite.
Qed.

End ZeroDenominators.

(** C7, amended: a zero chromaticity denominator never leaves an infinity in
    a ratio: an infinite ratio is replaced by 0, a [0 / 0] ratio stays NaN
    through the stage and the channel computed from it is 0 in the final
    array of the XYZ-to-LUV stage; in the LUV-to-XYZ stage a pixel of
    lightness 0, whose denominators are zero, gives the zero row; the final
    array of either stage holds neither NaN nor infinity; the stages are
    total functions, nothing is raised. *)
Theorem zero_denominators_masked (lm : Libm) (k : Constants) :
  (forall X Y Z : float,
     (X + 15 * Y + 3 * Z =? 0) = true ->
     let uv := xyz_uv_var_px (X, Y, Z) in
     let out := xyz_to_luv_px lm k (X, Y, Z) in
     is_infinity uv.1 = false /\ is_infinity uv.2 = false /\
     (uv.1 = 0 \/ is_nan uv.1 = true /\ chan out 1 = 0) /\
     (uv.2 = 0 \/ is_nan uv.2 = true /\ chan out 2 = 0)) /\
  (forall L U V : float,
     (13.0 * L =? 0) = true ->
     let uv := luv_uv_var_px k (L, U, V) in
     is_infinity uv.1 = false /\ is_infinity uv.2 = false /\
     (uv.1 = 0 \/ is_nan uv.1 = true) /\ (uv.2 = 0 \/ is_nan uv.2 = true)) /\
  (forall L U V : float,
     (L =? 0) = true ->
     (13.0 * L =? 0) = true /\ luv_to_xyz_px lm k (L, U, V) = (0, 0, 0)) /\
  (forall a : ndarray,
     _xyz_to_luv lm k a = reshape (map (xyz_to_luv_px lm k) (rows_of (data a))) (shape a) /\
     _luv_to_xyz lm k a = reshape (map (luv_to_xyz_px lm k) (rows_of (data a))) (shape a) /\
     forall e : float,
       In e (data (_xyz_to_luv lm k a)) \/ In e (data (_luv_to_xyz lm k a)) ->
       is_nan e = false /\ is_infinity e = false).
Proof.
  split; [apply xyz_zero_denominator|]. split; [apply luv_zero_denominator|].
  split; [apply luv_zero_lightness|]. intros a.
  split; [apply _xyz_to_luv_px|]. split; [apply _luv_to_xyz_px|].
  intros e [H|H]; [eapply _xyz_to_luv_finite|eapply _luv_to_xyz_finite]; exact H.
Qed.

(** ** Optimization selection: facts *)

Module DispatchFacts.
Import Dispatch.

Lemma getattr_available m t name :
  getattr m t name
  = if bool_decide (is_Some (getattr m t name))
    then Some {| provider := t; fn_name := name |} else None.
Proof.
  unfold getattr. destruct m as [names|]; [|reflexivity].
  destruct (decide (name ∈ names)); reflexivity.
Qed.

Lemma optimized_preferred st name :
  (optimized st {| provider := Reference; fn_name := name |}).2 = preferred st name.
Proof.
  unfold optimized, preferred. cbn [snd fn_name enabled available List.filter].
  rewrite (getattr_available (simd st)), (getattr_available (cyth st)),
    (getattr_available (expr st)).
  destruct (_SIMD_ENABLED st), (_CYTHON_ENABLED st), (_NUMEXPR_ENABLED st);
    destruct (bool_decide (is_Some (getattr (simd st) Simd name)));
    destruct (bool_decide (is_Some (getattr (cyth st) Cython name)));
    destruct (bool_decide (is_Some (getattr (expr st) Expr name)));
    reflexivity.
Qed.

Lemma register_lookup t name (flag : bool) (m : ext_module)
    (registry : gmap string fn_obj) :
  register (if flag then getattr m t name else None) name registry !! name
  = if flag && bool_decide (is_Some (getattr m t name))
    then Some {| provider := t; fn_name := name |} else registry !! name.
Proof.
  destruct flag; [|reflexivity]. rewrite getattr_available.
  destruct (bool_decide _); [|reflexivity]. cbn. apply lookup_insert_eq.
Qed.

Lemma optimized_registries st name :
  let st1 := (optimized st {| provider := Reference; fn_name := name |}).1 in
  NUMPY st1 !! name = Some {| provider := Reference; fn_name := name |} /\
  (forall t,
     match t with
     | Reference => NUMPY st1 !! name
     | Expr => NUMEXPR st1 !! name
     | Cython => CYTHON st1 !! name
     | Simd => SIMD st1 !! name
     end
     = if enabled st t && available st t name
       then Some {| provider := t; fn_name := name |}
       else match t with
            | Reference => NUMPY st !! name
            | Expr => NUMEXPR st !! name
            | Cython => CYTHON st !! name
            | Simd => SIMD st !! name
            end) /\
  globals st1 = globals st.
Proof.
  cbn zeta. unfold optimized. cbn [fst NUMPY NUMEXPR CYTHON SIMD globals fn_name].
  split; [apply lookup_insert_eq|]. split; [|reflexivity].
  intros []; cbn [enabled available andb].
  - apply lookup_insert_eq.
  - apply register_lookup.
  - apply register_lookup.
  - apply register_lookup.
Qed.

End DispatchFacts.

(** C8 fails as stated: the implementation is chosen when the kernel is
    defined, not when it is called.  With all three extension modules
    providing [_to_light], the name is bound to the SIMD function; after the
    SIMD flag is cleared a call still runs the SIMD function, where the
    preference order over the enabled tiers names the compiled one. *)
Lemma dispatch_not_resolved_at_call_time :
  let names : gset string := {["_to_light"%string]} in
  let st0 := Dispatch.initial_state (Some names) (Some names) (Some names) in
  let st1 := Dispatch.define st0 "_to_light" in
  let st2 := Dispatch.set_enabled true true false st1 in
  Dispatch.called st2 "_to_light"
  = Some {| Dispatch.provider := Dispatch.Simd; Dispatch.fn_name := "_to_light" |} /\
  Dispatch.preferred st2 "_to_light"
  = {| Dispatch.provider := Dispatch.Cython; Dispatch.fn_name := "_to_light" |}.
Proof. vm_compute. split; reflexivity. Qed.

(** C8, amended: dispatch resolves once, when the kernel is defined, to
    exactly one implementation, chosen by the fixed preference order SIMD >
    compiled > expression-vectorized > reference among the implementations
    that are available and enabled at that moment (all tiers are enabled by
    default); every later call runs that implementation, whatever the flags
    are set to afterwards; the reference function is always recorded in the
    [NUMPY] registry and every alternative that is available and enabled in
    the registry of its tier. *)
Theorem dispatch_resolved_at_definition (st : Dispatch.module_state) (name : string)
    (numexpr cython simd : bool) (e c s : Dispatch.ext_module) (t : Dispatch.tier) :
  let st1 := Dispatch.define st name in
  Dispatch.called st1 name = Some (Dispatch.preferred st name) /\
  Dispatch.called (Dispatch.set_enabled numexpr cython simd st1) name
  = Some (Dispatch.preferred st name) /\
  (match t with
   | Dispatch.Reference => Dispatch.NUMPY st1 !! name
   | Dispatch.Expr => Dispatch.NUMEXPR st1 !! name
   | Dispatch.Cython => Dispatch.CYTHON st1 !! name
   | Dispatch.Simd => Dispatch.SIMD st1 !! name
   end
   = if Dispatch.enabled st t && Dispatch.available st t name
     then Some {| Dispatch.provider := t; Dispatch.fn_name := name |}
     else match t with
          | Dispatch.Reference => Dispatch.NUMPY st !! name
          | Dispatch.Expr => Dispatch.NUMEXPR st !! name
          | Dispatch.Cython => Dispatch.CYTHON st !! name
          | Dispatch.Simd => Dispatch.SIMD st !! name
          end) /\
  Dispatch.enabled (Dispatch.initial_state e c s) t = true.
Proof.
  cbn zeta. unfold Dispatch.define.
  pose proof (DispatchFacts.optimized_preferred st name) as H.
  pose proof (DispatchFacts.optimized_registries st name) as (_ & R & _).
  destruct (Dispatch.optimized st _) as [st' r] eqn:E. cbn [fst snd] in H, R. subst r.
  unfold Dispatch.called, Dispatch.set_enabled.
  cbn [Dispatch.globals Dispatch.NUMPY Dispatch.NUMEXPR Dispatch.CYTHON Dispatch.SIMD].
  rewrite lookup_insert_eq. split; [reflexivity|]. split; [reflexivity|].
  split; [apply R|]. destruct t; reflexivity.
Qed.

(** The result in memory is the result of the function on values. *)
Lemma memory_luv_to_lch_result (lm : Libm) (luv_nd : Memory.array_ref) (m : Memory.store)
    (buf : list float) :
  m !! Memory.base luv_nd = Some buf ->
  exists lch m',
    Memory._luv_to_lch lm luv_nd m = Some (lch, m') /\
    Memory.base lch <> Memory.base luv_nd /\
    m' !! Memory.base lch
    = Some (data (_luv_to_lch lm {| shape := Memory.ashape luv_nd; data := buf |})) /\
    m' !! Memory.base luv_nd = Some (flat_of (luv_neg_zero (rows_of buf))).
Proof.
  intros Hb. unfold Memory._luv_to_lch. rewrite Hb.
  set (m1 := <[Memory.base luv_nd := _]> m).
  set (l := fresh (dom m1)).
  assert (Hl : l <> Memory.base luv_nd).
  { intros E. pose proof (is_fresh (dom m1)) as F. fold l in F. apply F.
    rewrite E. apply elem_of_dom. unfold m1. rewrite lookup_insert_eq. eauto. }
  eexists _, _. split; [reflexivity|]. cbn [Memory.base]. split; [exact Hl|]. split.
  - rewrite lookup_insert_eq. reflexivity.
  - rewrite lookup_insert_ne by exact Hl. unfold m1. apply lookup_insert_eq.
Qed.

(** C9 at the failing input: the caller's array [[50.0, -0.0, 1.0]] holds
    [[50.0, 0.0, 1.0]] after [_luv_to_lch]; the element that was written no
    longer has its sign. *)
Lemma luv_to_lch_writes_its_argument :
  let luv_nd := {| Memory.base := 1%positive; Memory.ashape := [1; 3]%nat |} in
  let m : Memory.store := {[ 1%positive := [50.0; -0.0; 1.0] ]} in
  exists lch m',
    Memory._luv_to_lch libm_table luv_nd m = Some (lch, m') /\
    m !! 1%positive = Some [50.0; -0.0; 1.0] /\
    m' !! 1%positive = Some [50.0; 0.0; 1.0] /\
    1 / -0.0 = neg_infinity /\ 1 / 0.0 = infinity.
Proof.
  intros luv_nd m.
  destruct (memory_luv_to_lch_result libm_table luv_nd m [50.0; -0.0; 1.0])
    as (lch & m' & Hrun & _ & _ & Hin); [reflexivity|].
  exists lch, m'. split; [exact Hrun|]. split; [reflexivity|].
  split; [exact Hin|]. split; reflexivity.
Qed.

(** ** The addition of 360 to a negative angle

    The sum of a binary64 in [-360, 0) and 360, rounded to nearest, is in
    [0, 360]: the rounding cannot pass 360, which is a binary64 itself.  The
    proof follows the specification of the addition: alignment, the shift to
    the format's exponent, rounding, and a second shift after a carry. *)

Module Add360Facts.
Local Open Scope Z_scope.
Import Add360.

Lemma digits2_pos_size p : digits2_pos p = Pos.size p.
Proof. induction p; simpl; congruence. Qed.

Lemma digits2_lower p : 2 ^ (Zpos (digits2_pos p) - 1) <= Zpos p.
Proof.
  rewrite digits2_pos_size.
  pose proof (Pos.size_le p) as H.
  assert (H' : 2 ^ Zpos (Pos.size p) <= 2 * Zpos p).
  { change 2 with (Zpos 2) at 1. rewrite <- Pos2Z.inj_pow. change (2 * Zpos p) with (Zpos p~0).
    apply Pos2Z.pos_le_pos. exact H. }
  replace (Zpos (Pos.size p)) with (Z.succ (Zpos (Pos.size p) - 1)) in H' by lia.
  rewrite Z.pow_succ_r in H' by lia. lia.
Qed.

Lemma digits2_upper p : Zpos p < 2 ^ Zpos (digits2_pos p).
Proof.
  rewrite digits2_pos_size. pose proof (Pos.size_gt p) as H.
  change 2 with (Zpos 2). rewrite <- Pos2Z.inj_pow. apply Pos2Z.pos_lt_pos. exact H.
Qed.

Lemma digits2_le p k : 0 <= k -> Zpos p < 2 ^ k -> Zpos (digits2_pos p) <= k.
Proof.
  intros Hk H. pose proof (digits2_lower p) as L.
  destruct (Z_le_gt_dec (Zpos (digits2_pos p)) k) as [|G]; [assumption|exfalso].
  assert (2 ^ k <= 2 ^ (Zpos (digits2_pos p) - 1)) by (apply Z.pow_le_mono_r; lia).
  lia.
Qed.

Lemma iter_shr_1 n : forall mrs,
  0 <= shr_m mrs ->
  0 <= shr_m (SpecFloat.iter_pos shr_1 n mrs) /\
  shr_m (SpecFloat.iter_pos shr_1 n mrs) * 2 ^ Zpos n <= shr_m mrs.
Proof.
  assert (H1 : forall mrs, 0 <= shr_m mrs ->
            0 <= shr_m (shr_1 mrs) /\ shr_m (shr_1 mrs) * 2 <= shr_m mrs).
  { intros [m r s] Hm. simpl in *. destruct m as [|[p|p|]|p]; simpl; lia. }
  induction n as [n IH|n IH|]; intros mrs Hm; cbn [SpecFloat.iter_pos].
  - destruct (H1 mrs Hm) as [A1 A2].
    destruct (IH _ A1) as [B1 B2]. destruct (IH _ B1) as [C1 C2].
    split; [exact C1|].
    assert (E : 2 ^ Z.pos n~1 = 2 ^ Z.pos n * 2 ^ Z.pos n * 2).
    { replace (Z.pos n~1) with (Z.pos n + Z.pos n + 1) by lia.
      rewrite !Z.pow_add_r by lia. reflexivity. }
    rewrite E. assert (0 < 2 ^ Zpos n) by (apply Z.pow_pos_nonneg; lia). nia.
  - destruct (IH _ Hm) as [B1 B2]. destruct (IH _ B1) as [C1 C2].
    split; [exact C1|].
    assert (E : 2 ^ Z.pos n~0 = 2 ^ Z.pos n * 2 ^ Z.pos n).
    { replace (Z.pos n~0) with (Z.pos n + Z.pos n) by lia.
      rewrite !Z.pow_add_r by lia. reflexivity. }
    rewrite E. assert (0 < 2 ^ Zpos n) by (apply Z.pow_pos_nonneg; lia). nia.
  - destruct (H1 mrs Hm) as [A1 A2]. split; [exact A1|]. change (2 ^ 1) with 2. exact A2.
Qed.

Lemma fexp64 e : fexp prec emax e = Z.max (e - 53) (-1074).
Proof. reflexivity. Qed.

(** One right shift to the format's exponent. *)
Lemma shr_fexp_bound m e l :
  0 <= m -> -1074 <= e ->
  let '(mrs, e') := shr_fexp prec emax m e l in
  0 <= shr_m mrs /\ e <= e' /\ shr_m mrs * 2 ^ (e' - e) <= m /\
  ((e' = e /\ mrs = shr_record_of_loc m l) \/ (e < e' /\ e' = Zdigits2 m + e - 53)).
Proof.
  intros Hm He. unfold shr_fexp, shr. rewrite fexp64.
  assert (Hrec : shr_m (shr_record_of_loc m l) = m) by (destruct l as [|[]]; reflexivity).
  destruct (Z.max (Zdigits2 m + e - 53) (-1074) - e) as [|p|p] eqn:E.
  - rewrite Hrec, Z.sub_diag. change (2 ^ 0) with 1.
    split; [lia|]. split; [lia|]. split; [lia|]. left. split; reflexivity.
  - destruct (iter_shr_1 p (shr_record_of_loc m l)) as [A B]; [rewrite Hrec; exact Hm|].
    rewrite Hrec in B. replace (e + Z.pos p - e) with (Z.pos p) by lia.
    split; [lia|]. split; [lia|]. split; [lia|]. right. lia.
  - rewrite Hrec, Z.sub_diag. change (2 ^ 0) with 1.
    split; [lia|]. split; [lia|]. split; [lia|]. left. split; reflexivity.
Qed.

Lemma round_nearest_even_bound m l :
  m <= round_nearest_even m l <= m + 1.
Proof.
  unfold round_nearest_even. destruct l as [|[]]; try lia. destruct (Z.even m); lia.
Qed.

Lemma loc_exact_record m : loc_of_shr_record (shr_record_of_loc m loc_Exact) = loc_Exact.
Proof. reflexivity. Qed.

Lemma pow2_pos k : 0 < 2 ^ k \/ k < 0.
Proof. destruct (Z_lt_le_dec k 0); [right; assumption|left; apply Z.pow_pos_nonneg; lia]. Qed.

Lemma pow2_split a b : 0 <= a -> 0 <= b -> 2 ^ (a + b) = 2 ^ a * 2 ^ b.
Proof. intros. apply Z.pow_add_r; assumption. Qed.

Lemma m360_lt : m360 < 2 ^ 53.
Proof. reflexivity. Qed.

(** A value below 360, at an exponent of at most -44, has few digits. *)
Lemma digits_below_360 m e k :
  0 < m -> e <= -44 -> 0 <= k -> m * 2 ^ k <= m360 * 2 ^ (-44 - e) ->
  Zdigits2 m + k <= 9 - e.
Proof.
  intros Hm He Hk Hlt. destruct m as [|p|p]; try lia. cbn [Zdigits2].
  pose proof (digits2_lower p) as L.
  assert (P1 : 0 < 2 ^ k) by (apply Z.pow_pos_nonneg; lia).
  assert (P2 : 0 < 2 ^ (-44 - e)) by (apply Z.pow_pos_nonneg; lia).
  assert (H1 : 2 ^ (Z.pos (digits2_pos p) - 1) * 2 ^ k < 2 ^ 53 * 2 ^ (-44 - e)).
  { pose proof m360_lt. nia. }
  assert (D : 0 < Z.pos (digits2_pos p)) by lia.
  rewrite <- !pow2_split in H1 by lia.
  apply Z.pow_lt_mono_r_iff in H1; lia.
Qed.

Lemma m360_ge : 2 ^ 52 <= m360.
Proof. discriminate. Qed.

Lemma binary_round_aux_below_360 mx ex :
  0 < mx -> -1074 <= ex <= -44 -> mx < m360 * 2 ^ (-44 - ex) ->
  below_360 (binary_round_aux prec emax false mx ex loc_Exact).
Proof.
  intros Hmx Hex Hlt. unfold binary_round_aux.
  pose proof (shr_fexp_bound mx ex loc_Exact ltac:(lia) ltac:(lia)) as S1.
  destruct (shr_fexp prec emax mx ex loc_Exact) as [mrs' e'].
  destruct S1 as (Q0 & E1 & V1 & C1).
  set (m1 := round_nearest_even (shr_m mrs') (loc_of_shr_record mrs')).
  set (B := m360 * 2 ^ (-44 - ex)) in *.
  assert (PB : 0 < 2 ^ (-44 - ex)) by (apply Z.pow_pos_nonneg; lia).
  assert (F1 : 0 <= m1 /\ e' <= -44 /\ m1 * 2 ^ (e' - ex) <= B).
  { pose proof (round_nearest_even_bound (shr_m mrs') (loc_of_shr_record mrs')) as R.
    fold m1 in R. destruct C1 as [[-> ->]|[Hlt' He']].
    - unfold m1. rewrite loc_exact_record. cbn [round_nearest_even].
      assert (shr_m (shr_record_of_loc mx loc_Exact) = mx) by reflexivity.
      rewrite Z.sub_diag. change (2 ^ 0) with 1. lia.
    - pose proof (digits_below_360 mx ex 0 Hmx ltac:(lia) ltac:(lia)) as D.
      change (2 ^ 0) with 1 in D. rewrite Z.mul_1_r in D. specialize (D ltac:(lia)).
      assert (He44 : e' <= -44) by lia.
      split; [lia|]. split; [exact He44|].
      set (n := e' - ex) in *.
      assert (Pn : 0 < 2 ^ n) by (apply Z.pow_pos_nonneg; lia).
      assert (EB : B = m360 * 2 ^ (-44 - e') * 2 ^ n).
      { unfold B. rewrite <- Z.mul_assoc, <- pow2_split by lia. do 2 f_equal. lia. }
      assert (P' : 0 < 2 ^ (-44 - e')) by (apply Z.pow_pos_nonneg; lia).
      assert (shr_m mrs' < m360 * 2 ^ (-44 - e')) by nia.
      rewrite EB. nia. }
  destruct F1 as (M0 & E44 & V2).
  pose proof (shr_fexp_bound m1 e' loc_Exact M0 ltac:(lia)) as S2.
  destruct (shr_fexp prec emax m1 e' loc_Exact) as [mrs'' e''].
  destruct S2 as (Q2 & E2 & V3 & C2).
  assert (V4 : shr_m mrs'' * 2 ^ (e'' - ex) <= B).
  { replace (e'' - ex) with ((e'' - e') + (e' - ex)) by lia.
    rewrite pow2_split by lia.
    assert (0 < 2 ^ (e' - ex)) by (apply Z.pow_pos_nonneg; lia).
    assert (0 < 2 ^ (e'' - e')) by (apply Z.pow_pos_nonneg; lia). nia. }
  assert (E44' : e'' <= -44).
  { destruct C2 as [[-> _]|[Hlt' He'']]; [exact E44|].
    assert (Hm1 : 0 < m1).
    { destruct (Z.eq_dec m1 0) as [Z|]; [|lia]. rewrite Z in He''. cbn in He''. lia. }
    pose proof (digits_below_360 m1 ex (e' - ex) Hm1 ltac:(lia) ltac:(lia) V2) as D.
    lia. }
  destruct (shr_m mrs'') as [|m2|m2] eqn:Em2; [left; reflexivity| |lia].
  right. destruct (e'' <=? emax - prec) eqn:Ov.
  - exists m2, e''. split; [reflexivity|].
    destruct (Z.eq_dec e'' (-44)) as [->|]; [right|left; lia].
    split; [reflexivity|]. unfold B in V4. nia.
  - apply Z.leb_gt in Ov. change (emax - prec) with 971 in Ov. lia.
Qed.

Lemma iter_xO p d : Z.pos (Pos.iter xO p d) = Z.pos p * 2 ^ Z.pos d.
Proof.
  induction d as [|d IH] using Pos.peano_ind.
  - cbn [Pos.iter]. change (2 ^ 1) with 2. lia.
  - rewrite Pos.iter_succ, Pos2Z.inj_succ, Z.pow_succ_r by lia.
    rewrite Pos2Z.inj_xO, IH. lia.
Qed.

Lemma shl_align_value mx ex ex' :
  let '(mz, ez) := shl_align mx ex ex' in
  ez = Z.min ex ex' /\ Z.pos mz = Z.pos mx * 2 ^ (ex - ez).
Proof.
  unfold shl_align. destruct (ex' - ex) as [|d|d] eqn:E.
  - rewrite Z.sub_diag. change (2 ^ 0) with 1. lia.
  - rewrite Z.sub_diag. change (2 ^ 0) with 1. lia.
  - rewrite iter_xO. replace (ex - ex') with (Z.pos d) by lia. lia.
Qed.

Lemma binary_round_below_360 mx ex :
  -1074 <= ex <= -44 -> Z.pos mx < m360 * 2 ^ (-44 - ex) ->
  below_360 (binary_round prec emax false mx ex).
Proof.
  intros Hex Hlt. unfold binary_round.
  pose proof (shl_align_value mx ex (fexp prec emax (Z.pos (digits2_pos mx) + ex))) as A.
  destruct (shl_align mx ex _) as [mz ez]. destruct A as (Hez & Hv).
  rewrite fexp64 in Hez.
  apply binary_round_aux_below_360; [lia|lia|].
  rewrite Hv. replace (-44 - ez) with ((-44 - ex) + (ex - ez)) by lia.
  rewrite pow2_split by lia.
  assert (0 < 2 ^ (ex - ez)) by (apply Z.pow_pos_nonneg; lia). nia.
Qed.

Lemma valid_finite s m e :
  SpecFloat.valid_binary prec emax (S754_finite s m e) = true ->
  -1074 <= e /\ Z.pos m < 2 ^ 53.
Proof.
  cbn [SpecFloat.valid_binary]. unfold bounded, canonical_mantissa.
  intros [C _]%andb_prop. apply Z.eqb_eq in C. rewrite fexp64 in C.
  split; [lia|]. pose proof (digits2_upper m) as U.
  assert (Z.pos (digits2_pos m) <= 53) by lia.
  assert (2 ^ Z.pos (digits2_pos m) <= 2 ^ 53) by (apply Z.pow_le_mono_r; lia). lia.
Qed.

Lemma SFadd_360 (X : spec_float) :
  SpecFloat.valid_binary prec emax X = true ->
  SFleb (S754_finite true 6333186975989760 (-44)) X = true ->
  SFltb X (S754_zero false) = true ->
  below_360 (SFadd prec emax X (S754_finite false 6333186975989760 (-44))).
Proof.
  intros Hv Hle Hlt.
  destruct X as [s|s| |s m e]; try discriminate Hlt.
  { destruct s; discriminate. }
  destruct s; [|discriminate Hlt]. clear Hlt.
  apply valid_finite in Hv as [Hmin Hm].
  unfold SFleb in Hle. cbn [SFcompare] in Hle.
  assert (Hcase : e < -44 \/ (e = -44 /\ Z.pos m <= m360)).
  { destruct (Z.compare_spec (-44) e) as [E|E|E]; try discriminate Hle.
    - right. split; [lia|]. unfold m360.
      change (Pos.compare_cont Eq ?a ?b) with (Pos.compare a b) in Hle.
      destruct (Pos.compare_spec 6333186975989760 m) as [C|C|C]; try discriminate Hle.
      + subst m. apply Z.le_refl.
      + apply Z.lt_le_incl, Pos2Z.pos_lt_pos, C.
    - left. lia. }
  clear Hle.
  cbn [SFadd].
  pose proof (shl_align_value m e (Z.min e (-44))) as A1.
  pose proof (shl_align_value 6333186975989760 (-44) (Z.min e (-44))) as A2.
  change IntDef.Z.min with Z.min.
  destruct (shl_align m e _) as [m1 e1]. destruct (shl_align _ (-44) _) as [m2 e2].
  cbn [fst cond_Zopp]. destruct A1 as (Z1 & V1). destruct A2 as (Z2 & V2).
  change (Z.pos 6333186975989760) with m360 in V2.
  assert (Emin : Z.min e (-44) = e) by (apply Z.min_l; lia).
  rewrite Emin in *. rewrite Z.min_id in Z1. subst e1.
  rewrite Z.sub_diag in V1. change (2 ^ 0) with 1 in V1. rewrite Z.mul_1_r in V1.
  assert (Ze2 : e2 = e) by (rewrite Z2; apply Z.min_r; lia). clear Z2. subst e2.
  assert (P : 0 < 2 ^ (-44 - e)) by (apply Z.pow_pos_nonneg; lia).
  assert (Hge : Z.pos m <= Z.pos m2).
  { rewrite V2. destruct Hcase as [E|[-> E]].
    - assert (2 <= 2 ^ (-44 - e)).
      { change 2 with (2 ^ 1) at 1. apply Z.pow_le_mono_r; lia. }
      pose proof m360_ge. nia.
    - change (2 ^ (-44 - -44)) with 1. lia. }
  unfold binary_normalize.
  destruct (- Z.pos m1 + Z.pos m2) as [|n|n] eqn:En; [left; reflexivity| |lia].
  apply binary_round_below_360; [lia|]. rewrite <- En, V2. lia.
Qed.

Lemma pos_compare_cont_le (m M : positive) :
  Z.pos m <= Z.pos M ->
  match Pos.compare_cont Eq m M with Lt | Eq => true | Gt => false end = true.
Proof.
  intros H. change (Pos.compare_cont Eq m M) with (Pos.compare m M).
  destruct (Pos.compare_spec m M) as [C|C|C]; try reflexivity.
  apply Pos2Z.pos_lt_pos in C. lia.
Qed.

Lemma below_360_leb R :
  below_360 R ->
  SFleb (S754_zero false) R = true /\
  SFleb R (S754_finite false 6333186975989760 (-44)) = true.
Proof.
  intros [->|(m & e & -> & H)]; [split; reflexivity|].
  split; [reflexivity|]. unfold SFleb. cbn [SFcompare].
  destruct H as [H|[-> H]].
  - apply Z.compare_lt_iff in H. rewrite H. reflexivity.
  - rewrite Z.compare_refl. apply pos_compare_cont_le. exact H.
Qed.

End Add360Facts.

Lemma add_360_range (h : float) :
  (-360 <=? h) = true -> (h <? 0) = true ->
  (0 <=? h + 360) = true /\ (h + 360 <=? 360) = true.
Proof.
  assert (E1 : Prim2SF (-360) = S754_finite true 6333186975989760 (-44))
    by (vm_compute; reflexivity).
  assert (E2 : Prim2SF 360 = S754_finite false 6333186975989760 (-44))
    by (vm_compute; reflexivity).
  assert (E3 : Prim2SF 0 = S754_zero false) by (vm_compute; reflexivity).
  rewrite !leb_spec, ltb_spec, add_spec, E1, E2, E3.
  intros Hle Hlt. apply Add360Facts.below_360_leb.
  apply Add360Facts.SFadd_360; [apply Prim2SF_valid|exact Hle|exact Hlt].
Qed.

(** ** Ranges of the HUSL channels *)

(** C3 fails as stated.  In the LUV-to-LCH stage a negative angle below half
    an ulp of 360 is normalized to 360.0 itself, which is not below 360: for
    [(L, U, V) = (50, 1, -1e-300)] the angle is [-1e-300] radians and the hue
    is 360.  In the LCH-to-HUSL stage the saturation is a quotient that
    nothing bounds: for an infinite chroma it is not in [0, 100]. *)
Lemma hue_reaches_360 :
  arctan2 libm_table (-1e-300) 1 = -1e-300 /\
  data (_luv_to_lch libm_table {| shape := [1; 3]%nat; data := [50; 1; -1e-300] |})
  = [50; 1; 360] /\
  (360 <? 360) = false /\
  let s := chan (lch_to_husl_px libm_table husl_constants (50, infinity, 0)) 1 in
  (0 <=? s) && (s <=? 100) = false.
Proof. vm_compute. repeat split; reflexivity. Qed.

Section Ranges.
Context (lm : Libm) (k : Constants).

Lemma lch_to_husl_px_lightness L C H :
  is_nan L = false ->
  let l := chan (lch_to_husl_px lm k (L, C, H)) 2 in
  (0 <=? l) = true /\ (l <=? 100) = true.
Proof.
  intros N. cbn [lch_to_husl_px chan].
  destruct (L <? L_MIN) eqn:D; [split; reflexivity|].
  destruct (L_MAX <? L) eqn:Li; [split; reflexivity|].
  apply FloatOrderFacts.not_ltb_leb in D; [|exact N|reflexivity].
  apply FloatOrderFacts.not_ltb_leb in Li; [|reflexivity|exact N].
  split.
  - apply (FloatOrderFacts.leb_trans 0 L_MIN L); [reflexivity|exact D].
  - apply (FloatOrderFacts.leb_trans L L_MAX 100); [exact Li|reflexivity].
Qed.

Lemma rgb_to_husl_px_lightness scalar p :
  let l := chan (rgb_to_husl_px lm k scalar p) 2 in
  (0 <=? l) = true /\ (l <=? 100) = true.
Proof.
  unfold rgb_to_husl_px.
  destruct (xyz_to_luv_px lm k (rgb_to_xyz_px lm k p)) as [[L U] V] eqn:E.
  assert (N : is_nan L = false).
  { unfold xyz_to_luv_px in E. destruct (xyz_uv_var_px _) as [u v].
    injection E as <- _ _. apply nan_to_num_not_nan. }
  cbn [luv_to_lch_px]. apply lch_to_husl_px_lightness, N.
Qed.

Lemma lch_to_husl_px_saturation L C H :
  let s := chan (lch_to_husl_px lm k (L, C, H)) 1 in
  ((L_MAX <? L) || (L <? L_MIN) = true -> s = 0) /\
  ((L_MAX <? L) || (L <? L_MIN) = false -> s = C / max_chroma_px lm k L H * 100.0).
Proof.
  cbn [lch_to_husl_px chan]. destruct ((L_MAX <? L) || (L <? L_MIN)); split;
    intros E; try discriminate E; reflexivity.
Qed.

Lemma luv_to_lch_px_hue scalar L U V :
  let h := degrees (arctan2 lm V (if U =? -0.0 then 0.0 else U)) in
  (-360 <=? h) = true -> (h <=? 360) = true ->
  (0 <=? chan (luv_to_lch_px lm scalar (L, U, V)) 2) = true /\
  (chan (luv_to_lch_px lm scalar (L, U, V)) 2 <=? 360) = true.
Proof.
  cbn [luv_to_lch_px chan].
  set (h := degrees (arctan2 lm V (if U =? -0.0 then 0.0 else U))). cbn zeta.
  intros Hlo Hhi. destruct (h <? 0.0) eqn:Neg.
  - apply add_360_range; assumption.
  - split; [|exact Hhi].
    destruct (FloatOrderFacts.leb_not_nan _ _ Hhi) as [N _].
    apply FloatOrderFacts.not_ltb_leb; [exact N|reflexivity|exact Neg].
Qed.

End Ranges.

(** C3, amended: every pixel of the result of the RGB-to-HUSL kernel has a
    lightness in [0, 100], for every input; the LCH-to-HUSL stage keeps the
    hue, gives a lightness in [0, 100] for every lightness that is not NaN,
    and gives the saturation 0 at the lightness extremes and
    [100 * C / max_chroma], with a maximum chroma that is not negative,
    elsewhere; the LUV-to-LCH stage, in its scalar branch as in its array
    branch, adds 360 once to every negative hue and keeps every other hue,
    so that every angle of [-360, 360] degrees, as [arctan2] gives them,
    becomes a hue in the closed interval [0, 360]. *)
Theorem husl_channel_ranges (lm : Libm) (k : Constants) :
  (forall (a : ndarray) (e : float),
     (length (shape a) <= 3)%nat ->
     In e (_channel (rows_of (data (_rgb_to_husl lm k a))) 2) ->
     (0 <=? e) = true /\ (e <=? 100) = true) /\
  (forall L C H : float,
     let out := lch_to_husl_px lm k (L, C, H) in
     chan out 0 = H /\
     (is_nan L = false -> (0 <=? chan out 2) = true /\ (chan out 2 <=? 100) = true) /\
     ((L_MAX <? L) || (L <? L_MIN) = true -> chan out 1 = 0) /\
     ((L_MAX <? L) || (L <? L_MIN) = false ->
        chan out 1 = C / max_chroma_px lm k L H * 100.0) /\
     (0 <=? max_chroma_px lm k L H) = true) /\
  (forall (scalar : bool) (L U V : float),
     let h := degrees (arctan2 lm V (if U =? -0.0 then 0.0 else U)) in
     let hue := chan (luv_to_lch_px lm scalar (L, U, V)) 2 in
     hue = (if h <? 0.0 then h + 360.0 else h) /\
     ((-360 <=? h) = true -> (h <=? 360) = true ->
      (0 <=? hue) = true /\ (hue <=? 360) = true)) /\
  (forall a : ndarray,
     _luv_to_lch lm a
     = reshape (map (luv_to_lch_px lm (length (shape a) =? 1)%nat) (rows_of (data a)))
         (shape a) /\
     _lch_to_husl lm k a
     = reshape (map (lch_to_husl_px lm k) (rows_of (data a))) (shape a)).
Proof.
  split; [|split; [|split]].
  - intros a e Hr He. rewrite _rgb_to_husl_data in He by exact Hr.
    rewrite rows_of_flat_of in He. unfold _channel in He. rewrite map_map in He.
    apply in_map_iff in He as (p & <- & _). apply rgb_to_husl_px_lightness.
  - intros L C H. cbn zeta. split; [reflexivity|].
    split; [apply lch_to_husl_px_lightness|].
    split; [apply lch_to_husl_px_saturation|].
    split; [apply lch_to_husl_px_saturation|apply max_chroma_px_nonneg].
  - intros scalar L U V. cbn zeta. split; [reflexivity|]. apply luv_to_lch_px_hue.
  - intros a. split; [apply _luv_to_lch_px|apply _lch_to_husl_px].
Qed.

(** * Part III: further properties of the code *)

(** ** Shapes through the matrix product and the pipelines *)

Lemma _dot_product_squeezed (lm : Libm) scalars a sh :
  shape a = sh ++ [3%nat] -> (length sh <= 2)%nat ->
  shape (_dot_product lm scalars a) = shape (squeeze a).
Proof.
  intros Hs Hr. destruct scalars as [[s0 s1] s2].
  unfold _dot_product, dstack3, squeeze, sum_scaled, atleast_3d. cbn [shape data].
  rewrite Hs, removelast_last.
  destruct sh as [|n1 [|n2 [|n3 sh]]]; simpl in Hr; try lia; cbn;
    repeat match goal with |- context [(?n =? 1)%nat] => destruct (n =? 1)%nat end;
    reflexivity.
Qed.

(** X1: on an array of one to three dimensions whose last dimension is 3,
    [_rgb_to_husl] and [_husl_to_rgb] return the shape of their input with
    every dimension of length one removed, and as many elements as they were
    given; [_rgb_to_hue] returns the leading dimensions, those of length one
    removed, and one element per pixel.  A batch of one pixel, of shape
    [(1, 3)], therefore comes back as [(3,)], and its hue as a
    zero-dimensional array. *)
Theorem pipeline_shapes (lm : Libm) (k : Constants) (a : ndarray) (sh : list nat)
    (m : nat) :
  shape a = sh ++ [3%nat] -> (length sh <= 2)%nat -> length (data a) = (3 * m)%nat ->
  let squeezed := List.filter (fun n => negb (n =? 1)%nat) in
  (shape (_rgb_to_husl lm k a) = squeezed (shape a) /\
   length (data (_rgb_to_husl lm k a)) = (3 * m)%nat) /\
  (shape (_husl_to_rgb lm k a) = squeezed (shape a) /\
   length (data (_husl_to_rgb lm k a)) = (3 * m)%nat) /\
  (shape (_rgb_to_hue lm k a) = squeezed sh /\
   length (data (_rgb_to_hue lm k a)) = m).
Proof.
  intros Hs Hr Hd squeezed.
  assert (Hrank : (length (shape a) <= 3)%nat) by (rewrite Hs, length_app; simpl; lia).
  assert (H1 : shape (_rgb_to_husl lm k a) = squeezed (shape a)).
  { unfold _rgb_to_husl, _rgb_to_lch, _lch_to_husl, _luv_to_lch, _xyz_to_luv, _rgb_to_xyz.
    cbn [shape reshape].
    destruct (xyz_uv_var _) as [u v]. cbn [shape reshape].
    rewrite (_dot_product_squeezed lm (M_INV k) (_to_linear lm a) sh); [reflexivity| |exact Hr].
    exact Hs. }
  split; [|split].
  - split; [exact H1|].
    rewrite _rgb_to_husl_data by exact Hrank.
    rewrite flat_of_length, length_map. f_equal. apply rows_of_length, Hd.
  - split.
    + unfold _husl_to_rgb, _lch_to_rgb, _xyz_to_rgb, _from_linear. cbn [shape].
      rewrite (_dot_product_squeezed lm (M k) _ sh); [| |exact Hr].
      * unfold squeeze, _luv_to_xyz. destruct (luv_uv_var _ _) as [u v]. reflexivity.
      * unfold _luv_to_xyz. destruct (luv_uv_var _ _) as [u v]. exact Hs.
    + rewrite _husl_to_rgb_data by exact Hrank.
      rewrite flat_of_length, length_map. f_equal. apply rows_of_length, Hd.
  - split.
    + unfold _rgb_to_hue, channel_nd. cbn [shape]. rewrite H1, Hs.
      unfold squeezed. rewrite List.filter_app. cbn [List.filter Nat.eqb negb].
      apply removelast_last.
    + rewrite _rgb_to_hue_data by exact Hrank. rewrite length_map.
      apply rows_of_length, Hd.
Qed.

(** One black pixel in a batch of one. *)
Lemma pipeline_shapes_witness :
  let a := {| shape := [1; 3]%nat; data := [0; 0; 0] |} in
  (shape (_rgb_to_husl libm_table husl_constants a) = [3]%nat /\
   length (data (_rgb_to_husl libm_table husl_constants a)) = 3%nat) /\
  (shape (_husl_to_rgb libm_table husl_constants a) = [3]%nat /\
   length (data (_husl_to_rgb libm_table husl_constants a)) = 3%nat) /\
  (shape (_rgb_to_hue libm_table husl_constants a) = [] /\
   length (data (_rgb_to_hue libm_table husl_constants a)) = 1%nat).
Proof.
  intros a.
  apply (pipeline_shapes libm_table husl_constants a [1%nat] 1%nat eq_refl);
    [simpl; lia|reflexivity].
Defined.

(** X2: on an array of one to three dimensions whose last dimension is 3,
    [_dot_product] returns the shape of its input without the dimensions of
    length one, and its rows are the three sums of products of each input
    row with the three rows of the matrix. *)
Theorem dot_product_shape_up_to_three_dimensions (lm : Libm)
    (scalars : pixel * pixel * pixel) (a : ndarray) (sh : list nat) :
  shape a = sh ++ [3%nat] -> (length sh <= 2)%nat ->
  shape (_dot_product lm scalars a) = List.filter (fun n => negb (n =? 1)%nat) (shape a) /\
  rows_of (data (_dot_product lm scalars a))
  = map (fun p => (add_reduce lm [chan scalars.1.1 0 * chan p 0;
                                  chan scalars.1.1 1 * chan p 1;
                                  chan scalars.1.1 2 * chan p 2],
                   add_reduce lm [chan scalars.1.2 0 * chan p 0;
                                  chan scalars.1.2 1 * chan p 1;
                                  chan scalars.1.2 2 * chan p 2],
                   add_reduce lm [chan scalars.2 0 * chan p 0;
                                  chan scalars.2 1 * chan p 1;
                                  chan scalars.2 2 * chan p 2]))
      (rows_of (data a)).
Proof.
  intros Hs Hr. split.
  - rewrite (_dot_product_squeezed lm scalars a sh Hs Hr). reflexivity.
  - rewrite _dot_product_data by (rewrite Hs, length_app; simpl; lia).
    rewrite rows_of_flat_of. destruct scalars as [[s0 s1] s2]. reflexivity.
Qed.

(** An image of one row and two columns. *)
Lemma dot_product_shape_up_to_three_dimensions_witness :
  let a := {| shape := [1; 2; 3]%nat; data := [0.5; 0.25; 1; 0; 0; 1] |} in
  shape (_dot_product libm_table (M husl_constants) a) = [2; 3]%nat /\
  length (rows_of (data (_dot_product libm_table (M husl_constants) a))) = 2%nat.
Proof.
  intros a.
  destruct (dot_product_shape_up_to_three_dimensions libm_table (M husl_constants) a
              [1; 2]%nat eq_refl) as [Hs Hd]; [simpl; lia|].
  split; [exact Hs|]. rewrite Hd. reflexivity.
Defined.

Lemma blocks_cons {A} (n : nat) (l : list A) :
  l <> [] -> exists rest, blocks n l = take n l :: rest.
Proof.
  destruct l as [|x l]; [congruence|]. intros _. unfold blocks. cbn [length blocks_fuel].
  eexists. reflexivity.
Qed.

(** X3: on a four-dimensional array of shape [(p, q, r, 3)] [np.dstack]
    joins the three sums along the third axis: the shape of the result of
    [_dot_product] is [(p, q, 3 r)] without its dimensions of length one,
    and the data begin with the first sum of the first [r] pixels, followed
    by their second and by their third sum, so that for [r] of at least two
    the three sums of a pixel are not next to each other. *)
Theorem dot_product_four_dimensions (lm : Libm) (scalars : pixel * pixel * pixel)
    (a : ndarray) (p q r : nat) :
  shape a = [p; q; r; 3]%nat -> (1 <= r <= length (rows_of (data a)))%nat ->
  shape (_dot_product lm scalars a)
  = List.filter (fun n => negb (n =? 1)%nat) [p; q; 3 * r]%nat /\
  take (3 * r) (data (_dot_product lm scalars a))
  = map (fun px => add_reduce lm [chan scalars.1.1 0 * chan px 0;
                                  chan scalars.1.1 1 * chan px 1;
                                  chan scalars.1.1 2 * chan px 2])
        (take r (rows_of (data a)))
    ++ map (fun px => add_reduce lm [chan scalars.1.2 0 * chan px 0;
                                     chan scalars.1.2 1 * chan px 1;
                                     chan scalars.1.2 2 * chan px 2])
         (take r (rows_of (data a)))
    ++ map (fun px => add_reduce lm [chan scalars.2 0 * chan px 0;
                                     chan scalars.2 1 * chan px 1;
                                     chan scalars.2 2 * chan px 2])
         (take r (rows_of (data a))).
Proof.
  intros Hs [Hr1 Hr2]. destruct scalars as [[s0 s1] s2].
  unfold _dot_product, dstack3, squeeze, sum_scaled, atleast_3d. cbn [shape data].
  rewrite Hs. cbn [removelast shape data fold_right fst snd].
  split; [reflexivity|].
  rewrite Nat.mul_1_r.
  set (rows := rows_of (data a)) in *.
  assert (Hne : rows <> []) by (destruct rows; [simpl in Hr2; lia|congruence]).
  assert (Hb : forall f : pixel -> float,
             exists rest, blocks r (map f rows) = map f (take r rows) :: rest).
  { intros f. destruct (blocks_cons r (map f rows)) as [rest E].
    - destruct rows; [congruence|discriminate].
    - exists rest. rewrite E, firstn_map. reflexivity. }
  destruct (Hb (fun px => add_reduce lm [chan s0 0 * chan px 0; chan s0 1 * chan px 1;
                                         chan s0 2 * chan px 2])) as [rx ->].
  destruct (Hb (fun px => add_reduce lm [chan s1 0 * chan px 0; chan s1 1 * chan px 1;
                                         chan s1 2 * chan px 2])) as [ry ->].
  destruct (Hb (fun px => add_reduce lm [chan s2 0 * chan px 0; chan s2 1 * chan px 1;
                                         chan s2 2 * chan px 2])) as [rz ->].
  cbn [zip zip_with concat fst snd].
  rewrite take_app_length'; [rewrite !app_assoc; reflexivity|].
  rewrite !length_app, !length_map, !length_take. lia.
Qed.

(** Two pixels along the third axis: the six results are the two first
    sums, the two second sums and the two third sums. *)
Lemma dot_product_four_dimensions_witness :
  let a := {| shape := [1; 1; 2; 3]%nat; data := [1; 0; 0; 0; 1; 0] |} in
  let I3 : pixel * pixel * pixel := ((1, 0, 0), (0, 1, 0), (0, 0, 1)) in
  shape (_dot_product libm_table I3 a) = [6]%nat /\
  take 6 (data (_dot_product libm_table I3 a)) = [1; 0; 0; 1; 0; 0].
Proof.
  intros a I3.
  destruct (dot_product_four_dimensions libm_table I3 a 1 1 2 eq_refl) as [Hs Hd];
    [simpl; lia|].
  split; [exact Hs|]. change (3 * 2)%nat with 6%nat in Hd. rewrite Hd.
  vm_compute. reflexivity.
Defined.

(** ** The LUV-to-LCH stage *)

(** X4: the scalar branch and the array branch of [_luv_to_lch] give a pixel
    the same lightness and the same hue.  The chroma is the square root of
    the sum of the squares of U and V in the array branch, and [pow] of the C
    library at that sum and the exponent 0.5 in the scalar branch, which a
    single pixel given as an array of shape [(3,)] takes: the two branches
    agree on a pixel exactly when the two routines agree on its sum. *)
Theorem luv_to_lch_scalar_and_array_branches (lm : Libm) (a : ndarray) (i : nat)
    (L U V : float) :
  rows_of (data a) !! i = Some (L, U, V) -> length (shape a) <> 1%nat ->
  let u := if U =? -0.0 then 0.0 else U in
  let s := u * u + V * V in
  exists h,
    rows_of (data (_luv_to_lch lm a)) !! i = Some (L, sqrt s, h) /\
    _luv_to_lch lm {| shape := [3]%nat; data := [L; U; V] |}
    = {| shape := [3]%nat; data := [L; power lm s 0.5; h] |}.
Proof.
  intros Hi Hrank. cbn zeta. exists (chan (luv_to_lch_px lm false (L, U, V)) 2).
  rewrite !_luv_to_lch_px. cbn [data shape reshape rows_of map flat_of flat_map app].
  apply Nat.eqb_neq in Hrank. rewrite Hrank.
  rewrite rows_of_flat_of, (map_lookup _ _ _ _ Hi). split; reflexivity.
Qed.

(** The LUV values of the integer pixel (10, 9, 6), as the second row of a
    two-row array and alone: the two chromas differ in the last place. *)
Lemma luv_to_lch_scalar_and_array_branches_witness :
  let L := 0x1.3bb60f3e46d9fp+1 in
  let U := 0x1.e077dde0fc48ap-3 in
  let V := 0x1.92eeccb7ce17dp-1 in
  let a := {| shape := [2; 3]%nat; data := [0; 0; 0; L; U; V] |} in
  exists h,
    rows_of (data (_luv_to_lch libm_glibc a)) !! 1%nat
    = Some (L, 0x1.a474a5cecfb32p-1, h) /\
    _luv_to_lch libm_glibc {| shape := [3]%nat; data := [L; U; V] |}
    = {| shape := [3]%nat; data := [L; 0x1.a474a5cecfb31p-1; h] |}.
Proof.
  intros L U V a.
  apply (luv_to_lch_scalar_and_array_branches libm_glibc a 1 L U V);
    [reflexivity|discriminate].
Defined.

Lemma eqb_neg_zero_false u : (u =? -0.0) = false -> Prim2SF u <> S754_zero true.
Proof.
  intros H E. rewrite FloatAxioms.eqb_spec, E in H. vm_compute in H. discriminate.
Qed.

Lemma luv_neg_zero_px rows :
  luv_neg_zero rows
  = map (fun p => (chan p 0, (if chan p 1 =? -0.0 then 0.0 else chan p 1), chan p 2)) rows.
Proof.
  unfold luv_neg_zero, chan_fill, chan_set, _channel. pointwise.
  apply map_ext. intros [[L U] V]. reflexivity.
Qed.

(** X5: [_luv_to_lch] never passes a negative zero to [arctan2] as its
    second argument: after the first two statements no element of the U
    channel is the negative zero, and the result of the kernel is the same
    for any two versions of [arctan2] that differ only where the second
    argument is the negative zero. *)
Theorem luv_to_lch_never_passes_negative_zero (lm lm' : Libm) (a : ndarray) :
  (forall x y, power lm' x y = power lm x y) ->
  (forall y x, Prim2SF x <> S754_zero true -> arctan2 lm' y x = arctan2 lm y x) ->
  _luv_to_lch lm' a = _luv_to_lch lm a /\
  forall u, In u (_channel (luv_neg_zero (rows_of (data a))) 1) ->
            Prim2SF u <> S754_zero true.
Proof.
  intros Hp Ha. split.
  - rewrite !_luv_to_lch_px. f_equal. apply map_ext. intros [[L U] V].
    unfold luv_to_lch_px, pow_half. rewrite !Hp.
    rewrite Ha; [reflexivity|].
    destruct (U =? -0.0) eqn:E; [vm_compute; discriminate|].
    apply eqb_neg_zero_false, E.
  - intros u. rewrite luv_neg_zero_px. unfold _channel. rewrite map_map.
    intros (p & <- & _)%in_map_iff. cbn [chan].
    destruct (chan p 1 =? -0.0) eqn:E; [vm_compute; discriminate|].
    apply eqb_neg_zero_false, E.
Qed.

(** An [arctan2] that returns 42 at the negative zero, and an array whose
    first pixel has the negative zero in its U channel. *)
Lemma luv_to_lch_never_passes_negative_zero_witness :
  let lm' := {| sin := sin libm_table; cos := cos libm_table;
                arctan2 := fun y x => match Prim2SF x with
                                      | S754_zero true => 42
                                      | _ => arctan2 libm_table y x
                                      end;
                power := power libm_table; add_reduce := add_reduce libm_table |} in
  let a := {| shape := [2; 3]%nat; data := [50; -0.0; 0; 50; 1; -1e-300] |} in
  arctan2 lm' 0 (-0.0) = 42 /\
  _luv_to_lch lm' a = _luv_to_lch libm_table a /\
  forall u, In u (_channel (luv_neg_zero (rows_of (data a))) 1) ->
            Prim2SF u <> S754_zero true.
Proof.
  intros lm' a. split; [reflexivity|].
  apply (luv_to_lch_never_passes_negative_zero libm_table lm' a).
  - reflexivity.
  - intros y x H. cbn [arctan2 lm'].
    destruct (Prim2SF x) as [[|]| | |]; try reflexivity. congruence.
Defined.

Lemma luv_neg_zero_idempotent rows : luv_neg_zero (luv_neg_zero rows) = luv_neg_zero rows.
Proof.
  rewrite !luv_neg_zero_px, map_map. apply map_ext. intros [[L U] V]. cbn [chan].
  destruct (U =? -0.0) eqn:E; [reflexivity|]. rewrite E. reflexivity.
Qed.

Lemma _luv_to_lch_rows_neg_zero lm rank rows :
  _luv_to_lch_rows lm rank (luv_neg_zero rows) = _luv_to_lch_rows lm rank rows.
Proof.
  rewrite !_luv_to_lch_rows_px, luv_neg_zero_px, map_map. apply map_ext.
  intros [[L U] V]. cbn [chan luv_to_lch_px].
  destruct (U =? -0.0) eqn:E; [reflexivity|]. rewrite E. reflexivity.
Qed.

Lemma luv_neg_zero_numerically_equal rows :
  Forall2 (fun u u' => u' = u \/ (u =? 0) = true /\ u' = 0)
    (map (fun p : pixel => chan p 1) rows)
    (map (fun p : pixel => if chan p 1 =? -0.0 then 0.0 else chan p 1) rows).
Proof.
  induction rows as [|[[L U] V] rows IH]; [constructor|].
  cbn [map chan]. constructor; [|exact IH].
  destruct (U =? -0.0) eqn:E; [|left; reflexivity].
  right. split; [|reflexivity].
  rewrite FloatAxioms.eqb_spec in E |- *. exact E.
Qed.

(** X6: the footprint of [_luv_to_lch] in memory: the result is a new
    buffer at an address that was free, with the shape of the argument;
    every other array keeps its contents; in the buffer of the argument the
    L and V channels are unchanged, and an element of the U channel is
    unchanged or was a zero and now is the positive zero. *)
Theorem luv_to_lch_memory_frame (lm : Libm) (luv_nd : Memory.array_ref)
    (m : Memory.store) (buf : list float) :
  m !! Memory.base luv_nd = Some buf ->
  exists lch m' buf',
    Memory._luv_to_lch lm luv_nd m = Some (lch, m') /\
    m !! Memory.base lch = None /\
    Memory.ashape lch = Memory.ashape luv_nd /\
    (forall a, a <> Memory.base luv_nd -> a <> Memory.base lch -> m' !! a = m !! a) /\
    m' !! Memory.base luv_nd = Some buf' /\
    _channel (rows_of buf') 0 = _channel (rows_of buf) 0 /\
    _channel (rows_of buf') 2 = _channel (rows_of buf) 2 /\
    Forall2 (fun u u' => u' = u \/ (u =? 0) = true /\ u' = 0)
      (_channel (rows_of buf) 1) (_channel (rows_of buf') 1).
Proof.
  intros Hb. unfold Memory._luv_to_lch. rewrite Hb.
  set (m1 := <[Memory.base luv_nd := _]> m).
  set (l := fresh (dom m1)).
  assert (Hl : m1 !! l = None) by (apply not_elem_of_dom, is_fresh).
  assert (Hne : l <> Memory.base luv_nd).
  { intros E. rewrite E in Hl. unfold m1 in Hl. rewrite lookup_insert_eq in Hl.
    discriminate. }
  eexists _, _, _. split; [reflexivity|]. cbn [Memory.base Memory.ashape].
  split. { unfold m1 in Hl. rewrite lookup_insert_ne in Hl by congruence. exact Hl. }
  split; [reflexivity|]. split.
  { intros a Ha1 Ha2. rewrite lookup_insert_ne by congruence.
    unfold m1. rewrite lookup_insert_ne by congruence. reflexivity. }
  split. { rewrite lookup_insert_ne by exact Hne. unfold m1. apply lookup_insert_eq. }
  rewrite rows_of_flat_of, luv_neg_zero_px. unfold _channel. rewrite !map_map.
  cbn [chan]. split; [reflexivity|]. split; [reflexivity|].
  apply luv_neg_zero_numerically_equal.
Qed.

(** A store with the argument and one other array. *)
Lemma luv_to_lch_memory_frame_witness :
  let luv_nd := {| Memory.base := 1%positive; Memory.ashape := [1; 3]%nat |} in
  let m : Memory.store := {[ 1%positive := [50.0; -0.0; 1.0]; 2%positive := [7.0] ]} in
  exists lch m' buf',
    Memory._luv_to_lch libm_table luv_nd m = Some (lch, m') /\
    m !! Memory.base lch = None /\
    Memory.ashape lch = [1; 3]%nat /\
    (forall a, a <> 1%positive -> a <> Memory.base lch -> m' !! a = m !! a) /\
    m' !! 1%positive = Some buf' /\
    _channel (rows_of buf') 0 = [50.0] /\
    _channel (rows_of buf') 2 = [1.0] /\
    Forall2 (fun u u' => u' = u \/ (u =? 0) = true /\ u' = 0)
      [-0.0] (_channel (rows_of buf') 1).
Proof.
  intros luv_nd m.
  exact (luv_to_lch_memory_frame libm_table luv_nd m [50.0; -0.0; 1.0] eq_refl).
Defined.

(** X7: a second call of [_luv_to_lch] on the same argument leaves the
    buffer of the argument as the first call left it, returns the same
    values in another new buffer, and does not touch the result of the first
    call. *)
Theorem luv_to_lch_called_twice (lm : Libm) (luv_nd : Memory.array_ref)
    (m : Memory.store) (buf : list float) :
  m !! Memory.base luv_nd = Some buf ->
  exists lch1 m1 lch2 m2,
    Memory._luv_to_lch lm luv_nd m = Some (lch1, m1) /\
    Memory._luv_to_lch lm luv_nd m1 = Some (lch2, m2) /\
    Memory.base lch2 <> Memory.base lch1 /\
    m2 !! Memory.base luv_nd = m1 !! Memory.base luv_nd /\
    m2 !! Memory.base lch2 = m1 !! Memory.base lch1 /\
    m2 !! Memory.base lch1 = m1 !! Memory.base lch1.
Proof.
  intros Hb.
  destruct (memory_luv_to_lch_result lm luv_nd m buf Hb)
    as (lch1 & m1 & R1 & N1 & Hr1 & Ha1).
  destruct (memory_luv_to_lch_result lm luv_nd m1 _ Ha1)
    as (lch2 & m2 & R2 & N2 & Hr2 & Ha2).
  exists lch1, m1, lch2, m2. split; [exact R1|]. split; [exact R2|].
  assert (F : m1 !! Memory.base lch2 = None).
  { unfold Memory._luv_to_lch in R2. rewrite Ha1 in R2. injection R2 as <- <-.
    cbn [Memory.base].
    match goal with |- _ !! fresh (dom ?mm) = None =>
      pose proof (is_fresh (dom mm)) as F end.
    apply not_elem_of_dom in F. rewrite lookup_insert_ne in F; [exact F|].
    intros E. rewrite <- E, lookup_insert_eq in F. discriminate. }
  assert (D : Memory.base lch2 <> Memory.base lch1).
  { intros E. rewrite E, Hr1 in F. discriminate. }
  split; [exact D|]. split.
  - rewrite Ha2, Ha1, rows_of_flat_of, luv_neg_zero_idempotent. reflexivity.
  - split.
    + rewrite Hr2, Hr1. unfold _luv_to_lch. cbn [data shape reshape].
      rewrite rows_of_flat_of, _luv_to_lch_rows_neg_zero. reflexivity.
    + unfold Memory._luv_to_lch in R2. rewrite Ha1 in R2. injection R2 as E2 <-.
      rewrite <- E2 in D. cbn [Memory.base] in D.
      rewrite lookup_insert_ne by exact D.
      rewrite lookup_insert_ne by (intros E; apply N1; symmetry; exact E). reflexivity.
Qed.

(** Two calls on an array whose U channel holds the negative zero. *)
Lemma luv_to_lch_called_twice_witness :
  let luv_nd := {| Memory.base := 1%positive; Memory.ashape := [1; 3]%nat |} in
  let m : Memory.store := {[ 1%positive := [50.0; -0.0; 1.0] ]} in
  exists lch1 m1 lch2 m2,
    Memory._luv_to_lch libm_table luv_nd m = Some (lch1, m1) /\
    Memory._luv_to_lch libm_table luv_nd m1 = Some (lch2, m2) /\
    Memory.base lch2 <> Memory.base lch1 /\
    m2 !! 1%positive = m1 !! 1%positive /\
    m2 !! Memory.base lch2 = m1 !! Memory.base lch1 /\
    m2 !! Memory.base lch1 = m1 !! Memory.base lch1.
Proof.
  intros luv_nd m.
  exact (luv_to_lch_called_twice libm_table luv_nd m [50.0; -0.0; 1.0] eq_refl).
Defined.

(** ** HUSL and LCH *)

Lemma lightness_extremes_idempotent l :
  lightness_extremes (lightness_extremes l) = lightness_extremes l.
Proof.
  unfold lightness_extremes.
  destruct (l <? L_MIN) eqn:D; [reflexivity|].
  destruct (L_MAX <? l) eqn:Li; [reflexivity|]. rewrite D, Li. reflexivity.
Qed.

(** X8: the round trips between HUSL and LCH keep the hue of every pixel
    and send its lightness to 0 below 0.01, to 100 above 99.99 and to itself
    otherwise; a second round trip changes neither; at a lightness extreme
    the saturation, or the chroma, comes back as 0. *)
Theorem husl_lch_round_trip (lm : Libm) (k : Constants) (a : ndarray) (i : nat)
    (x y z : float) :
  rows_of (data a) !! i = Some (x, y, z) ->
  let there_and_back b := _lch_to_husl lm k (_husl_to_lch lm k b) in
  let back_and_there b := _husl_to_lch lm k (_lch_to_husl lm k b) in
  (exists s,
     rows_of (data (there_and_back a)) !! i = Some (x, s, lightness_extremes z) /\
     ((z <? L_MIN) || (L_MAX <? z) = true -> s = 0)) /\
  (exists s,
     rows_of (data (there_and_back (there_and_back a))) !! i
     = Some (x, s, lightness_extremes z)) /\
  (exists c,
     rows_of (data (back_and_there a)) !! i = Some (lightness_extremes x, c, z) /\
     ((x <? L_MIN) || (L_MAX <? x) = true -> c = 0)) /\
  (exists c,
     rows_of (data (back_and_there (back_and_there a))) !! i
     = Some (lightness_extremes x, c, z)).
Proof.
  intros Hi there_and_back back_and_there.
  assert (T : forall b u v w, rows_of (data b) !! i = Some (u, v, w) ->
            exists s, rows_of (data (there_and_back b)) !! i
                      = Some (u, s, lightness_extremes w) /\
                      ((w <? L_MIN) || (L_MAX <? w) = true -> s = 0)).
  { intros b u v w Hb. unfold there_and_back.
    rewrite _lch_to_husl_px, _husl_to_lch_px. cbn [data reshape].
    rewrite !rows_of_flat_of, map_map. rewrite (map_lookup _ _ _ _ Hb).
    unfold husl_to_lch_px, lch_to_husl_px, lightness_extremes.
    destruct (w <? L_MIN) eqn:D.
    - eexists. split; [reflexivity|]. intros _. reflexivity.
    - destruct (L_MAX <? w) eqn:Li.
      + eexists. split; [reflexivity|]. intros _. reflexivity.
      + rewrite D, Li. eexists. split; [reflexivity|]. discriminate. }
  assert (B : forall b u v w, rows_of (data b) !! i = Some (u, v, w) ->
            exists c, rows_of (data (back_and_there b)) !! i
                      = Some (lightness_extremes u, c, w) /\
                      ((u <? L_MIN) || (L_MAX <? u) = true -> c = 0)).
  { intros b u v w Hb. unfold back_and_there.
    rewrite _husl_to_lch_px, _lch_to_husl_px. cbn [data reshape].
    rewrite !rows_of_flat_of, map_map. rewrite (map_lookup _ _ _ _ Hb).
    unfold husl_to_lch_px, lch_to_husl_px, lightness_extremes.
    destruct (u <? L_MIN) eqn:D.
    - eexists. split; [reflexivity|]. intros _. reflexivity.
    - destruct (L_MAX <? u) eqn:Li.
      + eexists. split; [reflexivity|]. intros _. reflexivity.
      + rewrite D, Li. eexists. split; [reflexivity|]. discriminate. }
  split; [exact (T a x y z Hi)|]. split.
  - destruct (T a x y z Hi) as (s & Hs & _).
    destruct (T _ _ _ _ Hs) as (s' & Hs' & _).
    rewrite lightness_extremes_idempotent in Hs'. exists s'. exact Hs'.
  - split; [exact (B a x y z Hi)|].
    destruct (B a x y z Hi) as (c & Hc & _).
    destruct (B _ _ _ _ Hc) as (c' & Hc' & _).
    rewrite lightness_extremes_idempotent in Hc'. exists c'. exact Hc'.
Qed.

(** A pixel that is too light as a HUSL pixel and too dark as an LCH
    pixel. *)
Lemma husl_lch_round_trip_witness :
  let a := {| shape := [1; 3]%nat; data := [0.001; 7; 99.995] |} in
  let there_and_back b :=
    _lch_to_husl libm_table husl_constants (_husl_to_lch libm_table husl_constants b) in
  let back_and_there b :=
    _husl_to_lch libm_table husl_constants (_lch_to_husl libm_table husl_constants b) in
  (exists s,
     rows_of (data (there_and_back a)) !! 0%nat = Some (0.001, s, 100) /\
     (true = true -> s = 0)) /\
  (exists s,
     rows_of (data (there_and_back (there_and_back a))) !! 0%nat = Some (0.001, s, 100)) /\
  (exists c,
     rows_of (data (back_and_there a)) !! 0%nat = Some (0, c, 99.995) /\
     (true = true -> c = 0)) /\
  (exists c,
     rows_of (data (back_and_there (back_and_there a))) !! 0%nat = Some (0, c, 99.995)).
Proof.
  intros a there_and_back back_and_there.
  exact (husl_lch_round_trip libm_table husl_constants a 0 0.001 7 99.995 eq_refl).
Defined.

Lemma ltb_zero_class x : (x <? 0) = negb (sf_not_negative (Prim2SF x)).
Proof.
  rewrite ltb_spec. change (Prim2SF 0) with (S754_zero false).
  destruct (Prim2SF x) as [s|[|]| |[|] m e]; reflexivity.
Qed.

Lemma binary_round_aux_not_negative m e l :
  sf_not_negative (binary_round_aux prec emax false m e l) = true.
Proof.
  unfold binary_round_aux.
  destruct (shr_fexp prec emax m e l) as [mrs' e'].
  destruct (shr_fexp prec emax _ e' loc_Exact) as [mrs'' e''].
  destruct (shr_m mrs''); [reflexivity| |reflexivity].
  destruct (IntDef.Z.leb _ _); reflexivity.
Qed.

Lemma mul_not_negative x y :
  (x <? 0) = false -> (y <? 0) = false -> (x * y <? 0) = false.
Proof.
  rewrite !ltb_zero_class, mul_spec. unfold SF64mul, SFmul.
  destruct (Prim2SF x) as [sx|[|]| |[|] mx ex], (Prim2SF y) as [sy|[|]| |[|] my ey];
    cbn [sf_not_negative negb xorb]; try reflexivity; try discriminate.
  intros _ _. rewrite binary_round_aux_not_negative. reflexivity.
Qed.

Lemma eqb_zero_class x :
  (x =? 0) = match Prim2SF x with S754_zero _ => true | _ => false end.
Proof.
  rewrite FloatAxioms.eqb_spec. change (Prim2SF 0) with (S754_zero false).
  destruct (Prim2SF x) as [s|[|]| |[|] m e]; reflexivity.
Qed.

Lemma div_not_negative x y :
  (x <? 0) = false -> (y <? 0) = false -> (y =? 0) = false -> (x / y <? 0) = false.
Proof.
  rewrite !ltb_zero_class, eqb_zero_class, div_spec. unfold SF64div, SFdiv.
  destruct (Prim2SF x) as [sx|[|]| |[|] mx ex], (Prim2SF y) as [sy|[|]| |[|] my ey];
    cbn [sf_not_negative negb xorb]; try reflexivity; try discriminate.
  intros _ _ _.
  match goal with
  | |- context [SFdiv_core_binary ?a ?b ?c ?d ?e ?f] =>
      destruct (SFdiv_core_binary a b c d e f) as [[mz ez] lz]
  end.
  rewrite binary_round_aux_not_negative. reflexivity.
Qed.

Lemma leb_zero_not_negative x : (0 <=? x) = true -> (x <? 0) = false.
Proof.
  rewrite ltb_zero_class, leb_spec. change (Prim2SF 0) with (S754_zero false).
  destruct (Prim2SF x) as [s|[|]| |[|] m e]; cbn; congruence.
Qed.

(** X9: for a pixel whose saturation is not below zero, the chroma that
    [_husl_to_lch] computes is not below zero; for a pixel whose chroma is
    not below zero, the saturation that [_lch_to_husl] computes can be below
    zero only where the maximum chroma is a zero, which the division turns
    into an infinity of the sign of that zero. *)
Theorem saturation_and_chroma_never_negative (lm : Libm) (k : Constants) (a : ndarray)
    (i : nat) (x y z : float) :
  rows_of (data a) !! i = Some (x, y, z) -> (y <? 0) = false ->
  (exists c,
     _channel (rows_of (data (_husl_to_lch lm k a))) 1 !! i = Some c /\
     (c <? 0) = false) /\
  (exists s,
     _channel (rows_of (data (_lch_to_husl lm k a))) 1 !! i = Some s /\
     ((s <? 0) = false \/ (max_chroma_px lm k x z =? 0) = true)).
Proof.
  intros Hi Hy.
  assert (Hm : forall L H, (max_chroma_px lm k L H <? 0) = false)
    by (intros L H; apply leb_zero_not_negative, max_chroma_px_nonneg).
  rewrite _lch_to_husl_px, _husl_to_lch_px. cbn [data reshape].
  rewrite !rows_of_flat_of. unfold _channel. rewrite !map_map.
  rewrite !(map_lookup _ _ _ _ Hi). split.
  - eexists. split; [reflexivity|]. cbn [husl_to_lch_px chan].
    destruct (z <? L_MIN); [reflexivity|]. destruct (L_MAX <? z); [reflexivity|].
    apply mul_not_negative; [|exact Hy].
    apply div_not_negative; [apply Hm|reflexivity|reflexivity].
  - eexists. split; [reflexivity|]. cbn [lch_to_husl_px chan].
    destruct (negb _); [|left; reflexivity].
    destruct (max_chroma_px lm k x z =? 0) eqn:E; [right; reflexivity|left].
    apply mul_not_negative; [|reflexivity].
    apply div_not_negative; [exact Hy|apply Hm|exact E].
Qed.

(** A pixel of middle lightness with a positive second channel. *)
Lemma saturation_and_chroma_never_negative_witness :
  let a := {| shape := [1; 3]%nat; data := [50; 20; 50] |} in
  (exists c,
     _channel (rows_of (data (_husl_to_lch libm_table husl_constants a))) 1 !! 0%nat
     = Some c /\ (c <? 0) = false) /\
  (exists s,
     _channel (rows_of (data (_lch_to_husl libm_table husl_constants a))) 1 !! 0%nat
     = Some s /\
     ((s <? 0) = false \/ (max_chroma_px libm_table husl_constants 50 50 =? 0) = true)).
Proof.
  intros a.
  apply (saturation_and_chroma_never_negative libm_table husl_constants a 0 50 20 50);
    reflexivity.
Defined.

Lemma zero_or_nan_class x :
  zero_or_nan x <-> match Prim2SF x with S754_zero _ | S754_nan => True | _ => False end.
Proof.
  unfold zero_or_nan. rewrite eqb_zero_Prim2SF, is_nan_Prim2SF.
  destruct (Prim2SF x) as [s|s| |s m e]; split; try tauto; eauto;
    intros [(s' & H)|H]; discriminate H.
Qed.

Lemma zero_or_nan_mul_l x a : zero_or_nan x -> zero_or_nan (x * a).
Proof.
  rewrite !zero_or_nan_class, mul_spec.
  destruct (Prim2SF x) as [s|s| |s m e]; try tauto; intros _;
    destruct (Prim2SF a); exact I.
Qed.

Lemma zero_or_nan_mul_r a x : zero_or_nan x -> zero_or_nan (a * x).
Proof.
  rewrite !zero_or_nan_class, mul_spec.
  destruct (Prim2SF x) as [s|s| |s m e]; try tauto; intros _;
    destruct (Prim2SF a); exact I.
Qed.

Lemma zero_or_nan_div_l x a : zero_or_nan x -> zero_or_nan (x / a).
Proof.
  rewrite !zero_or_nan_class, div_spec.
  destruct (Prim2SF x) as [s|s| |s m e]; try tauto; intros _;
    destruct (Prim2SF a); exact I.
Qed.

(** X10: a pixel without colour gets no colour: where the saturation is a
    zero, the chroma of [_husl_to_lch] is a zero or NaN; where the chroma is
    a zero, the saturation of [_lch_to_husl] and the U and V of
    [_lch_to_luv] are zeros or NaN, and [_lch_to_luv] keeps the lightness;
    whatever the hue and whatever [sin] and [cos] return. *)
Theorem achromatic_stays_achromatic (lm : Libm) (k : Constants) (a : ndarray) (i : nat)
    (x y z : float) :
  rows_of (data a) !! i = Some (x, y, z) -> (y =? 0) = true ->
  (exists c, _channel (rows_of (data (_husl_to_lch lm k a))) 1 !! i = Some c /\
             zero_or_nan c) /\
  (exists s, _channel (rows_of (data (_lch_to_husl lm k a))) 1 !! i = Some s /\
             zero_or_nan s) /\
  (exists u v, rows_of (data (_lch_to_luv lm a)) !! i = Some (x, u, v) /\
               zero_or_nan u /\ zero_or_nan v).
Proof.
  intros Hi Hy.
  assert (Z0 : zero_or_nan 0) by (left; reflexivity).
  assert (Zy : zero_or_nan y) by (left; exact Hy).
  rewrite _husl_to_lch_px, _lch_to_husl_px, _lch_to_luv_px. cbn [data reshape].
  rewrite !rows_of_flat_of. unfold _channel. rewrite !map_map.
  rewrite !(map_lookup _ _ _ _ Hi). split; [|split].
  - eexists. split; [reflexivity|]. cbn [husl_to_lch_px chan].
    destruct (z <? L_MIN); [exact Z0|]. destruct (L_MAX <? z); [exact Z0|].
    apply zero_or_nan_mul_r, Zy.
  - eexists. split; [reflexivity|]. cbn [lch_to_husl_px chan].
    destruct (negb _); [|exact Z0].
    apply zero_or_nan_mul_l, zero_or_nan_div_l, Zy.
  - eexists _, _. split; [reflexivity|]. split; apply zero_or_nan_mul_r, Zy.
Qed.

(** A grey pixel of middle lightness. *)
Lemma achromatic_stays_achromatic_witness :
  let a := {| shape := [1; 3]%nat; data := [50; 0; 50] |} in
  (exists c, _channel (rows_of (data (_husl_to_lch libm_table husl_constants a))) 1 !! 0%nat
             = Some c /\ zero_or_nan c) /\
  (exists s, _channel (rows_of (data (_lch_to_husl libm_table husl_constants a))) 1 !! 0%nat
             = Some s /\ zero_or_nan s) /\
  (exists u v, rows_of (data (_lch_to_luv libm_table a)) !! 0%nat = Some (50, u, v) /\
               zero_or_nan u /\ zero_or_nan v).
Proof.
  intros a.
  apply (achromatic_stays_achromatic libm_table husl_constants a 0 50 0 50); reflexivity.
Defined.

(** ** NaN and zero lightness *)

Lemma nan_mul_l x a : is_nan x = true -> is_nan (x * a) = true.
Proof. rewrite !is_nan_Prim2SF, mul_spec. intros ->. reflexivity. Qed.

Lemma nan_div_l x a : is_nan x = true -> is_nan (x / a) = true.
Proof. rewrite !is_nan_Prim2SF, div_spec. intros ->. reflexivity. Qed.

Lemma fold_minimum_infinity (cands : list float) :
  Forall (fun c => c = infinity) cands ->
  fold_left (fun acc len => np_minimum len acc) cands infinity = infinity.
Proof.
  induction 1 as [|c cands -> _ IH]; [reflexivity|]. cbn [fold_left].
  change (np_minimum infinity infinity) with infinity. exact IH.
Qed.

Lemma max_chroma_px_nan_lightness (lm : Libm) (k : Constants) L H :
  is_nan L = true -> max_chroma_px lm k L H = infinity.
Proof.
  intros N. unfold max_chroma_px. apply fold_minimum_infinity.
  unfold candidates, bounds_px. rewrite map_map. apply List.Forall_forall.
  intros x (v & <- & _)%in_map_iff.
  destruct v as [[[t1 t2] b] t]. cbn [fst snd line_px ray_length_px].
  unfold exclude.
  match goal with |- (if is_nan ?q then _ else _) = _ =>
    assert (Hq : is_nan q = true); [|rewrite Hq; reflexivity] end.
  apply nan_div_l, nan_div_l.
  destruct t.
  - apply nan_sub, nan_mul_l, nan_mul_l, N.
  - apply nan_mul_l, nan_mul_l, N.
Qed.

(** X11: for a pixel whose lightness is NaN every boundary line is excluded
    and [_max_lh_chroma] returns the positive infinity, not NaN, whatever
    the hue and whatever the numeric routines return. *)
Theorem max_lh_chroma_nan_lightness (lm : Libm) (k : Constants) (lch : list pixel)
    (i : nat) (L C H : float) :
  lch !! i = Some (L, C, H) -> is_nan L = true ->
  _max_lh_chroma lm k lch !! i = Some infinity.
Proof.
  intros Hi N. rewrite _max_lh_chroma_px, (map_lookup _ _ _ _ Hi). cbn [chan].
  rewrite max_chroma_px_nan_lightness by exact N. reflexivity.
Qed.

(** The second of two pixels has a NaN lightness. *)
Lemma max_lh_chroma_nan_lightness_witness :
  _max_lh_chroma libm_table husl_constants [(50, 10, 0); (nan, 10, 0)] !! 1%nat
  = Some infinity.
Proof.
  apply (max_lh_chroma_nan_lightness libm_table husl_constants _ 1 nan 10 0); reflexivity.
Defined.

Lemma zero_class_nan_to_num x s :
  Prim2SF x = S754_zero s -> (nan_to_num x =? 0) = true.
Proof.
  intros E. unfold nan_to_num.
  assert (N : is_nan x = false).
  { destruct (is_nan x) eqn:N; [|reflexivity].
    apply is_nan_Prim2SF in N. congruence. }
  assert (P : (x =? infinity) = false)
    by (rewrite FloatAxioms.eqb_spec, E; reflexivity).
  assert (Q : (x =? neg_infinity) = false)
    by (rewrite FloatAxioms.eqb_spec, E; reflexivity).
  rewrite N, P, Q. apply eqb_zero_Prim2SF. eauto.
Qed.

Lemma zero_mul_nan_to_num d : (nan_to_num (0 * 13 * d) =? 0) = true.
Proof.
  change (0 * 13) with 0.
  destruct (Prim2SF (0 * d)) as [s|s| |s m e] eqn:E.
  - eapply zero_class_nan_to_num, E.
  - rewrite mul_spec in E. change (Prim2SF 0) with (S754_zero false) in E.
    destruct (Prim2SF d); discriminate E.
  - rewrite nan_to_num_nan; [reflexivity|]. apply is_nan_Prim2SF, E.
  - rewrite mul_spec in E. change (Prim2SF 0) with (S754_zero false) in E.
    destruct (Prim2SF d); discriminate E.
Qed.

(** X12: a pixel whose lightness, as [_to_light] computes it from Y, is a
    zero becomes a row of zeros in [_xyz_to_luv]: the lightness is the
    positive zero and U and V are zeros, also where the chromaticity ratios
    are [0 / 0]. *)
Theorem xyz_to_luv_zero_lightness (lm : Libm) (k : Constants) (a : ndarray) (i : nat)
    (X Y Z l : float) :
  rows_of (data a) !! i = Some (X, Y, Z) ->
  _to_light lm k [Y] = [l] -> (l =? 0) = true ->
  exists u v,
    rows_of (data (_xyz_to_luv lm k a)) !! i = Some (0, u, v) /\
    (u =? 0) = true /\ (v =? 0) = true.
Proof.
  intros Hi Hl Hz. rewrite _to_light_px in Hl. injection Hl as Hl.
  rewrite _xyz_to_luv_px. cbn [data reshape]. rewrite rows_of_flat_of.
  rewrite (map_lookup _ _ _ _ Hi). unfold xyz_to_luv_px.
  destruct (xyz_uv_var_px (X, Y, Z)) as [uv vv]. cbn [chan]. rewrite Hl, Hz.
  eexists _, _. split; [reflexivity|]. split; apply zero_mul_nan_to_num.
Qed.

(** The black pixel. *)
Lemma xyz_to_luv_zero_lightness_witness :
  exists u v,
    rows_of (data (_xyz_to_luv libm_table husl_constants
                     {| shape := [1; 3]%nat; data := [0; 0; 0] |})) !! 0%nat
    = Some (0, u, v) /\
    (u =? 0) = true /\ (v =? 0) = true.
Proof.
  apply (xyz_to_luv_zero_lightness libm_table husl_constants _ 0 0 0 0 0); reflexivity.
Defined.

(** ** The transfer functions, element by element *)

Lemma nan_ltb_r c x : is_nan x = true -> (c <? x) = false.
Proof.
  intros N. destruct (c <? x) eqn:E; [|reflexivity].
  apply FloatOrderFacts.ltb_not_nan in E as [_ E]. congruence.
Qed.

Lemma nan_leb_l x c : is_nan x = true -> (x <=? c) = false.
Proof.
  intros N. destruct (x <=? c) eqn:E; [|reflexivity].
  apply FloatOrderFacts.leb_not_nan in E as [E _]. congruence.
Qed.

(** X13: [_to_linear] and [_from_linear] keep the shape and the number of
    elements and convert every element on its own, by exactly one of their
    two formulas: [_to_linear] takes the power formula above 0.04045 and
    [x / 12.92] otherwise, [_from_linear] takes [12.92 x] up to 0.0031308 and
    the power formula otherwise.  A NaN element therefore stays NaN in
    [_to_linear] and goes through the power formula in [_from_linear]. *)
Theorem gamma_transfer_elementwise (lm : Libm) (a : ndarray) (i : nat) (x : float) :
  data a !! i = Some x ->
  (shape (_to_linear lm a) = shape a /\
   length (data (_to_linear lm a)) = length (data a) /\
   data (_to_linear lm a) !! i
   = Some (if 0.04045 <? x then power lm ((x + 0.055) / (1 + 0.055)) 2.4 else x / 12.92)) /\
  (shape (_from_linear lm a) = shape a /\
   length (data (_from_linear lm a)) = length (data a) /\
   data (_from_linear lm a) !! i
   = Some (if x <=? 0.0031308 then 12.92 * x
           else 1.055 * power lm x (1 / 2.4) - 0.055)) /\
  (is_nan x = true ->
   (exists r, data (_to_linear lm a) !! i = Some r /\ is_nan r = true) /\
   data (_from_linear lm a) !! i = Some (1.055 * power lm x (1 / 2.4) - 0.055)).
Proof.
  intros Hi. rewrite _to_linear_px, _from_linear_px. cbn [shape data].
  rewrite !length_map, !(map_lookup _ _ _ _ Hi).
  unfold to_linear_px, from_linear_px.
  split; [auto|]. split; [auto|]. intros N.
  rewrite (nan_ltb_r _ _ N), (nan_leb_l _ _ N).
  split; [|reflexivity]. eexists. split; [reflexivity|]. apply nan_div_l, N.
Qed.

(** The two thresholds themselves are on the linear side. *)
Lemma gamma_transfer_elementwise_witness :
  let a := {| shape := [1; 3]%nat; data := [0.04045; 0.0031308; nan] |} in
  data (_to_linear libm_table a) !! 0%nat = Some (0.04045 / 12.92) /\
  data (_from_linear libm_table a) !! 1%nat = Some (12.92 * 0.0031308).
Proof.
  intros a.
  destruct (gamma_transfer_elementwise libm_table a 0 0.04045 eq_refl)
    as ((_ & _ & H0) & _).
  destruct (gamma_transfer_elementwise libm_table a 1 0.0031308 eq_refl)
    as (_ & (_ & _ & H1) & _).
  split; [exact H0|exact H1].
Defined.

(** X14: [_to_light] and [_from_light] keep the number of elements and
    convert every element on its own, by exactly one of their two formulas:
    [_to_light] takes the cube root formula above epsilon and
    [y / ref_y * kappa] otherwise, [_from_light] takes the cube formula above
    8 and [ref_y * l / kappa] otherwise.  A NaN element stays NaN in both,
    by the linear formula. *)
Theorem lightness_transfer_elementwise (lm : Libm) (k : Constants) (v : list float)
    (i : nat) (x : float) :
  v !! i = Some x ->
  (length (_to_light lm k v) = length v /\
   _to_light lm k v !! i
   = Some (if EPSILON k <? x then power lm (x / REF_Y k) (1.0 / 3.0) * 116 - 16
           else x / REF_Y k * KAPPA k)) /\
  (length (_from_light lm k v) = length v /\
   _from_light lm k v !! i
   = Some (if 8 <? x then REF_Y k * power lm ((x + 16) / 116) 3.0
           else REF_Y k * x / KAPPA k)) /\
  (is_nan x = true ->
   (exists r, _to_light lm k v !! i = Some r /\ is_nan r = true) /\
   (exists r, _from_light lm k v !! i = Some r /\ is_nan r = true)).
Proof.
  intros Hi. rewrite _to_light_px, _from_light_px.
  rewrite !length_map, !(map_lookup _ _ _ _ Hi).
  unfold to_light_px, from_light_px.
  split; [auto|]. split; [auto|]. intros N.
  rewrite !(nan_ltb_r _ _ N).
  split; eexists; (split; [reflexivity|]).
  - apply nan_mul_l, nan_div_l, N.
  - apply nan_div_l, nan_mul, N.
Qed.

(** The two thresholds themselves are on the linear side. *)
Lemma lightness_transfer_elementwise_witness :
  _to_light libm_table husl_constants [0.5; 0.0088564516] !! 1%nat
  = Some (0.0088564516 / 1.0 * 903.2962962) /\
  _from_light libm_table husl_constants [8; 50] !! 0%nat
  = Some (1.0 * 8 / 903.2962962).
Proof.
  destruct (lightness_transfer_elementwise libm_table husl_constants
              [0.5; 0.0088564516] 1 0.0088564516 eq_refl) as ((_ & H0) & _).
  destruct (lightness_transfer_elementwise libm_table husl_constants
              [8; 50] 0 8 eq_refl) as (_ & (_ & H1) & _).
  split; [exact H0|exact H1].
Defined.

(** ** The range of the hue *)

(** X17: the hues that [_rgb_to_hue] returns are the hue channel of
    [_rgb_to_husl], and every one of them lies in the closed interval
    [0, 360] when the angle that [arctan2] returns for the V and the U of
    each pixel, as [_luv_to_lch] passes them, is of at most a full turn in
    either direction, as the angles of the C library are for every argument
    that is not NaN. *)
Theorem hue_within_a_turn (lm : Libm) (k : Constants) (a : ndarray) :
  (length (shape a) <= 3)%nat ->
  (forall L U V : float,
     In (L, U, V) (luv_neg_zero (rows_of (data (_xyz_to_luv lm k (_rgb_to_xyz lm k a))))) ->
     (-360 <=? degrees (arctan2 lm V U)) = true /\
     (degrees (arctan2 lm V U) <=? 360) = true) ->
  _channel (rows_of (data (_rgb_to_husl lm k a))) 0 = data (_rgb_to_hue lm k a) /\
  forall h, In h (data (_rgb_to_hue lm k a)) -> (0 <=? h) = true /\ (h <=? 360) = true.
Proof.
  intros Hr Ha. split; [reflexivity|].
  intros h. rewrite _rgb_to_hue_data by exact Hr.
  intros (p & <- & Hp)%in_map_iff. unfold rgb_to_husl_px.
  destruct (xyz_to_luv_px lm k (rgb_to_xyz_px lm k p)) as [[L U] V] eqn:E.
  assert (Hin : In (L, (if U =? -0.0 then 0.0 else U), V)
                  (luv_neg_zero (rows_of (data (_xyz_to_luv lm k (_rgb_to_xyz lm k a)))))).
  { rewrite luv_neg_zero_px, _xyz_to_luv_px. cbn [data reshape].
    rewrite rows_of_flat_of, _rgb_to_xyz_data by exact Hr.
    rewrite rows_of_flat_of, !map_map. apply in_map_iff. exists p.
    split; [|exact Hp]. rewrite E. reflexivity. }
  destruct (Ha _ _ _ Hin) as [Hlo Hhi].
  pose proof (luv_to_lch_px_hue lm false L U V Hlo Hhi) as Hh.
  destruct (luv_to_lch_px lm false (L, U, V)) as [[L' C'] H']. exact Hh.
Qed.

(** The black pixel and the pixel (10, 9, 6) / 255, with the angles of the C
    library. *)
Lemma hue_within_a_turn_witness :
  let a := {| shape := [2; 3]%nat; data := [0; 0; 0; 10 / 255; 9 / 255; 6 / 255] |} in
  _channel (rows_of (data (_rgb_to_husl libm_glibc husl_constants a))) 0
  = data (_rgb_to_hue libm_glibc husl_constants a) /\
  forall h, In h (data (_rgb_to_hue libm_glibc husl_constants a)) ->
            (0 <=? h) = true /\ (h <=? 360) = true.
Proof.
  intros a. apply (hue_within_a_turn libm_glibc husl_constants a); [simpl; lia|].
  intros L U V H. vm_compute in H.
  destruct H as [E|[E|[]]]; injection E as <- <- <-; split; reflexivity.
Defined.

(** ** NaN lightness through the stages *)

Lemma nan_eqb_zero x : is_nan x = true -> (x =? 0) = false.
Proof.
  intros N. apply is_nan_Prim2SF in N. rewrite FloatAxioms.eqb_spec, N. reflexivity.
Qed.

Lemma nan_opp x : is_nan x = true -> is_nan (- x) = true.
Proof. rewrite !is_nan_Prim2SF, opp_spec. intros ->. reflexivity. Qed.

Lemma finite_div_infinity_mul c :
  is_nan c = false -> is_infinity c = false -> (c / infinity * 100.0 =? 0) = true.
Proof.
  intros N I. apply eqb_zero_Prim2SF. rewrite mul_spec, div_spec.
  change (Prim2SF infinity) with (S754_infinity false).
  destruct (Prim2SF c) as [s|s| |s m e] eqn:E.
  - vm_compute. destruct s; eauto.
  - assert (is_infinity c = true) by (apply is_infinity_Prim2SF; eauto). congruence.
  - apply Prim2SF_nan_is_nan in E. congruence.
  - vm_compute. destruct s; eauto.
Qed.

Lemma infinity_div_mul s :
  is_infinity (infinity / 100.0 * s) = true \/ is_nan (infinity / 100.0 * s) = true.
Proof.
  change (infinity / 100.0) with infinity.
  rewrite is_infinity_Prim2SF, is_nan_Prim2SF, mul_spec.
  change (Prim2SF infinity) with (S754_infinity false).
  destruct (Prim2SF s) as [ss|ss| |ss m e]; cbn; eauto.
Qed.

(** X18: a NaN lightness passes through both conversions between LCH and
    HUSL: it is neither too light nor too dark, the maximum chroma for it is
    the positive infinity, and so [_lch_to_husl] gives a finite chroma the
    saturation zero, while [_husl_to_lch] gives a chroma that is infinite or
    NaN; the hue is kept. *)
Theorem nan_lightness_passes_through (lm : Libm) (k : Constants) (a b : ndarray)
    (i j : nat) (L C H H' S L' : float) :
  rows_of (data a) !! i = Some (L, C, H) ->
  is_nan L = true -> is_nan C = false -> is_infinity C = false ->
  rows_of (data b) !! j = Some (H', S, L') -> is_nan L' = true ->
  (exists s, rows_of (data (_lch_to_husl lm k a)) !! i = Some (H, s, L) /\
             (s =? 0) = true) /\
  (exists c, rows_of (data (_husl_to_lch lm k b)) !! j = Some (L', c, H') /\
             (is_infinity c = true \/ is_nan c = true)).
Proof.
  intros Hi NL NC IC Hj NL'.
  rewrite _lch_to_husl_px, _husl_to_lch_px. cbn [data reshape].
  rewrite !rows_of_flat_of, (map_lookup _ _ _ _ Hi), (map_lookup _ _ _ _ Hj).
  unfold lch_to_husl_px, husl_to_lch_px.
  rewrite !max_chroma_px_nan_lightness by assumption.
  rewrite (nan_ltb_r _ _ NL), (nan_ltb_r _ _ NL').
  assert (D : (L <? L_MIN) = false).
  { destruct (L <? L_MIN) eqn:E; [|reflexivity].
    apply FloatOrderFacts.ltb_not_nan in E as [E _]. congruence. }
  assert (D' : (L' <? L_MIN) = false).
  { destruct (L' <? L_MIN) eqn:E; [|reflexivity].
    apply FloatOrderFacts.ltb_not_nan in E as [E _]. congruence. }
  rewrite D, D'. cbn [orb negb]. split.
  - eexists. split; [reflexivity|]. apply finite_div_infinity_mul; assumption.
  - eexists. split; [reflexivity|]. apply infinity_div_mul.
Qed.

(** One pixel with a NaN lightness in each direction. *)
Lemma nan_lightness_passes_through_witness :
  let a := {| shape := [1; 3]%nat; data := [nan; 5; 120] |} in
  let b := {| shape := [1; 3]%nat; data := [120; 5; nan] |} in
  (exists s, rows_of (data (_lch_to_husl libm_table husl_constants a)) !! 0%nat
             = Some (120, s, nan) /\ (s =? 0) = true) /\
  (exists c, rows_of (data (_husl_to_lch libm_table husl_constants b)) !! 0%nat
             = Some (nan, c, 120) /\ (is_infinity c = true \/ is_nan c = true)).
Proof.
  intros a b.
  apply (nan_lightness_passes_through libm_table husl_constants a b 0 0 nan 5 120 120 5 nan);
    reflexivity.
Defined.

(** X19: the LUV stages turn a NaN into black without a trace: a pixel
    whose Y is NaN leaves [_xyz_to_luv] as the row of zeros, and a pixel
    whose lightness is NaN leaves [_luv_to_xyz] as the row of zeros, since
    every channel computed from the NaN is NaN and [np.nan_to_num] replaces
    it by zero. *)
Theorem nan_luminance_becomes_black (lm : Libm) (k : Constants) (a b : ndarray)
    (i j : nat) (X Y Z L U V : float) :
  rows_of (data a) !! i = Some (X, Y, Z) -> is_nan Y = true ->
  rows_of (data b) !! j = Some (L, U, V) -> is_nan L = true ->
  rows_of (data (_xyz_to_luv lm k a)) !! i = Some (0, 0, 0) /\
  rows_of (data (_luv_to_xyz lm k b)) !! j = Some (0, 0, 0).
Proof.
  intros Hi NY Hj NL.
  rewrite _xyz_to_luv_px, _luv_to_xyz_px. cbn [data reshape].
  rewrite !rows_of_flat_of, (map_lookup _ _ _ _ Hi), (map_lookup _ _ _ _ Hj).
  split; f_equal.
  - unfold xyz_to_luv_px. destruct (xyz_uv_var_px (X, Y, Z)) as [u v]. cbn [chan].
    assert (NT : is_nan (to_light_px lm k Y) = true).
    { unfold to_light_px. rewrite (nan_ltb_r _ _ NY). apply nan_mul_l, nan_div_l, NY. }
    rewrite (nan_eqb_zero _ NT).
    rewrite !nan_to_num_nan; [reflexivity| | |]; try exact NT;
      apply nan_mul_l, nan_mul_l, NT.
  - unfold luv_to_xyz_px. destruct (luv_uv_var_px k (L, U, V)) as [u v]. cbn [chan].
    rewrite (nan_eqb_zero _ NL).
    assert (NF : is_nan (from_light_px lm k L * REF_Y k) = true).
    { unfold from_light_px. rewrite (nan_ltb_r _ _ NL).
      apply nan_mul_l, nan_div_l, nan_mul, NL. }
    set (Yv := from_light_px lm k L * REF_Y k) in *.
    assert (NX : is_nan (- (9 * Yv * u) / ((u - 4.0) * v - u * v)) = true)
      by (apply nan_div_l, nan_opp, nan_mul_l, nan_mul, NF).
    assert (NZ : is_nan ((9.0 * Yv - 15.0 * v * Yv
                          - v * (- (9 * Yv * u) / ((u - 4.0) * v - u * v)))
                         / (3.0 * v)) = true)
      by (apply nan_div_l, nan_sub, nan_sub, nan_mul, NF).
    rewrite (nan_to_num_nan _ NX), (nan_to_num_nan _ NF), (nan_to_num_nan _ NZ).
    reflexivity.
Qed.

(** One pixel with a NaN in each direction. *)
Lemma nan_luminance_becomes_black_witness :
  let a := {| shape := [1; 3]%nat; data := [0.2; nan; 0.3] |} in
  let b := {| shape := [1; 3]%nat; data := [nan; 3; 4] |} in
  rows_of (data (_xyz_to_luv libm_table husl_constants a)) !! 0%nat = Some (0, 0, 0) /\
  rows_of (data (_luv_to_xyz libm_table husl_constants b)) !! 0%nat = Some (0, 0, 0).
Proof.
  intros a b.
  apply (nan_luminance_becomes_black libm_table husl_constants a b 0 0 0.2 nan 0.3 nan 3 4);
    reflexivity.
Defined.

(** ** The solver on arrays *)

Lemma _ray_length_length (lm : Libm) theta (line : list float * list float) :
  length line.1 = length theta -> length line.2 = length theta ->
  length (_ray_length lm theta line) = length theta.
Proof.
  destruct line as [m1 b1]. cbn [fst snd _ray_length]. intros H1 H2.
  rewrite !length_zip_with, !length_map. lia.
Qed.

(** X20: for every array of LCH pixels [_bounds] yields exactly six lines,
    each a pair of arrays with one slope and one intercept per pixel, for
    each of which [_ray_length] returns one length per pixel;
    [_max_lh_chroma] returns one bound per pixel, and no bound is NaN or
    below zero. *)
Theorem solver_shapes (lm : Libm) (k : Constants) (lch : list pixel) :
  length (_bounds lm k (_channel lch 0)) = 6%nat /\
  (forall line, In line (_bounds lm k (_channel lch 0)) ->
     length line.1 = length lch /\ length line.2 = length lch /\
     length (_ray_length lm (_channel lch 2) line) = length lch) /\
  length (_max_lh_chroma lm k lch) = length lch /\
  (forall m, In m (_max_lh_chroma lm k lch) -> is_nan m = false /\ (0 <=? m) = true).
Proof.
  unfold _channel. rewrite _bounds_px, _max_lh_chroma_px, !length_map.
  split; [apply line_variants_length|]. split; [|split; [reflexivity|]].
  - intros line (v & <- & _)%in_map_iff. cbn [fst snd].
    assert (H1 : length (map (fun x : pixel => (line_px lm k v.1 v.2 (chan x 0)).1) lch)
                 = length lch) by apply length_map.
    assert (H2 : length (map (fun x : pixel => (line_px lm k v.1 v.2 (chan x 0)).2) lch)
                 = length lch) by apply length_map.
    split; [exact H1|]. split; [exact H2|].
    rewrite _ray_length_length; rewrite length_map; assumption || reflexivity.
  - intros m (p & <- & _)%in_map_iff.
    pose proof (max_chroma_px_nonneg lm k (chan p 0) (chan p 2)) as H.
    split; [|exact H]. apply FloatOrderFacts.leb_not_nan in H as [_ H]. exact H.
Qed.

(** ** Black *)

Lemma rows_of_zeros n : rows_of (repeat 0 (3 * n)) = repeat (0, 0, 0) n.
Proof.
  induction n as [|n IH]; [reflexivity|].
  replace (3 * S n)%nat with (S (S (S (3 * n)))) by lia.
  cbn [repeat rows_of]. rewrite IH. reflexivity.
Qed.

Lemma flat_of_zeros n : flat_of (repeat (0, 0, 0) n) = repeat 0 (3 * n).
Proof.
  induction n as [|n IH]; [reflexivity|].
  replace (3 * S n)%nat with (S (S (S (3 * n)))) by lia.
  change (repeat (0, 0, 0) (S n)) with ([(0, 0, 0)] ++ repeat (0, 0, 0) n).
  rewrite flat_of_app, IH. reflexivity.
Qed.

Lemma map_repeat_const {A B} (f : A -> B) (x : A) n :
  map f (repeat x n) = repeat (f x) n.
Proof. induction n as [|n IH]; [reflexivity|]. cbn [repeat map]. rewrite IH. reflexivity. Qed.

Section Black.
Context (lm : Libm) (k : Constants).

Lemma dot_px_zero scalars :
  _dot_product lm scalars {| shape := [3%nat]; data := [0; 0; 0] |}
  = {| shape := [3%nat]; data := [0; 0; 0] |} ->
  dot_px lm scalars (0, 0, 0) = (0, 0, 0).
Proof.
  intros H. apply (f_equal data) in H.
  rewrite _dot_product_data in H by (simpl; lia). cbn [data rows_of map flat_of flat_map app] in H.
  destruct (dot_px lm scalars (0, 0, 0)) as [[x y] z]. cbn [chan] in H.
  injection H as -> -> ->. reflexivity.
Qed.

(** The black pixel has no saturation and no lightness, in either branch of
    [_luv_to_lch]. *)
Lemma rgb_to_husl_px_black scalar l :
  dot_px lm (M_INV k) (0, 0, 0) = (0, 0, 0) ->
  _to_light lm k [0] = [l] -> (l =? 0) = true ->
  exists h, rgb_to_husl_px lm k scalar (0, 0, 0) = (h, 0, 0).
Proof.
  intros Hd Hl Hz. rewrite _to_light_px in Hl. injection Hl as Hl.
  unfold rgb_to_husl_px, rgb_to_xyz_px. cbn [chan].
  change (to_linear_px lm 0) with 0. rewrite Hd.
  unfold xyz_to_luv_px. destruct (xyz_uv_var_px (0, 0, 0)) as [u v]. cbn [chan].
  rewrite Hl, Hz. change (nan_to_num 0) with 0.
  cbn [luv_to_lch_px lch_to_husl_px]. eexists. reflexivity.
Qed.

(** No saturation and no lightness give the black pixel, whatever the hue. *)
Lemma husl_to_rgb_px_black h :
  dot_px lm (M k) (0, 0, 0) = (0, 0, 0) ->
  husl_to_rgb_px lm k (h, 0, 0) = (0, 0, 0).
Proof.
  intros Hd. unfold husl_to_rgb_px, xyz_to_rgb_px.
  cbn [husl_to_lch_px lch_to_luv_px].
  change (0 <? L_MIN) with true. cbn iota.
  unfold luv_to_xyz_px. destruct (luv_uv_var_px k _) as [u v]. cbn [chan].
  change (0 =? 0) with true. cbn iota. rewrite Hd. reflexivity.
Qed.

End Black.

(** X21: black goes through the round trip exactly, whatever [sin], [cos],
    [arctan2] and [pow] return.  When both matrix products of the black pixel
    are the zero pixel and the lightness of the luminance zero is a zero (as
    with the constants of HUSL), [_rgb_to_husl] gives every pixel of an
    all-zero array of [n] pixels the saturation 0 and the lightness 0, with
    one hue for all, and [_husl_to_rgb] gives back the all-zero array. *)
Theorem black_round_trip (lm : Libm) (k : Constants) (n : nat) (l : float) :
  _dot_product lm (M_INV k) {| shape := [3%nat]; data := [0; 0; 0] |}
  = {| shape := [3%nat]; data := [0; 0; 0] |} ->
  _dot_product lm (M k) {| shape := [3%nat]; data := [0; 0; 0] |}
  = {| shape := [3%nat]; data := [0; 0; 0] |} ->
  _to_light lm k [0] = [l] -> (l =? 0) = true ->
  let black := {| shape := [n; 3%nat]; data := repeat 0 (3 * n) |} in
  (exists h, rows_of (data (_rgb_to_husl lm k black)) = repeat (h, 0, 0) n) /\
  data (_husl_to_rgb lm k (_rgb_to_husl lm k black)) = repeat 0 (3 * n).
Proof.
  intros H1 H2 Hl Hz black.
  apply dot_px_zero in H1, H2.
  assert (Hrows : exists h, rows_of (data (_rgb_to_husl lm k black)) = repeat (h, 0, 0) n).
  { unfold black. rewrite _rgb_to_husl_batch, rows_of_flat_of, rows_of_zeros, map_repeat_const.
    destruct (rgb_to_husl_px_black lm k (n =? 1)%nat l H1 Hl Hz) as [h ->]. eauto. }
  split; [exact Hrows|]. destruct Hrows as [h Hrows].
  rewrite _husl_to_rgb_data.
  - rewrite Hrows, map_repeat_const, husl_to_rgb_px_black by exact H2. apply flat_of_zeros.
  - unfold _rgb_to_husl, _rgb_to_lch, _lch_to_husl, _luv_to_lch, _xyz_to_luv, _rgb_to_xyz.
    cbn [shape reshape]. destruct (xyz_uv_var _) as [u v]. cbn [shape reshape].
    rewrite (_dot_product_shape lm (M_INV k) _ n) by (rewrite _to_linear_px; reflexivity).
    destruct (n =? 1)%nat; simpl; lia.
Qed.

(** Two black pixels, with the constants of HUSL. *)
Lemma black_round_trip_witness :
  let black := {| shape := [2; 3]%nat; data := repeat 0 6 |} in
  (exists h, rows_of (data (_rgb_to_husl libm_table husl_constants black))
             = repeat (h, 0, 0) 2) /\
  data (_husl_to_rgb libm_table husl_constants (_rgb_to_husl libm_table husl_constants black))
  = repeat 0 6.
Proof.
  intros black.
  apply (black_round_trip libm_table husl_constants 2 0); reflexivity.
Defined.

(** ** The module body *)

Module DispatchRunFacts.
Import Dispatch DispatchRun.

Lemma preferred_define st x n : preferred (define st x) n = preferred st n.
Proof. reflexivity. Qed.

Lemma enabled_define st x t : enabled (define st x) t = enabled st t.
Proof. destruct t; reflexivity. Qed.

Lemma available_define st x t n : available (define st x) t n = available st t n.
Proof. destruct t; reflexivity. Qed.

Lemma called_define st x n :
  called (define st x) n = if decide (n = x) then Some (preferred st x) else called st n.
Proof.
  unfold called, define.
  pose proof (DispatchFacts.optimized_preferred st x) as H.
  destruct (optimized st _) as [st' r] eqn:E. cbn [snd] in H. subst r.
  cbn [globals].
  assert (G : globals st' = globals st).
  { pose proof (DispatchFacts.optimized_registries st x) as (_ & _ & G).
    rewrite E in G. exact G. }
  rewrite G. destruct (decide (n = x)) as [->|Hn].
  - apply lookup_insert_eq.
  - apply lookup_insert_ne. congruence.
Qed.

Lemma registry_define st x t n :
  registry (define st x) t !! n
  = if decide (n = x) then
      (if enabled st t && available st t x
       then Some {| provider := t; fn_name := x |} else registry st t !! x)
    else registry st t !! n.
Proof.
  destruct (decide (n = x)) as [->|Hn].
  - pose proof (DispatchFacts.optimized_registries st x) as (_ & R & _).
    specialize (R t). unfold define.
    destruct (optimized st _) as [st' r] eqn:E. cbn [fst] in R.
    destruct t; exact R.
  - unfold define, optimized, registry, register.
    cbn [NUMPY NUMEXPR CYTHON SIMD fn_name].
    destruct t.
    + apply lookup_insert_ne. congruence.
    + destruct (_NUMEXPR_ENABLED st); [|reflexivity].
      destruct (getattr _ _ _); [|reflexivity]. apply lookup_insert_ne. congruence.
    + destruct (_CYTHON_ENABLED st); [|reflexivity].
      destruct (getattr _ _ _); [|reflexivity]. apply lookup_insert_ne. congruence.
    + destruct (_SIMD_ENABLED st); [|reflexivity].
      destruct (getattr _ _ _); [|reflexivity]. apply lookup_insert_ne. congruence.
Qed.

End DispatchRunFacts.

(** X15: after any sequence of decorated definitions every name that was
    defined is bound to the implementation that the preference order gives
    for it in the state before the sequence, and is recorded in the registry
    of every tier that is enabled and provides it; a name that was not
    defined keeps its binding and its registry entries; the definitions
    change neither the flags nor the choice for any name, so that the order
    of the definitions does not matter to the choice. *)
Theorem module_definitions_resolve_each_name (st : Dispatch.module_state)
    (names : list string) (n : string) (t : Dispatch.tier) :
  let st' := DispatchRun.define_all st names in
  Dispatch.called st' n
  = (if decide (n ∈ names) then Some (Dispatch.preferred st n) else Dispatch.called st n) /\
  DispatchRun.registry st' t !! n
  = (if decide (n ∈ names) then
       if Dispatch.enabled st t && Dispatch.available st t n
       then Some {| Dispatch.provider := t; Dispatch.fn_name := n |}
       else DispatchRun.registry st t !! n
     else DispatchRun.registry st t !! n) /\
  Dispatch.preferred st' n = Dispatch.preferred st n /\
  Dispatch.enabled st' t = Dispatch.enabled st t.
Proof.
  cbn zeta. unfold DispatchRun.define_all. revert st.
  induction names as [|x names IH]; intros st.
  - cbn [fold_left]. rewrite decide_False by apply not_elem_of_nil. auto.
  - cbn [fold_left]. destruct (IH (Dispatch.define st x)) as (C & R & P & E).
    rewrite C, R, P, E. clear IH C R P E.
    rewrite DispatchRunFacts.called_define, DispatchRunFacts.registry_define,
      DispatchRunFacts.preferred_define, DispatchRunFacts.enabled_define,
      DispatchRunFacts.available_define.
    split; [|split; [|split; reflexivity]].
    + destruct (decide (n ∈ names)) as [Hin|Hin].
      * rewrite decide_True by (apply elem_of_cons; auto). reflexivity.
      * destruct (decide (n = x)) as [->|Hn].
        -- rewrite decide_True by (apply elem_of_cons; auto). reflexivity.
        -- rewrite decide_False; [reflexivity|].
           intros [?|?]%elem_of_cons; contradiction.
    + destruct (decide (n ∈ names)) as [Hin|Hin].
      * rewrite (decide_True (P := n ∈ x :: names)) by (apply elem_of_cons; auto).
        destruct (Dispatch.enabled st t && Dispatch.available st t n) eqn:EA;
          [reflexivity|].
        destruct (decide (n = x)) as [->|Hn]; [rewrite EA|]; reflexivity.
      * destruct (decide (n = x)) as [->|Hn].
        -- rewrite decide_True by (apply elem_of_cons; auto). reflexivity.
        -- rewrite decide_False; [reflexivity|].
           intros [?|?]%elem_of_cons; contradiction.
Qed.

(** ** The build script *)

Module SetupFacts.
Import Setup.
Local Open Scope string_scope.
Local Open Scope list_scope.

Lemma filter_absent (x : string) (l : list string) :
  occurrences x l = 0%nat -> List.filter (fun a => negb (bool_decide (a = x))) l = l.
Proof.
  unfold occurrences. induction l as [|y l IH]; [reflexivity|]. cbn [List.filter].
  destruct (bool_decide (y = x)); [discriminate|]. cbn [negb length]. intros H.
  f_equal. apply IH, H.
Qed.

Lemma list_remove_filter (x : string) (l : list string) :
  (occurrences x l <= 1)%nat ->
  list_remove x l = List.filter (fun a => negb (bool_decide (a = x))) l.
Proof.
  unfold occurrences. induction l as [|y l IH]; [reflexivity|].
  cbn [list_remove List.filter]. destruct (decide (x = y)) as [<-|Hxy].
  - rewrite bool_decide_eq_true_2 by reflexivity. cbn [negb length]. intros H.
    symmetry. apply filter_absent. unfold occurrences. lia.
  - rewrite bool_decide_eq_false_2 by congruence. cbn [negb]. intros H.
    f_equal. apply IH, H.
Qed.

Lemma occurrences_absent (x : string) (l : list string) :
  x ∉ l -> occurrences x l = 0%nat.
Proof.
  unfold occurrences. induction l as [|y l IH]; [reflexivity|]. intros H.
  cbn [List.filter]. rewrite bool_decide_eq_false_2.
  - apply IH. intros Hin. apply H. right. exact Hin.
  - intros ->. apply H. left.
Qed.

Lemma remove_flag_filter (x : string) (l : list string) :
  (occurrences x l <= 1)%nat ->
  (if bool_decide (x ∈ l) then list_remove x l else l)
  = List.filter (fun a => negb (bool_decide (a = x))) l.
Proof.
  intros H. destruct (bool_decide (x ∈ l)) eqn:E.
  - apply list_remove_filter, H.
  - apply bool_decide_eq_false_1 in E. symmetry. apply filter_absent, occurrences_absent, E.
Qed.

Lemma occurrences_filter (x y : string) (l : list string) :
  x <> y ->
  occurrences x (List.filter (fun a => negb (bool_decide (a = y))) l) = occurrences x l.
Proof.
  intros Hxy. unfold occurrences. induction l as [|z l IH]; [reflexivity|].
  cbn [List.filter]. destruct (bool_decide (z = y)) eqn:Ezy; cbn [negb List.filter].
  - apply bool_decide_eq_true_1 in Ezy. subst z.
    rewrite bool_decide_eq_false_2 by congruence. exact IH.
  - destruct (bool_decide (z = x)); cbn [length]; [f_equal|]; exact IH.
Qed.

Lemma elem_of_filter_other (x y : string) (l : list string) :
  x <> y ->
  bool_decide (x ∈ List.filter (fun a => negb (bool_decide (a = y))) l)
  = bool_decide (x ∈ l).
Proof.
  intros Hxy. apply bool_decide_ext.
  rewrite !list_elem_of_In, List.filter_In, negb_true_iff, bool_decide_eq_false.
  split; [tauto|]. intros H. split; [exact H|congruence].
Qed.

Lemma not_an_option (a : string) :
  a <> "--cythonize" -> a <> "--no-simd-ext" -> a <> "--no-cython-ext" -> a ∉ options.
Proof.
  intros N1 N2 N3 H. unfold options in H.
  apply elem_of_cons in H as [H|H]; [contradiction|].
  apply elem_of_cons in H as [H|H]; [contradiction|].
  apply elem_of_cons in H as [H|H]; [contradiction|].
  apply elem_of_nil in H as [].
Qed.

End SetupFacts.

(** X16: when none of the three options of the build script is given more
    than once, the command line left for setuptools is the given one without
    the options, in the same order; the Cython extension is built unless
    [--no-cython-ext] is given and the SIMD extension unless [--no-simd-ext]
    is given, in this order; the extensions are passed through [cythonize],
    and their first source is the [.pyx] file instead of the [.c] file,
    exactly when [--cythonize] is given. *)
Theorem setup_options_are_consumed (argv : list string) :
  (forall o, o ∈ Setup.options -> (Setup.occurrences o argv <= 1)%nat) ->
  let st := Setup.script argv in
  Setup.argv_left st
  = List.filter (fun a => negb (bool_decide (a ∈ Setup.options))) argv /\
  map Setup.ext_name (Setup.extensions st)
  = ((if bool_decide ("--no-cython-ext"%string ∈ argv) then []
      else ["nphusl._cython_opt"%string])
     ++ (if bool_decide ("--no-simd-ext"%string ∈ argv) then []
         else ["nphusl._simd_opt"%string]))%list /\
  Setup.cythonized st = bool_decide ("--cythonize"%string ∈ argv) /\
  map (fun e => List.hd_error (Setup.sources e)) (Setup.extensions st)
  = map (fun e => Some (String.append
                          (if String.eqb (Setup.ext_name e) "nphusl._cython_opt"
                           then "nphusl/_cython_opt" else "nphusl/_simd_opt")
                          (if bool_decide ("--cythonize"%string ∈ argv)
                           then ".pyx" else ".c"))%string)
      (Setup.extensions st).
Proof.
  intros Hocc. cbn zeta.
  assert (H1 : (Setup.occurrences "--cythonize" argv <= 1)%nat)
    by (apply Hocc; unfold Setup.options; rewrite !elem_of_cons; auto).
  assert (H2 : (Setup.occurrences "--no-simd-ext" argv <= 1)%nat)
    by (apply Hocc; unfold Setup.options; rewrite !elem_of_cons; auto).
  assert (H3 : (Setup.occurrences "--no-cython-ext" argv <= 1)%nat)
    by (apply Hocc; unfold Setup.options; rewrite !elem_of_cons; auto).
  unfold Setup.script. cbn [Setup.argv_left Setup.extensions Setup.cythonized].
  split.
  - rewrite (SetupFacts.remove_flag_filter "--cythonize" argv H1).
    rewrite <- (SetupFacts.elem_of_filter_other "--no-simd-ext" "--cythonize" argv)
      by discriminate.
    rewrite SetupFacts.remove_flag_filter
      by (rewrite SetupFacts.occurrences_filter by discriminate; exact H2).
    rewrite <- (SetupFacts.elem_of_filter_other "--no-cython-ext" "--cythonize" argv)
      by discriminate.
    rewrite <- (SetupFacts.elem_of_filter_other "--no-cython-ext" "--no-simd-ext")
      by discriminate.
    rewrite SetupFacts.remove_flag_filter
      by (rewrite !SetupFacts.occurrences_filter by discriminate; exact H3).
    clear. induction argv as [|a argv IH]; [reflexivity|].
    cbn [List.filter].
    destruct (decide (a = "--cythonize"%string)) as [->|N1]; [exact IH|].
    rewrite (bool_decide_eq_false_2 (a = "--cythonize"%string)) by exact N1.
    cbn [negb List.filter].
    destruct (decide (a = "--no-simd-ext"%string)) as [->|N2]; [exact IH|].
    rewrite (bool_decide_eq_false_2 (a = "--no-simd-ext"%string)) by exact N2.
    cbn [negb List.filter].
    destruct (decide (a = "--no-cython-ext"%string)) as [->|N3]; [exact IH|].
    rewrite (bool_decide_eq_false_2 (a = "--no-cython-ext"%string)) by exact N3.
    cbn [negb List.filter].
    rewrite (bool_decide_eq_false_2 (a ∈ Setup.options))
      by (apply SetupFacts.not_an_option; assumption).
    cbn [negb]. f_equal. exact IH.
  - split; [|split; [reflexivity|]].
    + destruct (bool_decide ("--no-cython-ext"%string ∈ argv)),
        (bool_decide ("--no-simd-ext"%string ∈ argv)); reflexivity.
    + destruct (bool_decide ("--no-cython-ext"%string ∈ argv)),
        (bool_decide ("--no-simd-ext"%string ∈ argv)),
        (bool_decide ("--cythonize"%string ∈ argv)); reflexivity.
Qed.

(** A build in place from the Cython sources, without the SIMD extension. *)
Lemma setup_options_are_consumed_witness :
  let argv := ["setup.py"; "build_ext"; "--no-simd-ext"; "--inplace"; "--cythonize"]%string in
  let st := Setup.script argv in
  Setup.argv_left st = ["setup.py"; "build_ext"; "--inplace"]%string /\
  map Setup.ext_name (Setup.extensions st) = ["nphusl._cython_opt"%string] /\
  Setup.cythonized st = true /\
  map (fun e => List.hd_error (Setup.sources e)) (Setup.extensions st)
  = [Some "nphusl/_cython_opt.pyx"%string].
Proof.
  intros argv st.
  apply (setup_options_are_consumed argv).
  intros o Ho. unfold Setup.options in Ho.
  apply elem_of_cons in Ho as [->|Ho]; [vm_compute; lia|].
  apply elem_of_cons in Ho as [->|Ho]; [vm_compute; lia|].
  apply elem_of_cons in Ho as [->|Ho]; [vm_compute; lia|].
  apply elem_of_nil in Ho as [].
Defined.
